(** * BeamSafe MY Pro Suite: the design engine of [App.tsx]

    The repository ships several generations of one React component,
    [App].  All its engineering logic lives in the closure [calculateDesign],
    which exists in two forms:

    - the beam suite ([App.tsx] lines 731-881; the same text again at lines
      1243-1393 and in the third copy of the component): primary beam, ground
      beam, 200 mm column and footing, module [Suite] below;
    - the column-first residential form ([App.tsx] lines 92-232): user
      column, footing with a bearing check, ground beam, module [Residential].

    JavaScript numbers are IEEE-754 binary64 values.  The arithmetic of
    [calculateDesign] is written once, over an interface [Num] of the
    operations the code uses, and read at Rocq's primitive [float]: binary64,
    the arithmetic the code runs on, with its roundings, its infinities and
    NaN.  Strings, [parseFloat], truthiness and [toFixed] are modelled on
    [float] as well.

    Around [calculateDesign] the component keeps the form state
    ([handleInputChange], the inputs stored in [localStorage]) and draws the
    sketch [StructuralSVG]; they are modelled in [Storage], [SuiteState],
    [ResidentialState] and [Sketch]. *)

From Stdlib Require Import ZArith QArith Qreals String Ascii List Bool Lia Lra.
From Stdlib Require Import Reals Floats.
Import ListNotations.

Local Open Scope string_scope.

(** ** Verdicts *)

(** The union type ['SAFE' | 'UNSAFE'] of [DesignResult]. *)
Inductive Status : Set := SAFE | UNSAFE.

Definition Status_eqb (s t : Status) : bool :=
  match s, t with
  | SAFE, SAFE | UNSAFE, UNSAFE => true
  | _, _ => false
  end.

(** ** The arithmetic the code uses *)

(** [num q] is the numeric literal written [q] in the source; the other
    fields are the operators and [Math] functions of the same name. *)
Class Num (A : Type) : Type := {
  num : Q -> A;
  add : A -> A -> A;
  sub : A -> A -> A;
  mul : A -> A -> A;
  div : A -> A -> A;
  ltb : A -> A -> bool;
  leb : A -> A -> bool;
  Math_sqrt : A -> A;
  Math_ceil : A -> A;
  Math_round : A -> A;
  Math_max : A -> A -> A;
  Math_min : A -> A -> A
}.

Arguments num {A _} q%_Q.

Declare Scope js_scope.
Delimit Scope js_scope with js.
Infix "+" := add : js_scope.
Infix "-" := sub : js_scope.
Infix "*" := mul : js_scope.
Infix "/" := div : js_scope.
Infix "<?" := ltb : js_scope.
Infix "<=?" := leb : js_scope.
Notation "x >? y" := (ltb y x) (at level 70, no associativity) : js_scope.

(** [Math.pow(x, 2)]: both fdlibm's [pow] (V8) and SpiderMonkey's integer
    power return [x * x] for the exponent 2. *)
Definition Math_pow2 {A} `{Num A} (x : A) : A := mul x x.

(** ** Binary64: the arithmetic of JavaScript numbers

    [+], [-], [*], [/], [Math.sqrt] and the comparisons are the primitive
    binary64 operations.  Literals, [Math.ceil], [Math.round], [Math.max],
    [Math.min], [parseFloat] and [toFixed] are computed on the sign, mantissa
    and exponent of the value ([Prim2SF]) as ECMA-262 defines them. *)

Module Float64.

Definition of_SF (x : spec_float) : float := SF2Prim x.

(** The binary64 value nearest to the integer [n] (exact below 2^53). *)
Definition of_Z (n : Z) : float := of_SF (binary_normalize prec emax n 0 false).

(** The binary64 value nearest to the rational [q], ties to even: the
    quotient of numerator by denominator, rounded once. *)
Definition SF_of_Q (q : Q) : spec_float :=
  match Qnum q with
  | Z0 => S754_zero false
  | Zpos n => SFdiv prec emax (S754_finite false n 0) (S754_finite false (Qden q) 0)
  | Zneg n => SFdiv prec emax (S754_finite true n 0) (S754_finite false (Qden q) 0)
  end.

Definition of_Q (q : Q) : float := of_SF (SF_of_Q q).

(** [Math.ceil]: the smallest integral value not below [x]; NaN, the
    infinities and the zeros are returned unchanged, and a negative [x]
    above -1 gives -0. *)
Definition ceil (x : float) : float :=
  match Prim2SF x with
  | S754_finite s m (Zneg k) =>
      let q := Z.shiftr (Zpos m) (Zpos k) in
      if s then (if (q =? 0)%Z then neg_zero else of_Z (- q))
      else if (Z.shiftl q (Zpos k) =? Zpos m)%Z then of_Z q else of_Z (q + 1)
  | _ => x
  end.

(** [Math.round]: the integral value nearest to [x], a tie going to the
    larger one; the result is a zero of the sign of [x] when it is zero. *)
Definition round (x : float) : float :=
  match Prim2SF x with
  | S754_finite s m (Zneg k) =>
      let sm := if s then Zneg m else Zpos m in
      let n := ((2 * sm + 2 ^ Zpos k) / 2 ^ (Zpos k + 1))%Z in
      if (n =? 0)%Z then (if s then neg_zero else zero) else of_Z n
  | _ => x
  end.

(** [Math.max] and [Math.min]: NaN when an argument is NaN, and +0 is larger
    than -0. *)
Definition max (x y : float) : float :=
  if is_nan x || is_nan y then nan
  else if (x <? y)%float then y
  else if (y <? x)%float then x
  else if get_sign x then y else x.

Definition min (x y : float) : float :=
  if is_nan x || is_nan y then nan
  else if (x <? y)%float then x
  else if (y <? x)%float then y
  else if get_sign x then x else y.

#[export] Instance Float64_Num : Num float := {|
  num := of_Q;
  add := PrimFloat.add;
  sub := PrimFloat.sub;
  mul := PrimFloat.mul;
  div := PrimFloat.div;
  ltb := PrimFloat.ltb;
  leb := PrimFloat.leb;
  Math_sqrt := PrimFloat.sqrt;
  Math_ceil := ceil;
  Math_round := round;
  Math_max := max;
  Math_min := min
|}.

(** *** Truthiness *)

(** [ToBoolean] of a number: false for NaN, +0 and -0. *)
Definition truthy (x : float) : bool := negb (is_nan x || is_zero x).

(** [x || y] on numbers. *)
Definition orNumber (x y : float) : float := if truthy x then x else y.

(** [s || t] on strings: the empty string is the only falsy one. *)
Definition orString (s t : string) : string :=
  match s with
  | EmptyString => t
  | _ => s
  end.

(** *** [parseFloat] (ECMA-262, 19.2.4)

    The longest prefix of the trimmed string that is a [StrDecimalLiteral]
    is converted; NaN when there is none.  The trimming, [TrimString],
    removes the [WhiteSpace] and [LineTerminator] code points.  Strings are
    byte strings here and hold the text in UTF-8: U+0009 to U+000D and
    U+0020 take one byte, U+00A0 two, and U+1680, U+2000 to U+200A, U+2028,
    U+2029, U+202F, U+205F, U+3000 and U+FEFF three. *)

Definition isDigit (c : ascii) : bool :=
  let n := N_of_ascii c in (48 <=? n)%N && (n <=? 57)%N.

Definition digitValue (c : ascii) : Z := Z.of_N (N_of_ascii c) - 48.

Definition isWhiteSpace (c : ascii) : bool :=
  let n := N_of_ascii c in ((9 <=? n)%N && (n <=? 13)%N) || (n =? 32)%N.

(** U+00A0 is the bytes C2 A0. *)
Definition isWhiteSpace2 (c1 c2 : ascii) : bool :=
  (N_of_ascii c1 =? 194)%N && (N_of_ascii c2 =? 160)%N.

(** U+1680 is E1 9A 80; U+2000 to U+200A are E2 80 80 to E2 80 8A; U+2028,
    U+2029 and U+202F are E2 80 A8, E2 80 A9 and E2 80 AF; U+205F is
    E2 81 9F; U+3000 is E3 80 80; U+FEFF is EF BB BF. *)
Definition isWhiteSpace3 (c1 c2 c3 : ascii) : bool :=
  let n1 := N_of_ascii c1 in
  let n2 := N_of_ascii c2 in
  let n3 := N_of_ascii c3 in
  ((n1 =? 225) && (n2 =? 154) && (n3 =? 128))%N
  || ((n1 =? 226)%N && (n2 =? 128)%N
      && (((128 <=? n3) && (n3 <=? 138)) || (n3 =? 168) || (n3 =? 169) || (n3 =? 175))%N)
  || ((n1 =? 226) && (n2 =? 129) && (n3 =? 159))%N
  || ((n1 =? 227) && (n2 =? 128) && (n3 =? 128))%N
  || ((n1 =? 239) && (n2 =? 187) && (n3 =? 191))%N.

Fixpoint trimStart (s : string) : string :=
  match s with
  | String c r =>
      if isWhiteSpace c then trimStart r
      else
        match r with
        | String c2 r2 =>
            if isWhiteSpace2 c c2 then trimStart r2
            else
              match r2 with
              | String c3 r3 => if isWhiteSpace3 c c2 c3 then trimStart r3 else s
              | EmptyString => s
              end
        | EmptyString => s
        end
  | EmptyString => s
  end.

(** The [DecimalDigits] at the head of [s]: their value on top of [acc],
    how many there are on top of [n], and what follows them. *)
Fixpoint decimalDigits (s : string) (acc n : Z) : Z * Z * string :=
  match s with
  | String c r =>
      if isDigit c then decimalDigits r (10 * acc + digitValue c) (n + 1)
      else (acc, n, s)
  | EmptyString => (acc, n, s)
  end.

(** The value of the [ExponentPart] at the head of [s]; 0 when there is
    none ([e] or [E], an optional sign, at least one digit). *)
Definition exponentPart (s : string) : Z :=
  match s with
  | String c r =>
      if Ascii.eqb c "e" || Ascii.eqb c "E" then
        let '(neg, r') :=
          match r with
          | String "+" r' => (false, r')
          | String "-" r' => (true, r')
          | _ => (false, r)
          end in
        let '(v, n, _) := decimalDigits r' 0 0 in
        if (n =? 0)%Z then 0%Z else if neg then (- v)%Z else v
      else 0%Z
  | EmptyString => 0%Z
  end.

(** The binary64 value nearest to [m * 10^e], for [0 <= m]. *)
Definition decimal (m e : Z) : float :=
  if (0 <=? e)%Z then of_Q ((m * 10 ^ e) # 1)
  else of_Q (m # Z.to_pos (10 ^ (- e))).

(** The longest [StrUnsignedDecimalLiteral] at the head of [s]. *)
Definition unsignedLiteral (s : string) : option float :=
  if String.prefix "Infinity" s then Some infinity
  else
    let '(i, ni, r1) := decimalDigits s 0 0 in
    let '(f, nf, r2) :=
      match r1 with
      | String "." r => decimalDigits r 0 0
      | _ => (0%Z, 0%Z, r1)
      end in
    if (ni =? 0)%Z && (nf =? 0)%Z then None
    else Some (decimal (i * 10 ^ nf + f) (exponentPart r2 - nf)).

Definition parseFloat (s : string) : float :=
  let t := trimStart s in
  let r :=
    match t with
    | String "-" u => option_map PrimFloat.opp (unsignedLiteral u)
    | String "+" u => unsignedLiteral u
    | _ => unsignedLiteral t
    end in
  match r with
  | Some x => x
  | None => nan
  end.

(** *** [Number(x.toFixed(2))] (ECMA-262, 21.1.3.3)

    [toFixed(2)] writes the integer [n] nearest to [100 * |x|], the larger
    one on a tie, as a decimal with two fraction digits and the sign of [x];
    [Number] reads it back.  NaN and the infinities, and values from 1e21
    on, are written in full and read back unchanged. *)
Definition Number_toFixed2 (x : float) : float :=
  match Prim2SF x with
  | S754_finite s m e =>
      if (of_Q 1e21 <=? abs x)%float then x
      else
        let n :=
          match e with
          | Zneg k => ((200 * Zpos m + 2 ^ Zpos k) / 2 ^ (Zpos k + 1))%Z
          | _ => (100 * Zpos m * 2 ^ e)%Z
          end in
        let r := of_Q (n # 100) in
        if s then (- r)%float else r
  | S754_zero _ => zero
  | _ => x
  end.

End Float64.


(** ** Engineering constants (BS 8110), [App.tsx] lines 5-12 *)

Section Constants.
Context {A : Type} `{Num A}.

Definition CONCRETE_DENSITY : A := num 24.
Definition SLAB_DL_UNIT : A := num 4.0.
Definition WALL_DL_UNIT : A := num 2.6.
Definition FY : A := num 460.
Definition COVER : A := num 25.
Definition GAMMA_G : A := num 1.4.
Definition GAMMA_Q : A := num 1.6.
End Constants.

(** ** Section design: flexure verdict, steel, bars, links

    The statements that follow the computation of [K] are the same in the
    three places where a beam is designed (beam suite lines 769-793 and
    803-827, residential form lines 177-201), up to the names of the locals
    and the three link labels.  [K] itself is computed by the caller, because
    the callers associate its denominator differently. *)

Module Kernel.

Record Labels : Set := {
  linksDefault : string;   (* initial value of [shearLinks] *)
  linksHigh : string;      (* chosen when [v > 0.4] *)
  linksLow : string        (* chosen otherwise *)
}.

Record SectionCheck (A : Type) : Type := {
  utilization : A;
  flexure : Status;        (* [status] as first assigned, from [K] alone *)
  status : Status;         (* [status] when the block is left *)
  asRequired : A;
  mainBar : string;
  topBar : string;
  shearLinks : string
}.
Arguments utilization {A} _.
Arguments flexure {A} _.
Arguments status {A} _.
Arguments asRequired {A} _.
Arguments mainBar {A} _.
Arguments topBar {A} _.
Arguments shearLinks {A} _.

Section Design.
Context {A : Type} `{Num A}.
Local Open Scope js_scope.

(** [let status = K <= 0.156 ? 'SAFE' : 'UNSAFE'] *)
Definition flexureStatus (K : A) : Status :=
  if K <=? num 0.156 then SAFE else UNSAFE.

(** The [if / else if] ladder on [asRequired]. *)
Definition selectMainBar (asRequired : A) : string :=
  if asRequired <? num 226 then "2T12 Bottom"
  else if asRequired <? num 402 then "2T16 Bottom"
  else if asRequired <? num 603 then "3T16 Bottom"
  else if asRequired <? num 942 then "3T20 Bottom"
  else "4T20 Bottom".

(** [const z = Math.min(d * (0.5 + Math.sqrt(0.25 - K / 0.9)), 0.95 * d)] *)
Definition leverArm (K d : A) : A :=
  Math_min (d * (num 0.5 + Math_sqrt (num 0.25 - K / num 0.9))) (num 0.95 * d).

(** [asRequired] after the two assignments of the SAFE branch. *)
Definition steelArea (K M b d h : A) : A :=
  let z := leverArm K d in
  let asRequired := (M * num 1e6) / (num 0.95 * FY * z) in
  let minAs := num 0.0013 * b * h in
  Math_max asRequired minAs.

(** [const v = (V * 1000) / (b * d)] *)
Definition shearStress (V b d : A) : A := (V * num 1000) / (b * d).

Definition sectionDesign (lbl : Labels) (K M V b d h fcu : A) : SectionCheck A :=
  let utilization := Math_min (num 100) (Math_round ((K / num 0.156) * num 100)) in
  match flexureStatus K with
  | SAFE =>
      let asRequired := steelArea K M b d h in
      let v := shearStress V b d in
      {| utilization := utilization;
         flexure := SAFE;
         status := if v >? num 0.8 * Math_sqrt fcu then UNSAFE else SAFE;
         asRequired := asRequired;
         mainBar := selectMainBar asRequired;
         topBar := "2T12 (Hangers)";
         shearLinks := if v >? num 0.4 then linksHigh lbl else linksLow lbl |}
  | UNSAFE =>
      {| utilization := utilization;
         flexure := UNSAFE;
         status := UNSAFE;
         asRequired := num 0;
         mainBar := "None";
         topBar := "2T12 (Hangers)";
         shearLinks := linksDefault lbl |}
  end.
End Design.

End Kernel.


(** ** The beam suite: [calculateDesign], [App.tsx] lines 731-881 *)

Module Suite.

(** The locals that hold parsed inputs: lines 732-744, and [b], [h] as they
    stand when the auto-sizing block of lines 754-757 is left. *)
Module V.
Record Locals (A : Type) : Type := {
  L : A;
  fcu : A;
  trib : A;
  wallH : A;
  LL : A;
  soil : A;
  colH : A;
  groundBeamL : A;
  groundBeamW : A;
  groundBeamH : A;
  groundBeamLoad : A;
  b : A;
  h : A
}.
Arguments L {A} _.
Arguments fcu {A} _.
Arguments trib {A} _.
Arguments wallH {A} _.
Arguments LL {A} _.
Arguments soil {A} _.
Arguments colH {A} _.
Arguments groundBeamL {A} _.
Arguments groundBeamW {A} _.
Arguments groundBeamH {A} _.
Arguments groundBeamLoad {A} _.
Arguments b {A} _.
Arguments h {A} _.
End V.

Section AutoSize.
Context {A : Type} `{Num A}.
Local Open Scope js_scope.

(** Line 755: [Math.max(300, Math.ceil((L * 1000 / 14) / 25) * 25)] *)
Definition autoDepth (L : A) : A :=
  Math_max (num 300) (Math_ceil ((L * num 1000 / num 14) / num 25) * num 25).

(** Line 756: [Math.max(150, Math.ceil((h / 2.5) / 25) * 25)] *)
Definition autoWidth (h : A) : A :=
  Math_max (num 150) (Math_ceil ((h / num 2.5) / num 25) * num 25).
End AutoSize.

(** The numeric body, lines 760-852. *)
Section Body.
Context {A : Type} `{Num A}.
Local Open Scope js_scope.
Variable p : V.Locals A.
Local Abbreviation L := (V.L p).
Local Abbreviation fcu := (V.fcu p).
Local Abbreviation trib := (V.trib p).
Local Abbreviation wallH := (V.wallH p).
Local Abbreviation LL := (V.LL p).
Local Abbreviation soil := (V.soil p).
Local Abbreviation colH := (V.colH p).
Local Abbreviation groundBeamL := (V.groundBeamL p).
Local Abbreviation groundBeamW := (V.groundBeamW p).
Local Abbreviation groundBeamH := (V.groundBeamH p).
Local Abbreviation groundBeamLoad := (V.groundBeamLoad p).
Local Abbreviation b := (V.b p).
Local Abbreviation h := (V.h p).

(** Lines 760-765: beam loads, midspan moment, end reaction. *)
Definition sw : A := (b / num 1000) * (h / num 1000) * CONCRETE_DENSITY.
Definition deadLoad : A := sw + (SLAB_DL_UNIT * trib) + (WALL_DL_UNIT * wallH).
Definition liveLoadTotal : A := LL * trib.
Definition totalUDL : A := (GAMMA_G * deadLoad) + (GAMMA_Q * liveLoadTotal).
Definition M : A := (totalUDL * L * L) / num 8.
Definition reaction : A := (totalUDL * L) / num 2.

(** Lines 767-768. *)
Definition d : A := h - COVER - num 8 - num 10.
Definition K : A := (M * num 1e6) / (b * Math_pow2 d * fcu).

Definition beamLabels : Kernel.Labels :=
  {| Kernel.linksDefault := "R6-250";
     Kernel.linksHigh := "R8 @ 175mm";
     Kernel.linksLow := "R6 @ 200mm" |}.

(** Lines 769-793, with [V = reaction]. *)
Definition beam : Kernel.SectionCheck A :=
  Kernel.sectionDesign beamLabels K M reaction b d h fcu.

(** Lines 796-802: the ground beam under its own load. *)
Definition groundBeamSw : A :=
  (groundBeamW / num 1000) * (groundBeamH / num 1000) * CONCRETE_DENSITY.
Definition groundBeamTotalUDL : A := groundBeamLoad + groundBeamSw.
Definition groundBeamM : A := (groundBeamTotalUDL * groundBeamL * groundBeamL) / num 8.
Definition groundBeamReaction : A := (groundBeamTotalUDL * groundBeamL) / num 2.
Definition groundBeamD : A := groundBeamH - COVER - num 8 - num 10.
Definition groundBeamK : A :=
  (groundBeamM * num 1e6) / (groundBeamW * Math_pow2 groundBeamD * fcu).

(** Lines 803-827, with [V = groundBeamReaction]. *)
Definition groundBeam : Kernel.SectionCheck A :=
  Kernel.sectionDesign beamLabels groundBeamK groundBeamM groundBeamReaction
    groundBeamW groundBeamD groundBeamH fcu.

(** Lines 830-835: the 200 mm column. *)
Definition axialLoad : A :=
  reaction + (num 0.2 * num 0.2 * colH * num 24 * num 1.4).
Definition colSize : A := num 200.
Definition ac : A := colSize * colSize.
Definition asc : A := ac * num 0.008.
Definition colCapacity : A :=
  (num 0.35 * fcu * ac + num 0.67 * FY * asc) / num 1000.
Definition colStatus : Status :=
  if axialLoad <? colCapacity then SAFE else UNSAFE.

(** Lines 838-848: footing side and steel. *)
Definition footingArea : A := axialLoad / soil.
Definition footingSize : A := Math_ceil (Math_sqrt footingArea * num 10) / num 10.
Definition footingP : A := axialLoad / (footingSize * footingSize).
Definition cantL : A := (footingSize - (colSize / num 1000)) / num 2.
Definition footingM : A := (footingP * Math_pow2 cantL) / num 2.
Definition footingD : A := num 300 - num 50.
Definition footingAs : A :=
  (footingM * num 1e6) / (num 0.95 * FY * (num 0.95 * footingD)).
Definition footingMinAs : A := num 0.0013 * num 1000 * num 300.
Definition finalFootingAs : A := Math_max footingAs footingMinAs.

(** Lines 850-852: three assignments in sequence, the last one that fires
    wins. *)
Definition footingSteel : string :=
  let s0 := "T12 @ 250mm B1/B2" in
  let s1 := if finalFootingAs >? num 452 then "T12 @ 200mm B1/B2" else s0 in
  if finalFootingAs >? num 600 then "T12 @ 150mm B1/B2" else s1.

End Body.

(** The interface [DesignInput], lines 653-667: the text of the form
    fields. *)
Module DesignInput.
Record t : Set := {
  span : string;
  width : string;
  depth : string;
  fcu : string;
  tributaryWidth : string;
  wallHeight : string;
  liveLoad : string;
  colHeight : string;
  soilCapacity : string;
  groundBeamSpan : string;
  groundBeamWidth : string;
  groundBeamDepth : string;
  groundBeamLoad : string
}.
End DesignInput.

(** The interface [DesignResult], lines 669-695.  Its [status] field also
    admits ['IDLE'], which [calculateDesign] never assigns. *)
Module DesignResult.
Record t : Set := {
  width : float;
  depth : float;
  totalUDL : float;
  moment : float;
  reaction : float;
  asRequired : float;
  mainBar : string;
  topBar : string;
  shearLinks : string;
  status : Status;
  utilization : float;
  colSize : float;
  colStatus : Status;
  footingSize : float;
  footingSteel : string;
  groundBeamWidth : float;
  groundBeamDepth : float;
  groundBeamMoment : float;
  groundBeamAsRequired : float;
  groundBeamMainBar : string;
  groundBeamTopBar : string;
  groundBeamShearLinks : string;
  groundBeamStatus : Status;
  groundBeamUtilization : float
}.
End DesignResult.

Import Float64.

(** Line 746: [!L || isNaN(L) || L <= 0]. *)
Definition spanRejected (L : float) : bool :=
  negb (truthy L) || is_nan L || (L <=? 0)%float.

(** Lines 732-744 and 751-757: the parsed inputs. *)
Definition parse (inputs : DesignInput.t) : V.Locals float :=
  let L := parseFloat (DesignInput.span inputs) in
  let fcu := parseFloat (DesignInput.fcu inputs) in
  let trib := parseFloat (orString (DesignInput.tributaryWidth inputs) "0") in
  let wallH := parseFloat (orString (DesignInput.wallHeight inputs) "0") in
  let LL := parseFloat (orString (DesignInput.liveLoad inputs) "1.5") in
  let soil := parseFloat (orString (DesignInput.soilCapacity inputs) "150") in
  let colH := parseFloat (orString (DesignInput.colHeight inputs) "3.0") in
  let groundBeamL := parseFloat (orString (DesignInput.groundBeamSpan inputs) "3.0") in
  let groundBeamW := parseFloat (orString (DesignInput.groundBeamWidth inputs) "200") in
  let groundBeamH := parseFloat (orString (DesignInput.groundBeamDepth inputs) "350") in
  let groundBeamLoad := parseFloat (orString (DesignInput.groundBeamLoad inputs) "10.0") in
  let b := parseFloat (DesignInput.width inputs) in
  let h := parseFloat (DesignInput.depth inputs) in
  let auto := negb (truthy b) || negb (truthy h) in
  let h := if auto then orNumber h (autoDepth L) else h in
  let b := if auto then orNumber b (autoWidth h) else b in
  {| V.L := L; V.fcu := fcu; V.trib := trib; V.wallH := wallH; V.LL := LL;
     V.soil := soil; V.colH := colH; V.groundBeamL := groundBeamL;
     V.groundBeamW := groundBeamW; V.groundBeamH := groundBeamH;
     V.groundBeamLoad := groundBeamLoad; V.b := b; V.h := h |}.

(** Lines 854-880: the object handed to [setResult]. *)
Definition result (p : V.Locals float) : DesignResult.t :=
  {| DesignResult.width := V.b p;
     DesignResult.depth := V.h p;
     DesignResult.totalUDL := Number_toFixed2 (totalUDL p);
     DesignResult.moment := Number_toFixed2 (M p);
     DesignResult.reaction := Number_toFixed2 (reaction p);
     DesignResult.asRequired := Math_round (Kernel.asRequired (beam p));
     DesignResult.mainBar := Kernel.mainBar (beam p);
     DesignResult.topBar := Kernel.topBar (beam p);
     DesignResult.shearLinks := Kernel.shearLinks (beam p);
     DesignResult.status := Kernel.status (beam p);
     DesignResult.utilization := Kernel.utilization (beam p);
     DesignResult.colSize := colSize;
     DesignResult.colStatus := colStatus p;
     DesignResult.footingSize := footingSize p;
     DesignResult.footingSteel := footingSteel p;
     DesignResult.groundBeamWidth := V.groundBeamW p;
     DesignResult.groundBeamDepth := V.groundBeamH p;
     DesignResult.groundBeamMoment := Number_toFixed2 (groundBeamM p);
     DesignResult.groundBeamAsRequired := Math_round (Kernel.asRequired (groundBeam p));
     DesignResult.groundBeamMainBar := Kernel.mainBar (groundBeam p);
     DesignResult.groundBeamTopBar := Kernel.topBar (groundBeam p);
     DesignResult.groundBeamShearLinks := Kernel.shearLinks (groundBeam p);
     DesignResult.groundBeamStatus := Kernel.status (groundBeam p);
     DesignResult.groundBeamUtilization := Kernel.utilization (groundBeam p) |}.

(** [calculateDesign]: [None] is [setResult(null)], [Some r] is
    [setResult(r)]. *)
Definition calculateDesign (inputs : DesignInput.t) : option DesignResult.t :=
  let p := parse inputs in
  if spanRejected (V.L p) then None else Some (result p).

End Suite.


(** ** The residential form: [calculateDesign], [App.tsx] lines 92-232 *)

Module Residential.

(** The locals of lines 94-101, defaults applied. *)
Module V.
Record Locals (A : Type) : Type := {
  colWidth : A;
  colLength : A;
  colHeight : A;
  colSpacing : A;
  colLoad : A;
  soilCapacity : A;
  fcu : A;
  groundBeamL : A
}.
Arguments colWidth {A} _.
Arguments colLength {A} _.
Arguments colHeight {A} _.
Arguments colSpacing {A} _.
Arguments colLoad {A} _.
Arguments soilCapacity {A} _.
Arguments fcu {A} _.
Arguments groundBeamL {A} _.
End V.

(** The numeric body, lines 109-201. *)
Section Body.
Context {A : Type} `{Num A}.
Local Open Scope js_scope.
Variable p : V.Locals A.
Local Abbreviation colWidth := (V.colWidth p).
Local Abbreviation colLength := (V.colLength p).
Local Abbreviation colHeight := (V.colHeight p).
Local Abbreviation colSpacing := (V.colSpacing p).
Local Abbreviation colLoad := (V.colLoad p).
Local Abbreviation soilCapacity := (V.soilCapacity p).
Local Abbreviation fcu := (V.fcu p).
Local Abbreviation groundBeamL := (V.groundBeamL p).

(** Lines 109-123: column verification (design strengths, 1% steel). *)
Definition colArea : A := colWidth * colLength.
Definition steelRatio : A := num 0.01.
Definition steelArea : A := colArea * steelRatio.
Definition concreteArea : A := colArea * (num 1 - steelRatio).
Definition fcd : A := (num 0.67 * fcu) / num 1.5.
Definition fyd : A := FY / num 1.15.
Definition colCapacity : A :=
  (num 0.4 * fcd * concreteArea + num 0.87 * fyd * steelArea) / num 1000.
Definition colStatus : Status :=
  if colLoad <? colCapacity then SAFE else UNSAFE.

(** Lines 127-132: footing side and bearing check. *)
Definition requiredFootingArea : A := colLoad / soilCapacity.
Definition footingSize : A :=
  Math_ceil (Math_sqrt requiredFootingArea * num 10) / num 10.
Definition actualBearingPressure : A := colLoad / (footingSize * footingSize).
Definition footingStatus : Status :=
  if actualBearingPressure <=? soilCapacity then SAFE else UNSAFE.

(** Lines 135-153: footing thickness and steel per metre. *)
Definition footingThickness : A :=
  Math_max (num 300) (Math_ceil (Math_max colWidth colLength / num 2)).
Definition maxColDim : A := Math_max colWidth colLength.
Definition cantileverLength : A := (footingSize * num 1000 - maxColDim) / num 2.
Definition ulsLoad : A := colLoad * num 1.4.
Definition ulsPressure : A := ulsLoad / (footingSize * footingSize).
Definition momentAtFace : A :=
  (ulsPressure * cantileverLength * cantileverLength) / (num 2 * num 1e6).
Definition effectiveDepth : A := footingThickness - num 75.
Definition k : A :=
  (momentAtFace * num 1e6) / (num 1000 * effectiveDepth * effectiveDepth * fcu).
Definition z : A :=
  effectiveDepth * Math_min (num 0.5 + Math_sqrt (num 0.25 - k / num 0.9)) (num 0.95).
Definition steelAreaReq : A := (momentAtFace * num 1e6) / (num 0.95 * FY * z).
Definition minSteelArea : A := num 0.0013 * num 1000 * footingThickness.
Definition finalSteelArea : A := Math_max steelAreaReq minSteelArea.

(** Lines 156-160: five assignments in sequence, the last one that fires
    wins. *)
Definition footingSteel : string :=
  let s0 := "T12 @ 250mm" in
  let s1 := if finalSteelArea >? num 452 then "T12 @ 200mm" else s0 in
  let s2 := if finalSteelArea >? num 565 then "T16 @ 250mm" else s1 in
  let s3 := if finalSteelArea >? num 804 then "T16 @ 200mm" else s2 in
  if finalSteelArea >? num 1005 then "T20 @ 250mm" else s3.

(** Lines 164-176: ground beam from the column load. *)
Definition estimatedLoad : A := colLoad / colSpacing.
Definition groundBeamWidth : A :=
  Math_max (num 200) (Math_max colWidth colLength * num 0.8).
Definition groundBeamDepth : A :=
  Math_max (num 300) (Math_min (num 600) (Math_ceil (groundBeamL * num 1000 / num 12))).
Definition groundBeamM : A := (estimatedLoad * groundBeamL * groundBeamL) / num 8.
Definition groundBeamV : A := (estimatedLoad * groundBeamL) / num 2.
Definition d : A := groundBeamDepth - num 50.
Definition k_beam : A :=
  (groundBeamM * num 1e6) / (groundBeamWidth * d * d * fcu).

Definition groundBeamLabels : Kernel.Labels :=
  {| Kernel.linksDefault := "R8-250";
     Kernel.linksHigh := "R10 @ 175mm";
     Kernel.linksLow := "R8 @ 200mm" |}.

(** Lines 177-201, with [V = groundBeamV]. *)
Definition groundBeam : Kernel.SectionCheck A :=
  Kernel.sectionDesign groundBeamLabels k_beam groundBeamM groundBeamV
    groundBeamWidth d groundBeamDepth fcu.

End Body.

(** The interface [DesignInput], lines 14-31. *)
Module DesignInput.
Record t : Set := {
  colWidth : string;
  colLength : string;
  colHeight : string;
  colSpacing : string;
  colLoad : string;
  soilCapacity : string;
  fcu : string;
  groundBeamSpan : string
}.
End DesignInput.

(** The interface [DesignResult], lines 33-61. *)
Module DesignResult.
Record t : Set := {
  colSize : float;
  colLoad : float;
  colCapacity : float;
  colStatus : Status;
  footingSize : float;
  footingThickness : float;
  footingSteel : string;
  footingStatus : Status;
  groundBeamWidth : float;
  groundBeamDepth : float;
  groundBeamMoment : float;
  groundBeamShear : float;
  groundBeamAsRequired : float;
  groundBeamMainBar : string;
  groundBeamTopBar : string;
  groundBeamShearLinks : string;
  groundBeamStatus : Status;
  groundBeamUtilization : float;
  bearingPressure : float;
  requiredFootingArea : float
}.
End DesignResult.

Import Float64.

(** Lines 94-101: [parseFloat(inputs.x) || default]. *)
Definition parse (inputs : DesignInput.t) : V.Locals float :=
  {| V.colWidth := orNumber (parseFloat (DesignInput.colWidth inputs)) (num 200);
     V.colLength := orNumber (parseFloat (DesignInput.colLength inputs)) (num 200);
     V.colHeight := orNumber (parseFloat (DesignInput.colHeight inputs)) (num 3000);
     V.colSpacing := orNumber (parseFloat (DesignInput.colSpacing inputs)) (num 4.0);
     V.colLoad := orNumber (parseFloat (DesignInput.colLoad inputs)) (num 500);
     V.soilCapacity := orNumber (parseFloat (DesignInput.soilCapacity inputs)) (num 150);
     V.fcu := orNumber (parseFloat (DesignInput.fcu inputs)) (num 25);
     V.groundBeamL := orNumber (parseFloat (DesignInput.groundBeamSpan inputs)) (num 4.0) |}.

(** Line 103: [!colWidth || !colLength || !colLoad || !soilCapacity]. *)
Definition inputsRejected (p : V.Locals float) : bool :=
  negb (truthy (V.colWidth p)) || negb (truthy (V.colLength p))
  || negb (truthy (V.colLoad p)) || negb (truthy (V.soilCapacity p)).

(** Lines 203-231: the object handed to [setResult]. *)
Definition result (p : V.Locals float) : DesignResult.t :=
  {| DesignResult.colSize := Math_max (V.colWidth p) (V.colLength p);
     DesignResult.colLoad := V.colLoad p;
     DesignResult.colCapacity := Number_toFixed2 (colCapacity p);
     DesignResult.colStatus := colStatus p;
     DesignResult.footingSize := Number_toFixed2 (footingSize p);
     DesignResult.footingThickness := footingThickness p;
     DesignResult.footingSteel := footingSteel p;
     DesignResult.footingStatus := footingStatus p;
     DesignResult.groundBeamWidth := groundBeamWidth p;
     DesignResult.groundBeamDepth := groundBeamDepth p;
     DesignResult.groundBeamMoment := Number_toFixed2 (groundBeamM p);
     DesignResult.groundBeamShear := Number_toFixed2 (groundBeamV p);
     DesignResult.groundBeamAsRequired := Math_round (Kernel.asRequired (groundBeam p));
     DesignResult.groundBeamMainBar := Kernel.mainBar (groundBeam p);
     DesignResult.groundBeamTopBar := Kernel.topBar (groundBeam p);
     DesignResult.groundBeamShearLinks := Kernel.shearLinks (groundBeam p);
     DesignResult.groundBeamStatus := Kernel.status (groundBeam p);
     DesignResult.groundBeamUtilization := Kernel.utilization (groundBeam p);
     DesignResult.bearingPressure := Number_toFixed2 (actualBearingPressure p);
     DesignResult.requiredFootingArea := Number_toFixed2 (requiredFootingArea p) |}.

Definition calculateDesign (inputs : DesignInput.t) : option DesignResult.t :=
  let p := parse inputs in
  if inputsRejected p then None else Some (result p).

End Residential.


(** ** Form states used in the examples *)

Module Samples.

(** The initial form of the beam suite (lines 700-714), with the beam
    fields to choose. *)
Definition suiteForm (span width depth fcu tributaryWidth : string) : Suite.DesignInput.t :=
  {| Suite.DesignInput.span := span;
     Suite.DesignInput.width := width;
     Suite.DesignInput.depth := depth;
     Suite.DesignInput.fcu := fcu;
     Suite.DesignInput.tributaryWidth := tributaryWidth;
     Suite.DesignInput.wallHeight := "3.0";
     Suite.DesignInput.liveLoad := "1.5";
     Suite.DesignInput.colHeight := "3.0";
     Suite.DesignInput.soilCapacity := "150";
     Suite.DesignInput.groundBeamSpan := "3.0";
     Suite.DesignInput.groundBeamWidth := "200";
     Suite.DesignInput.groundBeamDepth := "350";
     Suite.DesignInput.groundBeamLoad := "10.0" |}.

Definition suiteDefaults : Suite.DesignInput.t := suiteForm "4.0" "150" "450" "25" "3.0".

(** The initial form of the residential component (lines 67-75), with the
    column load and the soil capacity to choose. *)
Definition residentialForm (colLoad soilCapacity : string) : Residential.DesignInput.t :=
  {| Residential.DesignInput.colWidth := "200";
     Residential.DesignInput.colLength := "200";
     Residential.DesignInput.colHeight := "3000";
     Residential.DesignInput.colSpacing := "4.0";
     Residential.DesignInput.colLoad := colLoad;
     Residential.DesignInput.soilCapacity := soilCapacity;
     Residential.DesignInput.fcu := "25";
     Residential.DesignInput.groundBeamSpan := "4.0" |}.

Definition residentialDefaults : Residential.DesignInput.t := residentialForm "500" "150".

End Samples.

(** ** Reading binary64 numbers as real numbers

    The vocabulary of the rounding lemmas: the value of a mantissa and
    exponent, where a real number sits in the cell above it, and the shape
    of a rounded result. *)

Module Rounding.
Local Open Scope R_scope.

(** [2^e] as a real number. *)
Definition bpow (e : Z) : R := powerRZ 2 e.

(** [x] lies in the cell [[m * 2^e, (m + 1) * 2^e)], at the place [l] says:
    on its lower end, below, at or above its middle. *)
Definition loc_ok (m e : Z) (l : location) (x : R) : Prop :=
  match l with
  | loc_Exact => x = IZR m * bpow e
  | loc_Inexact Lt => IZR m * bpow e < x /\ 2 * x < (2 * IZR m + 1) * bpow e
  | loc_Inexact Eq => 2 * x = (2 * IZR m + 1) * bpow e
  | loc_Inexact Gt => (2 * IZR m + 1) * bpow e < 2 * x /\ x < (IZR m + 1) * bpow e
  end.

(** The non-negative number of mantissa [m] and exponent [e], +infinity
    when the exponent is out of range. *)
Definition fin (m e : Z) : spec_float :=
  match m with
  | Z0 => S754_zero false
  | Zpos p => if (e <=? emax - prec)%Z then S754_finite false p e else S754_infinity false
  | Zneg _ => S754_nan
  end.

(** The same after the carry of a mantissa rounded up to [2^53]. *)
Definition out (m c : Z) : spec_float :=
  if (m =? 2 ^ 53)%Z then fin (2 ^ 52) (c + 1) else fin m c.

(** The last step of [binary_round_aux] for a non-negative number. *)
Definition finish (mrs : shr_record) (e : Z) : spec_float :=
  match shr_m mrs with
  | Z0 => S754_zero false
  | Zpos m => if (e <=? emax - prec)%Z then S754_finite false m e else S754_infinity false
  | Zneg _ => S754_nan
  end.

(** The value of a finite number without its sign; 0 for the zeros. *)
Definition val (f : spec_float) : R :=
  match f with
  | S754_finite _ m e => IZR (Zpos m) * bpow e
  | _ => 0
  end.

(** Non-negative numbers: +0, the positive finite numbers, +infinity. *)
Definition nns (f : spec_float) : Prop :=
  match f with
  | S754_zero false | S754_infinity false | S754_finite false _ _ => True
  | _ => False
  end.

Definition nn (f : spec_float) : Prop := nns f /\ valid_binary f = true.

End Rounding.

(** ** The form state: [handleInputChange], the stored inputs

    [localStorage] is a map from keys to strings.  [JSON.stringify] and
    [JSON.parse] are left open: the properties proved of the stored inputs
    hold whatever they compute, [JSON.parse] throwing included ([None]). *)

Module Storage.
Definition t : Type := string -> option string.

(** [localStorage.getItem(key)]: [null] when there is no such item. *)
Definition getItem (key : string) (s : t) : option string := s key.

(** [localStorage.setItem(key, value)] *)
Definition setItem (key value : string) (s : t) : t :=
  fun k => if String.eqb k key then Some value else s k.

(** Truthiness of the value of [getItem]: [null] and the empty string are
    falsy. *)
Definition truthyItem (saved : option string) : bool :=
  match saved with
  | Some (String _ _) => true
  | _ => false
  end.
End Storage.

(** The beam suite, [App.tsx] lines 698-729. *)
Module SuiteState.
Import Suite.DesignInput.

(** Lines 726-729: [setInputs(prev => ({ ...prev, [name]: value }))], read
    on the fields of [DesignInput]. *)
Definition handleInputChange (name value : string) (prev : Suite.DesignInput.t)
  : Suite.DesignInput.t :=
  let upd (field : string) (old : string) : string :=
    if String.eqb name field then value else old in
  {| span := upd "span" (span prev);
     width := upd "width" (width prev);
     depth := upd "depth" (depth prev);
     fcu := upd "fcu" (fcu prev);
     tributaryWidth := upd "tributaryWidth" (tributaryWidth prev);
     wallHeight := upd "wallHeight" (wallHeight prev);
     liveLoad := upd "liveLoad" (liveLoad prev);
     colHeight := upd "colHeight" (colHeight prev);
     soilCapacity := upd "soilCapacity" (soilCapacity prev);
     groundBeamSpan := upd "groundBeamSpan" (groundBeamSpan prev);
     groundBeamWidth := upd "groundBeamWidth" (groundBeamWidth prev);
     groundBeamDepth := upd "groundBeamDepth" (groundBeamDepth prev);
     groundBeamLoad := upd "groundBeamLoad" (groundBeamLoad prev) |}.

Section Persistence.
Variable JSON_parse : string -> option Suite.DesignInput.t.
Variable JSON_stringify : Suite.DesignInput.t -> string.

(** Lines 698-715: the initializer of [useState]; [None] when [JSON.parse]
    throws. *)
Definition initialInputs (s : Storage.t) : option Suite.DesignInput.t :=
  let saved := Storage.getItem "beamsafe_pro_inputs_v3" s in
  if Storage.truthyItem saved
  then match saved with Some text => JSON_parse text | None => None end
  else Some Samples.suiteDefaults.

(** Lines 722-724: the effect run whenever [inputs] changes. *)
Definition saveInputs (inputs : Suite.DesignInput.t) (s : Storage.t) : Storage.t :=
  Storage.setItem "beamsafe_pro_inputs_v3" (JSON_stringify inputs) s.
End Persistence.
End SuiteState.

(** The residential form, [App.tsx] lines 64-90. *)
Module ResidentialState.
Import Residential.DesignInput.

(** Lines 87-90. *)
Definition handleInputChange (name value : string) (prev : Residential.DesignInput.t)
  : Residential.DesignInput.t :=
  let upd (field : string) (old : string) : string :=
    if String.eqb name field then value else old in
  {| colWidth := upd "colWidth" (colWidth prev);
     colLength := upd "colLength" (colLength prev);
     colHeight := upd "colHeight" (colHeight prev);
     colSpacing := upd "colSpacing" (colSpacing prev);
     colLoad := upd "colLoad" (colLoad prev);
     soilCapacity := upd "soilCapacity" (soilCapacity prev);
     fcu := upd "fcu" (fcu prev);
     groundBeamSpan := upd "groundBeamSpan" (groundBeamSpan prev) |}.

Section Persistence.
Variable JSON_parse : string -> option Residential.DesignInput.t.
Variable JSON_stringify : Residential.DesignInput.t -> string.

(** Lines 64-76: the initializer reads the item [beamsafe_pro_inputs_v5]. *)
Definition initialInputs (s : Storage.t) : option Residential.DesignInput.t :=
  let saved := Storage.getItem "beamsafe_pro_inputs_v5" s in
  if Storage.truthyItem saved
  then match saved with Some text => JSON_parse text | None => None end
  else Some Samples.residentialDefaults.

(** Lines 83-85: the effect writes the item [beamsafe_pro_inputs_v3]. *)
Definition saveInputs (inputs : Residential.DesignInput.t) (s : Storage.t) : Storage.t :=
  Storage.setItem "beamsafe_pro_inputs_v3" (JSON_stringify inputs) s.
End Persistence.
End ResidentialState.

(** ** The sketch: [StructuralSVG]

    The component computes the sizes of the rectangles it draws in a view
    box of 240 by 240 from the result; the rest of it is fixed markup.  The
    variables of the sections below are the fields of [result] it reads. *)

Module Sketch.

Record Rect (A : Type) : Type := {
  x : A;
  y : A;
  width : A;
  height : A
}.
Arguments x {A} _.
Arguments y {A} _.
Arguments width {A} _.
Arguments height {A} _.

(** The residential form, [App.tsx] lines 589-636. *)
Module Residential.
Section Sizes.
Context {A : Type} `{Num A}.
Local Open Scope js_scope.
Variables colSize footingSize groundBeamWidth groundBeamDepth : A.

Definition colW : A := Math_min (num 40) ((colSize / num 200) * num 40).
Definition footingW : A := footingSize * num 45.
Definition footingH : A := num 15.
Definition groundBeamW : A := Math_min (num 180) ((groundBeamWidth / num 300) * num 180).
Definition groundBeamH : A := Math_min (num 40) ((groundBeamDepth / num 400) * num 40).

Definition footingRect : Rect A :=
  {| x := num 120 - footingW / num 2; y := num 210;
     width := footingW; height := footingH |}.
Definition columnRect : Rect A :=
  {| x := num 120 - colW / num 2; y := num 105;
     width := colW; height := num 105 |}.
Definition groundBeamRect : Rect A :=
  {| x := num 120 - groundBeamW / num 2; y := num 210 - footingH - groundBeamH;
     width := groundBeamW; height := groundBeamH |}.
End Sizes.
End Residential.

(** The beam suite, [App.tsx] lines 1108-1149 (again at lines 1775-1816). *)
Module Suite.
Section Sizes.
Context {A : Type} `{Num A}.
Local Open Scope js_scope.
Variables footingSize groundBeamWidth groundBeamDepth : A.

Definition beamH : A := num 35.
Definition colW : A := num 25.
Definition footingW : A := footingSize * num 45.
Definition footingH : A := num 12.
Definition groundBeamW : A := Math_min (num 180) ((groundBeamWidth / num 300) * num 180).
Definition groundBeamH : A := Math_min (num 40) ((groundBeamDepth / num 400) * num 40).

Definition footingRect : Rect A :=
  {| x := num 120 - footingW / num 2; y := num 210;
     width := footingW; height := footingH |}.
Definition columnRect : Rect A :=
  {| x := num 120 - colW / num 2; y := num 105;
     width := colW; height := num 105 |}.
Definition beamRect : Rect A :=
  {| x := num 30; y := num 105 - beamH; width := num 180; height := beamH |}.
Definition groundBeamRect : Rect A :=
  {| x := num 120 - groundBeamW / num 2; y := num 210 - footingH - groundBeamH;
     width := groundBeamW; height := groundBeamH |}.
End Sizes.
End Suite.

End Sketch.


(** * Properties *)

(** ** Order facts of binary64 *)

Module Float64Facts.
Import Float64.

Lemma SFcompare_antisym (x y : spec_float) (c : comparison) :
  SFcompare x y = Some c -> SFcompare y x = Some (CompOpp c).
Proof.
  destruct x as [sx|sx| |sx mx ex], y as [sy|sy| |sy my ey]; simpl;
    try discriminate;
    try (destruct sx; intros [= <-]; reflexivity);
    try (destruct sy; intros [= <-]; reflexivity);
    try (intros [= <-]; reflexivity).
  - destruct sx, sy; intros [= <-]; reflexivity.
  - destruct sx, sy; intros [= <-]; try reflexivity;
      rewrite (Z.compare_antisym ex ey);
      destruct (ex ?= ey)%Z; simpl; try reflexivity;
      rewrite (Pos.compare_cont_antisym mx my Eq); simpl;
      destruct (Pos.compare_cont Eq mx my); reflexivity.
Qed.

Lemma SFcompare_refl_not_Lt (x : spec_float) : SFcompare x x <> Some Lt.
Proof.
  intros E. pose proof (SFcompare_antisym _ _ _ E) as E'.
  rewrite E in E'. discriminate.
Qed.

(** [x < x] is false for every number, NaN included. *)
Lemma ltb_irrefl (x : float) : (x <? x)%float = false.
Proof.
  rewrite ltb_spec. unfold SFltb.
  pose proof (SFcompare_refl_not_Lt (Prim2SF x)) as N.
  destruct (SFcompare (Prim2SF x) (Prim2SF x)) as [[ | | ]|]; congruence.
Qed.


(** When [x < y] holds, so does [x <= y]. *)
Lemma ltb_leb (x y : float) : (x <? y)%float = true -> (x <=? y)%float = true.
Proof.
  rewrite leb_spec, ltb_spec. unfold SFleb, SFltb.
  destruct (SFcompare (Prim2SF x) (Prim2SF y)) as [[ | | ]|]; congruence.
Qed.

Ltac split_compare :=
  repeat match goal with
    | H : context [Z.compare ?a ?b] |- _ => destruct (Z.compare_spec a b)
    | |- context [Z.compare ?a ?b] => destruct (Z.compare_spec a b)
    | H : context [Pos.compare ?a ?b] |- _ => destruct (Pos.compare_spec a b)
    | |- context [Pos.compare ?a ?b] => destruct (Pos.compare_spec a b)
    end.

Lemma SFleb_trans (x y z : spec_float) :
  SFleb x y = true -> SFleb y z = true -> SFleb x z = true.
Proof.
  unfold SFleb.
  destruct x as [[|]|[|]| |[|] mx ex], y as [[|]|[|]| |[|] my ey],
           z as [[|]|[|]| |[|] mz ez]; simpl; try congruence;
    change (Pos.compare_cont Eq) with Pos.compare;
    intros H1 H2; split_compare; simpl in *; subst; try congruence; try lia.
Qed.

(** [<=] is transitive on binary64. *)
Lemma leb_trans (x y z : float) :
  (x <=? y)%float = true -> (y <=? z)%float = true -> (x <=? z)%float = true.
Proof. rewrite !leb_spec. apply SFleb_trans. Qed.

(** [parseFloat] skips the white space beyond ASCII as it skips a blank: a
    no-break space (U+00A0), a line separator (U+2028) and a byte order
    mark (U+FEFF) before the digits. *)
Lemma parseFloat_skips_white_space :
  let bytes := fun l : list N => string_of_list_ascii (map ascii_of_N l) in
  parseFloat (" " ++ bytes [194; 160] ++ bytes [226; 128; 168] ++ bytes [239; 187; 191]
              ++ "4.5")%string%N
  = of_Q 4.5.
Proof. vm_compute. reflexivity. Qed.

End Float64Facts.

(** ** The section design, for any arithmetic *)

Module KernelFacts.
Import Kernel.

Section Generic.
Context {A : Type} `{Num A}.
Local Open Scope js_scope.
Variables (lbl : Labels) (K M V b d h fcu : A).

Lemma flexureStatus_SAFE : flexureStatus K = SAFE <-> (K <=? num 0.156) = true.
Proof. unfold flexureStatus. destruct (K <=? num 0.156); split; congruence. Qed.

Lemma flexureStatus_UNSAFE : flexureStatus K = UNSAFE <-> (K <=? num 0.156) = false.
Proof. unfold flexureStatus. destruct (K <=? num 0.156); split; congruence. Qed.

Lemma flexure_sectionDesign :
  flexure (sectionDesign lbl K M V b d h fcu) = flexureStatus K.
Proof. unfold sectionDesign. destruct (flexureStatus K); reflexivity. Qed.

(** The block when the flexural verdict is SAFE. *)
Lemma sectionDesign_SAFE :
  flexureStatus K = SAFE ->
  sectionDesign lbl K M V b d h fcu =
  {| utilization := Math_min (num 100) (Math_round ((K / num 0.156) * num 100));
     flexure := SAFE;
     status := if shearStress V b d >? num 0.8 * Math_sqrt fcu then UNSAFE else SAFE;
     asRequired := steelArea K M b d h;
     mainBar := selectMainBar (steelArea K M b d h);
     topBar := "2T12 (Hangers)";
     shearLinks := if shearStress V b d >? num 0.4 then linksHigh lbl else linksLow lbl |}.
Proof. unfold sectionDesign. intros ->. reflexivity. Qed.

(** The block when it is UNSAFE: nothing after the verdict is computed. *)
Lemma sectionDesign_UNSAFE :
  flexureStatus K = UNSAFE ->
  sectionDesign lbl K M V b d h fcu =
  {| utilization := Math_min (num 100) (Math_round ((K / num 0.156) * num 100));
     flexure := UNSAFE;
     status := UNSAFE;
     asRequired := num 0;
     mainBar := "None";
     topBar := "2T12 (Hangers)";
     shearLinks := linksDefault lbl |}.
Proof. unfold sectionDesign. intros ->. reflexivity. Qed.

Lemma selectMainBar_not_None (a : A) : selectMainBar a <> "None".
Proof.
  unfold selectMainBar.
  destruct (a <? num 226); [discriminate|].
  destruct (a <? num 402); [discriminate|].
  destruct (a <? num 603); [discriminate|].
  destruct (a <? num 942); discriminate.
Qed.

End Generic.

End KernelFacts.

(** ** The claims on the section design *)

Section SectionDesignClaims.
Import Kernel KernelFacts Float64 Float64Facts.
Local Open Scope js_scope.

(** C1.  The factor [K] is [M * 1e6 / (b * d^2 * fcu)] at each of the three
    places where a beam is designed, and the flexural verdict is SAFE exactly
    when [K <= 0.156]; a [K] equal to 0.156 gives SAFE. *)
Theorem flexure_SAFE_iff_K_le_0_156 :
  forall (p : Suite.V.Locals float) (q : Residential.V.Locals float),
    (Suite.K p =
       (Suite.M p * num 1e6) / (Suite.V.b p * (Suite.d p * Suite.d p) * Suite.V.fcu p)
     /\ (flexure (Suite.beam p) = SAFE <-> (Suite.K p <=? num 0.156) = true)
     /\ (Suite.K p = num 0.156 -> flexure (Suite.beam p) = SAFE))
    /\
    (Suite.groundBeamK p =
       (Suite.groundBeamM p * num 1e6) /
       (Suite.V.groundBeamW p * (Suite.groundBeamD p * Suite.groundBeamD p) * Suite.V.fcu p)
     /\ (flexure (Suite.groundBeam p) = SAFE <-> (Suite.groundBeamK p <=? num 0.156) = true)
     /\ (Suite.groundBeamK p = num 0.156 -> flexure (Suite.groundBeam p) = SAFE))
    /\
    (Residential.k_beam q =
       (Residential.groundBeamM q * num 1e6) /
       (Residential.groundBeamWidth q * Residential.d q * Residential.d q * Residential.V.fcu q)
     /\ (flexure (Residential.groundBeam q) = SAFE <-> (Residential.k_beam q <=? num 0.156) = true)
     /\ (Residential.k_beam q = num 0.156 -> flexure (Residential.groundBeam q) = SAFE)).
Proof.
  intros p q.
  assert (B : forall lbl K M V b d h fcu,
             K = num 0.156 -> flexure (sectionDesign lbl K M V b d h fcu) = SAFE).
  { intros lbl K M V b d h fcu ->. rewrite flexure_sectionDesign.
    apply flexureStatus_SAFE. vm_compute. reflexivity. }
  unfold Suite.beam, Suite.groundBeam, Residential.groundBeam.
  repeat split; try reflexivity;
    try (rewrite flexure_sectionDesign; apply flexureStatus_SAFE);
    try (intros E; rewrite flexure_sectionDesign in E; apply flexureStatus_SAFE in E; exact E);
    try (apply B).
Qed.

(** A form that lands on the boundary: span 4.0 m, 250 x 500 mm, fcu 25,
    tributary width 10.8367359375 m give [K = 0.156] and a SAFE beam. *)
Lemma flexure_boundary_form :
  let p := Suite.parse (Samples.suiteForm "4.0" "250" "500" "25" "10.8367359375") in
  Suite.K p = num 0.156 /\ flexure (Suite.beam p) = SAFE /\
  option_map Suite.DesignResult.status
    (Suite.calculateDesign (Samples.suiteForm "4.0" "250" "500" "25" "10.8367359375"))
  = Some SAFE.
Proof.
  intros p.
  assert (E : Suite.K p = num 0.156) by (vm_compute; reflexivity).
  split; [exact E|]. split.
  - exact (proj2 (proj2 (proj1
             (flexure_SAFE_iff_K_le_0_156 p (Residential.parse Samples.residentialDefaults)))) E).
  - vm_compute. reflexivity.
Defined.

End SectionDesignClaims.

Section SectionDesignClaims2.
Import Kernel KernelFacts Float64 Float64Facts.
Local Open Scope js_scope.



End SectionDesignClaims2.

Section BarTableClaims.
Import Kernel KernelFacts Float64 Float64Facts.
Local Open Scope js_scope.





(** C4, as the code has it.  An area that sits exactly on a bound of the
    table selects the upper of the two adjacent entries: 226 gives "2T16
    Bottom", 402 gives "3T16 Bottom", 603 gives "3T20 Bottom" and 942 gives
    "4T20 Bottom". *)
Theorem main_bar_tie_selects_upper_entry :
  forall (lbl : Labels) (K M V b d h fcu : float),
    let r := sectionDesign lbl K M V b d h fcu in
    let As := asRequired r in
    flexure r = SAFE ->
    (As = num 226 -> mainBar r = "2T16 Bottom") /\
    (As = num 402 -> mainBar r = "3T16 Bottom") /\
    (As = num 603 -> mainBar r = "3T20 Bottom") /\
    (As = num 942 -> mainBar r = "4T20 Bottom").
Proof.
  intros lbl K M V b d h fcu r As F. subst r As.
  rewrite flexure_sectionDesign in F.
  rewrite (sectionDesign_SAFE _ _ _ _ _ _ _ _ F). cbn [mainBar asRequired].
  repeat split; intros ->; vm_compute; reflexivity.
Qed.

(** The form of span 5.0 m, 200 x 500 mm, fcu 30 and tributary width
    1.197718095733333 m needs exactly 402 mm2 and gets "3T16 Bottom". *)
Lemma main_bar_at_402_form :
  let inputs := Samples.suiteForm "5.0" "200" "500" "30" "1.197718095733333" in
  let p := Suite.parse inputs in
  flexure (Suite.beam p) = SAFE /\
  asRequired (Suite.beam p) = num 402 /\
  mainBar (Suite.beam p) = "3T16 Bottom" /\
  option_map Suite.DesignResult.mainBar (Suite.calculateDesign inputs) = Some "3T16 Bottom".
Proof.
  intros inputs p.
  assert (F : flexure (Suite.beam p) = SAFE) by (vm_compute; reflexivity).
  assert (E : asRequired (Suite.beam p) = num 402) by (vm_compute; reflexivity).
  split; [exact F|]. split; [exact E|]. split.
  - exact (proj1 (proj2
             (main_bar_tie_selects_upper_entry Suite.beamLabels (Suite.K p) (Suite.M p)
                (Suite.reaction p) (Suite.V.b p) (Suite.d p) (Suite.V.h p)
                (Suite.V.fcu p) F)) E).
  - vm_compute. reflexivity.
Defined.

(** C4 as stated fails: the section of the form above with tributary width
    0.095396492 m is SAFE, needs exactly 226 mm2, and does not get the lower
    entry "2T12 Bottom". *)
Lemma main_bar_tie_not_lower_entry :
  let inputs := Samples.suiteForm "5.0" "250" "600" "30" "0.095396492" in
  let r := Suite.beam (Suite.parse inputs) in
  flexure r = SAFE /\ status r = SAFE /\ asRequired r = num 226 /\
  mainBar r <> "2T12 Bottom" /\
  option_map Suite.DesignResult.mainBar (Suite.calculateDesign inputs) = Some "2T16 Bottom".
Proof.
  intros inputs r.
  assert (B : mainBar r = "2T16 Bottom") by (vm_compute; reflexivity).
  repeat split; try (vm_compute; reflexivity).
  rewrite B. discriminate.
Qed.

End BarTableClaims.

(** ** The claims on the column and on the span guard *)

Section ColumnClaims.
Import Float64 Float64Facts.
Local Open Scope js_scope.

(** C7.  The column verdict is SAFE exactly when the axial load is strictly
    below the capacity, so a load equal to the capacity is UNSAFE, in the
    beam suite and in the residential form; in the beam suite the capacity
    is [(0.35 * fcu * Ac + 0.67 * fy * Asc) / 1000] with [fy = 460], [Ac] the
    gross area of the 200 mm square column and [Asc = 0.008 * Ac]. *)
Theorem column_SAFE_iff_load_below_capacity :
  forall (p : Suite.V.Locals float) (q : Residential.V.Locals float),
    (Suite.colStatus p = SAFE <-> (Suite.axialLoad p <? Suite.colCapacity p) = true) /\
    (Suite.axialLoad p = Suite.colCapacity p -> Suite.colStatus p = UNSAFE) /\
    Suite.colCapacity p =
      (num 0.35 * Suite.V.fcu p * Suite.ac + num 0.67 * FY * Suite.asc) / num 1000 /\
    FY = num 460 :> float /\
    Suite.ac = num 200 * num 200 :> float /\
    Suite.asc = num 0.008 * Suite.ac :> float /\
    (Residential.colStatus q = SAFE <->
       (Residential.V.colLoad q <? Residential.colCapacity q) = true) /\
    (Residential.V.colLoad q = Residential.colCapacity q ->
       Residential.colStatus q = UNSAFE).
Proof.
  intros p q. unfold Suite.colStatus, Residential.colStatus.
  split; [destruct (Suite.axialLoad p <? Suite.colCapacity p); split; easy|].
  split; [intros ->; unfold ltb; cbn [Float64_Num]; rewrite ltb_irrefl; reflexivity|].
  split; [reflexivity|].
  split; [reflexivity|].
  split; [reflexivity|].
  split; [vm_compute; reflexivity|].
  split;
    [destruct (Residential.V.colLoad q <? Residential.colCapacity q); split; easy|].
  intros ->. unfold ltb; cbn [Float64_Num]; rewrite ltb_irrefl; reflexivity.
Qed.

(** The residential form with its initial column has a capacity of exactly
    316.08 kN; a load of 316.08 kN is UNSAFE, one of 316 kN is SAFE. *)
Lemma column_at_capacity_form :
  let q := Residential.parse (Samples.residentialForm "316.08" "150") in
  Residential.V.colLoad q = Residential.colCapacity q /\
  Residential.colStatus q = UNSAFE /\
  option_map Residential.DesignResult.colStatus
    (Residential.calculateDesign (Samples.residentialForm "316.08" "150")) = Some UNSAFE /\
  option_map Residential.DesignResult.colStatus
    (Residential.calculateDesign (Samples.residentialForm "316" "150")) = Some SAFE.
Proof.
  intros q.
  assert (E : Residential.V.colLoad q = Residential.colCapacity q)
    by (vm_compute; reflexivity).
  split; [exact E|]. split.
  - exact (proj2 (proj2 (proj2 (proj2 (proj2 (proj2 (proj2
             (column_SAFE_iff_load_below_capacity
                (Suite.parse Samples.suiteDefaults) q))))))) E).
  - split; vm_compute; reflexivity.
Defined.

End ColumnClaims.

Section SpanGuardClaims.
Import Float64 Float64Facts.
Import Suite.

(** What the guard of line 746 lets through. *)
Lemma spanRejected_false_iff (L : float) :
  spanRejected L = false <-> (0 <? L)%float = true.
Proof.
  unfold spanRejected, truthy, is_nan, is_zero.
  rewrite !eqb_spec, leb_spec, ltb_spec.
  unfold SFeqb, SFleb, SFltb.
  change (Prim2SF 0) with (S754_zero false).
  change (Prim2SF zero) with (S754_zero false).
  destruct (Prim2SF L) as [s|[|]| |[|] m e]; simpl;
    rewrite ?Z.compare_refl, ?Pos.compare_cont_refl; simpl; split; congruence.
Qed.

(** C8.  [calculateDesign] is a total function whose outcome is either no
    result at all or the complete result record; when the span field parses
    to NaN (an empty or non-numeric field), to zero or to a negative number,
    the outcome is no result. *)
Theorem no_result_on_bad_span :
  forall inputs : DesignInput.t,
    let L := parseFloat (DesignInput.span inputs) in
    (calculateDesign inputs = None \/
     calculateDesign inputs = Some (result (parse inputs))) /\
    (L = nan \/ (L =? 0)%float = true \/ (L <? 0)%float = true ->
     calculateDesign inputs = None) /\
    (calculateDesign inputs = None <-> (0 <? L)%float = false).
Proof.
  intros inputs L.
  assert (R : calculateDesign inputs = None <-> (0 <? L)%float = false).
  { unfold calculateDesign.
    change (V.L (parse inputs)) with L.
    pose proof (spanRejected_false_iff L) as G.
    destruct (spanRejected L), (0 <? L)%float; split; intros; try congruence.
    - destruct G as [_ G]. discriminate (G eq_refl).
    - destruct G as [G _]. discriminate (G eq_refl). }
  split; [|split; [|exact R]].
  - unfold calculateDesign. destruct (spanRejected _); [left|right]; reflexivity.
  - intros [E|[E|E]]; apply R.
    + rewrite E. reflexivity.
    + revert E. rewrite eqb_spec, ltb_spec. unfold SFeqb, SFltb.
      change (Prim2SF 0) with (S754_zero false).
      destruct (Prim2SF L) as [s|[|]| |[|] m e]; simpl; congruence.
    + revert E. rewrite !ltb_spec. unfold SFltb.
      change (Prim2SF 0) with (S754_zero false).
      destruct (Prim2SF L) as [s|[|]| |[|] m e]; simpl; congruence.
Qed.

(** An empty span field, a non-numeric one, a zero and a negative span give
    no result, whatever the rest of the form holds. *)
Lemma no_result_forms :
  calculateDesign (Samples.suiteForm "" "150" "450" "25" "3.0") = None /\
  calculateDesign (Samples.suiteForm "abc" "150" "450" "25" "3.0") = None /\
  calculateDesign (Samples.suiteForm "0" "150" "450" "25" "3.0") = None /\
  calculateDesign (Samples.suiteForm "-2.5" "150" "450" "25" "3.0") = None.
Proof.
  refine (conj _ (conj _ (conj _ _))).
  - apply (proj1 (proj2 (no_result_on_bad_span _))). left. vm_compute. reflexivity.
  - apply (proj1 (proj2 (no_result_on_bad_span _))). left. vm_compute. reflexivity.
  - apply (proj1 (proj2 (no_result_on_bad_span _))). right. left. vm_compute. reflexivity.
  - apply (proj1 (proj2 (no_result_on_bad_span _))). right. right. vm_compute. reflexivity.
Defined.

End SpanGuardClaims.

Section ScenarioClaims.
Import Float64 Float64Facts.
Import Suite.
Local Open Scope js_scope.

(** A span that parses to a positive number always gives the full result. *)
Lemma Suite_calculateDesign_Some (inputs : DesignInput.t) :
  (0 <? parseFloat (DesignInput.span inputs))%float = true ->
  calculateDesign inputs = Some (result (parse inputs)).
Proof.
  intros P. unfold calculateDesign.
  change (V.L (parse inputs)) with (parseFloat (DesignInput.span inputs)).
  rewrite (proj2 (spanRejected_false_iff _) P). reflexivity.
Qed.

(** C9, as the code has it.  Span 4.0 m with the width and depth fields
    empty, tributary width 3.0 m, wall height 3.0 m, live load 1.5 kPa and
    fcu 25: the beam is sized 150 x 300 mm, its moment is 72.86 kNm, [K] is
    about 0.294, above 0.156, so the verdict is UNSAFE, the main bar stays
    "None", the steel area 0 and the utilisation 100, whatever the column,
    soil and ground-beam fields hold. *)
Theorem auto_sized_4m_beam_is_UNSAFE :
  forall inputs : DesignInput.t,
    DesignInput.span inputs = "4.0" ->
    DesignInput.width inputs = "" ->
    DesignInput.depth inputs = "" ->
    DesignInput.tributaryWidth inputs = "3.0" ->
    DesignInput.wallHeight inputs = "3.0" ->
    DesignInput.liveLoad inputs = "1.5" ->
    DesignInput.fcu inputs = "25" ->
    exists r : DesignResult.t,
      calculateDesign inputs = Some r /\
      DesignResult.width r = num 150 /\
      DesignResult.depth r = num 300 /\
      DesignResult.moment r = num 72.86 /\
      (num 0.294 <? K (parse inputs)) = true /\
      (K (parse inputs) <? num 0.295) = true /\
      DesignResult.status r = UNSAFE /\
      DesignResult.mainBar r = "None" /\
      DesignResult.asRequired r = num 0 /\
      DesignResult.utilization r = num 100.
Proof.
  intros [sp w dp fc tw wh ll ch sc gs gw gd gl].
  cbn [DesignInput.span DesignInput.width DesignInput.depth DesignInput.fcu
       DesignInput.tributaryWidth DesignInput.wallHeight DesignInput.liveLoad].
  intros -> -> -> -> -> -> ->.
  eexists. split; [apply Suite_calculateDesign_Some; vm_compute; reflexivity|].
  cbn [result DesignResult.width DesignResult.depth DesignResult.moment
       DesignResult.status DesignResult.mainBar DesignResult.asRequired
       DesignResult.utilization].
  repeat (split; [vm_compute; reflexivity|]). vm_compute; reflexivity.
Qed.

(** The scenario on the initial form. *)
Lemma auto_sized_4m_beam_form :
  exists r : DesignResult.t,
    calculateDesign (Samples.suiteForm "4.0" "" "" "25" "3.0") = Some r /\
    DesignResult.width r = num 150 /\
    DesignResult.depth r = num 300 /\
    DesignResult.status r = UNSAFE /\
    DesignResult.mainBar r = "None".
Proof.
  destruct (auto_sized_4m_beam_is_UNSAFE (Samples.suiteForm "4.0" "" "" "25" "3.0")
              eq_refl eq_refl eq_refl eq_refl eq_refl eq_refl eq_refl)
    as (r & E & W & D & _ & _ & _ & S & B & _).
  exists r. repeat (split; [assumption|]). assumption.
Defined.

(** C9 as stated fails: on that form the result is neither SAFE nor does it
    carry a main bar. *)
Lemma auto_sized_4m_beam_not_SAFE :
  ~ exists r : DesignResult.t,
      calculateDesign (Samples.suiteForm "4.0" "" "" "25" "3.0") = Some r /\
      DesignResult.status r = SAFE /\
      DesignResult.mainBar r <> "None".
Proof.
  intros (r & E & S & _).
  assert (E' : option_map DesignResult.status
                 (calculateDesign (Samples.suiteForm "4.0" "" "" "25" "3.0")) = Some UNSAFE)
    by (vm_compute; reflexivity).
  rewrite E in E'. cbn [option_map] in E'. congruence.
Qed.

(** The same span with the initial 150 x 450 mm section is SAFE and gets
    "3T16 Bottom". *)
Lemma initial_form_beam_SAFE :
  option_map (fun r => (DesignResult.status r, DesignResult.mainBar r))
    (calculateDesign Samples.suiteDefaults) = Some (SAFE, "3T16 Bottom").
Proof. vm_compute. reflexivity. Qed.

End ScenarioClaims.

(** ** The claims on the footing, in binary64 *)

Section FootingClaims.
Import Float64 Float64Facts.
Import Residential.
Local Open Scope js_scope.

Lemma truthy_orNumber (x dflt : float) :
  truthy dflt = true -> truthy (orNumber x dflt) = true.
Proof. unfold orNumber. destruct (truthy x) eqn:E; intros; assumption. Qed.

(** Every parsed value has a truthy default behind it, so the guard of
    line 103 never fires and the residential form always has a result. *)
Lemma Residential_calculateDesign_Some (inputs : DesignInput.t) :
  calculateDesign inputs = Some (result (parse inputs)).
Proof.
  unfold calculateDesign, inputsRejected, parse.
  cbn [V.colWidth V.colLength V.colLoad V.soilCapacity].
  rewrite !truthy_orNumber by (vm_compute; reflexivity). reflexivity.
Qed.

(** C5, as the code has it.  Column load 500 kN on soil of 150 kPa: the
    required area is 500/150 (shown as 3.33), the side is
    [ceil(sqrt(3.33..) * 10) / 10 = 1.9] m, the bearing pressure is
    [500 / 1.9^2], about 138.50 kPa (shown as 138.5), and the footing is
    SAFE, whatever the other fields hold. *)
Theorem footing_500kN_150kPa :
  forall inputs : DesignInput.t,
    DesignInput.colLoad inputs = "500" ->
    DesignInput.soilCapacity inputs = "150" ->
    exists r : DesignResult.t,
      calculateDesign inputs = Some r /\
      requiredFootingArea (parse inputs) = num 500 / num 150 /\
      DesignResult.requiredFootingArea r = num 3.33 /\
      footingSize (parse inputs) = num 1.9 /\
      DesignResult.footingSize r = num 1.9 /\
      actualBearingPressure (parse inputs) = num 500 / (num 1.9 * num 1.9) /\
      (num 138.50 <? actualBearingPressure (parse inputs)) = true /\
      (actualBearingPressure (parse inputs) <? num 138.51) = true /\
      DesignResult.bearingPressure r = num 138.5 /\
      DesignResult.footingStatus r = SAFE.
Proof.
  intros [cw cl ch cs ld sc fc gs].
  cbn [DesignInput.colLoad DesignInput.soilCapacity].
  intros -> ->.
  eexists. split; [apply Residential_calculateDesign_Some|].
  cbn [result DesignResult.requiredFootingArea DesignResult.footingSize
       DesignResult.bearingPressure DesignResult.footingStatus].
  repeat (split; [vm_compute; reflexivity|]). vm_compute; reflexivity.
Qed.

(** The scenario on the initial form. *)
Lemma footing_500kN_150kPa_form :
  exists r : DesignResult.t,
    calculateDesign Samples.residentialDefaults = Some r /\
    DesignResult.requiredFootingArea r = num 3.33 /\
    DesignResult.footingSize r = num 1.9 /\
    DesignResult.bearingPressure r = num 138.5 /\
    DesignResult.footingStatus r = SAFE.
Proof.
  destruct (footing_500kN_150kPa Samples.residentialDefaults eq_refl eq_refl)
    as (r & E & _ & A & _ & S & _ & _ & _ & P & F).
  exists r. repeat (split; [assumption|]). assumption.
Defined.

(** C5 as stated fails: the side is not 3.4 m and the pressure is not
    [500 / 3.4^2]. *)
Lemma footing_500kN_150kPa_not_3_4 :
  ~ exists r : DesignResult.t,
      calculateDesign Samples.residentialDefaults = Some r /\
      DesignResult.footingSize r = num 3.4 /\
      actualBearingPressure (parse Samples.residentialDefaults)
        = num 500 / (num 3.4 * num 3.4).
Proof.
  intros (r & E & S & _).
  rewrite Residential_calculateDesign_Some in E. injection E as <-.
  revert S. vm_compute. discriminate.
Qed.

(** C10 fails on the code.  Column load 294 kN on soil of 150 kPa, both
    positive: [sqrt(294/150) * 10] is the whole number 14, the side is 1.4 m
    and the pressure 294 / 1.96 is 150, the capacity itself, which the test
    [actualBearingPressure <= soil] of line 132 is written to accept.  In
    binary64 [1.4 * 1.4] rounds to 1.9599999999999997 and the recomputed
    pressure to 150.00000000000003, above 150: the footing is UNSAFE, and
    shown with a pressure of 150. *)
Lemma footing_294kN_150kPa_UNSAFE :
  let inputs := Samples.residentialForm "294" "150" in
  let p := parse inputs in
  (num 0 <? V.colLoad p) = true /\
  (num 0 <? V.soilCapacity p) = true /\
  footingSize p = num 1.4 /\
  (V.soilCapacity p <? actualBearingPressure p) = true /\
  footingStatus p = UNSAFE /\
  option_map DesignResult.footingStatus (calculateDesign inputs) = Some UNSAFE /\
  option_map DesignResult.bearingPressure (calculateDesign inputs) = Some (num 150).
Proof. intros inputs p. repeat split; vm_compute; reflexivity. Qed.

(** The same happens wherever the load is 1.96 times the capacity: 196 kN
    on 100 kPa, 392 kN on 200 kPa, 98 kN on 50 kPa. *)
Lemma footing_at_capacity_UNSAFE :
  footingStatus (parse (Samples.residentialForm "196" "100")) = UNSAFE /\
  footingStatus (parse (Samples.residentialForm "392" "200")) = UNSAFE /\
  footingStatus (parse (Samples.residentialForm "98" "50")) = UNSAFE.
Proof. repeat split; vm_compute; reflexivity. Qed.

End FootingClaims.

(** ** Rounding in binary64 is monotone *)

Module RoundingFacts.
Import Float64 Rounding.
Local Open Scope R_scope.
Local Abbreviation sqrt := R_sqrt.sqrt.

(** *** Powers of two *)

Lemma bpow_pos e : 0 < bpow e.
Proof. apply powerRZ_lt. lra. Qed.

Lemma bpow_add a b : bpow (a + b) = bpow a * bpow b.
Proof. apply powerRZ_add. lra. Qed.

Lemma bpow_0 : bpow 0 = 1.
Proof. reflexivity. Qed.

Lemma bpow_succ e : bpow (e + 1) = 2 * bpow e.
Proof. rewrite bpow_add. unfold bpow at 2. simpl. lra. Qed.

Lemma bpow_nat (n : nat) : bpow (Z.of_nat n) = 2 ^ n.
Proof. unfold bpow. symmetry. apply pow_powerRZ. Qed.

Lemma bpow_IZR (k : Z) : (0 <= k)%Z -> bpow k = IZR (2 ^ k).
Proof.
  intros H. rewrite <- (Z2Nat.id k H). rewrite bpow_nat. apply pow_IZR.
Qed.

Lemma bpow_ge_1 k : (0 <= k)%Z -> 1 <= bpow k.
Proof.
  intros H. rewrite <- (Z2Nat.id k H), bpow_nat. apply pow_R1_Rle. lra.
Qed.

Lemma bpow_le a b : (a <= b)%Z -> bpow a <= bpow b.
Proof.
  intros H. replace b with (a + (b - a))%Z by lia. rewrite bpow_add.
  pose proof (bpow_ge_1 (b - a) ltac:(lia)). pose proof (bpow_pos a). nra.
Qed.

Lemma bpow_lt a b : (a < b)%Z -> bpow a < bpow b.
Proof.
  intros H. replace b with ((b - 1) + 1)%Z by lia. rewrite bpow_succ.
  pose proof (bpow_le a (b - 1) ltac:(lia)). pose proof (bpow_pos a). lra.
Qed.

Lemma bpow_lt_inv a b : bpow a < bpow b -> (a < b)%Z.
Proof.
  intros H. destruct (Z_lt_le_dec a b) as [L|L]; [exact L|].
  apply bpow_le in L. lra.
Qed.

Lemma bpow_le_inv a b : bpow a <= bpow b -> (a <= b)%Z.
Proof.
  intros H. destruct (Z_le_gt_dec a b) as [L|L]; [exact L|].
  apply Z.gt_lt, bpow_lt in L. lra.
Qed.

(** *** The number of binary digits *)

Lemma digits2_size p : digits2_pos p = Pos.size p.
Proof. induction p; simpl; congruence. Qed.

Lemma digits2_bounds (p : positive) :
  (2 ^ (Zpos (digits2_pos p) - 1) <= Zpos p < 2 ^ Zpos (digits2_pos p))%Z.
Proof.
  rewrite digits2_size. split.
  - pose proof (Pos.size_le p) as H.
    assert (Zpos (2 ^ Pos.size p) <= Zpos (p~0))%Z by (apply Pos2Z.pos_le_pos; exact H).
    rewrite Pos2Z.inj_pow in H0.
    replace (Zpos (Pos.size p)) with ((Zpos (Pos.size p) - 1) + 1)%Z in H0 by lia.
    rewrite Z.pow_add_r in H0 by lia. change (2 ^ 1)%Z with 2%Z in H0. lia.
  - pose proof (Pos.size_gt p) as H.
    apply Pos2Z.pos_lt_pos in H. rewrite Pos2Z.inj_pow in H. exact H.
Qed.

Lemma Zdigits2_bounds (m : Z) : (0 < m)%Z ->
  (2 ^ (Zdigits2 m - 1) <= m < 2 ^ Zdigits2 m)%Z /\ (0 < Zdigits2 m)%Z.
Proof.
  destruct m as [|p|p]; try lia. intros _. simpl. split; [apply digits2_bounds|lia].
Qed.

Lemma Zdigits2_unique (m d : Z) :
  (0 < d)%Z -> (2 ^ (d - 1) <= m < 2 ^ d)%Z -> Zdigits2 m = d.
Proof.
  intros Hd [L U].
  assert (0 < m)%Z by (pose proof (Z.pow_pos_nonneg 2 (d - 1)); lia).
  destruct (Zdigits2_bounds m H) as [[L' U'] P].
  destruct (Z.lt_trichotomy (Zdigits2 m) d) as [C|[C|C]]; [|exact C|].
  - assert (2 ^ Zdigits2 m <= 2 ^ (d - 1))%Z by (apply Z.pow_le_mono_r; lia). lia.
  - assert (2 ^ d <= 2 ^ (Zdigits2 m - 1))%Z by (apply Z.pow_le_mono_r; lia). lia.
Qed.

(** The value of a mantissa of [Zdigits2 m] digits at exponent [e] lies in
    the binade [[2^(digits + e - 1), 2^(digits + e))]. *)
Lemma F2R_bounds (m e : Z) : (0 < m)%Z ->
  bpow (Zdigits2 m + e - 1) <= IZR m * bpow e /\ IZR (m + 1) * bpow e <= bpow (Zdigits2 m + e).
Proof.
  intros H. destruct (Zdigits2_bounds m H) as [[L U] P].
  replace (Zdigits2 m + e - 1)%Z with ((Zdigits2 m - 1) + e)%Z by lia.
  rewrite !bpow_add, (bpow_IZR (Zdigits2 m - 1)), (bpow_IZR (Zdigits2 m)) by lia.
  pose proof (bpow_pos e).
  apply IZR_le in L. assert (U' : (m + 1 <= 2 ^ Zdigits2 m)%Z) by lia. apply IZR_le in U'.
  split; apply Rmult_le_compat_r; lra.
Qed.

(** *** Cells and locations *)

Lemma loc_ok_cell m e l x : loc_ok m e l x -> IZR m * bpow e <= x < (IZR m + 1) * bpow e.
Proof.
  pose proof (bpow_pos e) as B.
  destruct l as [|[| |]]; cbn [loc_ok]; intros; lra.
Qed.

Lemma IZR_xO p : IZR (Zpos p~0) = 2 * IZR (Zpos p).
Proof. rewrite Pos2Z.inj_xO, mult_IZR. reflexivity. Qed.
Lemma IZR_xI p : IZR (Zpos p~1) = 2 * IZR (Zpos p) + 1.
Proof. rewrite Pos2Z.inj_xI, plus_IZR, mult_IZR. reflexivity. Qed.

(** One shift to the right halves the mantissa and keeps track of where
    the number sits in the wider cell. *)
Lemma shr_1_ok (mrs : shr_record) (e : Z) (x : R) :
  (0 <= shr_m mrs)%Z ->
  loc_ok (shr_m mrs) e (loc_of_shr_record mrs) x ->
  loc_ok (shr_m (shr_1 mrs)) (e + 1) (loc_of_shr_record (shr_1 mrs)) x /\
  (0 <= shr_m (shr_1 mrs))%Z.
Proof.
  destruct mrs as [m r s]. pose proof (bpow_pos e) as B.
  destruct m as [|[p|p|]|p]; cbn [shr_m]; try lia; intros _;
    destruct r, s;
    cbn [shr_1 shr_m loc_of_shr_record loc_ok orb];
    rewrite ?bpow_succ; try rewrite (IZR_xO p); try rewrite (IZR_xI p);
    intros H; (split; [|lia]); lra.
Qed.

(** So do [p] shifts. *)
Lemma shr_iter_ok (p : positive) :
  forall (mrs : shr_record) (e : Z) (x : R),
    (0 <= shr_m mrs)%Z ->
    loc_ok (shr_m mrs) e (loc_of_shr_record mrs) x ->
    loc_ok (shr_m (iter_pos shr_1 p mrs)) (e + Zpos p)
      (loc_of_shr_record (iter_pos shr_1 p mrs)) x /\
    (0 <= shr_m (iter_pos shr_1 p mrs))%Z.
Proof.
  induction p as [p IH|p IH|]; intros mrs e x Hm H; cbn [iter_pos].
  - destruct (shr_1_ok mrs e x Hm H) as [H1 Hm1].
    destruct (IH _ _ _ Hm1 H1) as [H2 Hm2].
    destruct (IH _ _ _ Hm2 H2) as [H3 Hm3].
    replace (e + Zpos p~1)%Z with (e + 1 + Zpos p + Zpos p)%Z by lia. split; assumption.
  - destruct (IH _ _ _ Hm H) as [H2 Hm2].
    destruct (IH _ _ _ Hm2 H2) as [H3 Hm3].
    replace (e + Zpos p~0)%Z with (e + Zpos p + Zpos p)%Z by lia. split; assumption.
  - apply shr_1_ok; assumption.
Qed.

Lemma shr_record_of_loc_ok m l :
  shr_m (shr_record_of_loc m l) = m /\
  loc_of_shr_record (shr_record_of_loc m l) = l.
Proof. destruct l as [|[| |]]; split; reflexivity. Qed.

Local Abbreviation fexp := (SpecFloat.fexp prec emax).
Local Abbreviation emin := (SpecFloat.emin prec emax).

Lemma fexp_eq e : fexp e = Z.max (e - 53) (-1074).
Proof. reflexivity. Qed.

(** First step of rounding: truncation to the canonical exponent. *)
Lemma shr_fexp_ok (m e : Z) (l : location) (x : R) :
  (0 <= m)%Z -> loc_ok m e l x -> (e <= fexp (Zdigits2 m + e))%Z ->
  exists m' l',
    shr_fexp prec emax m e l = (shr_record_of_loc m' l', fexp (Zdigits2 m + e)) /\
    loc_ok m' (fexp (Zdigits2 m + e)) l' x /\ (0 <= m')%Z.
Proof.
  intros Hm H Hc. unfold shr_fexp, shr.
  destruct (shr_record_of_loc_ok m l) as [E1 E2].
  remember (fexp (Zdigits2 m + e) - e)%Z as n eqn:En.
  destruct n as [|p|p]; try lia.
  - exists m, l. replace (fexp (Zdigits2 m + e)) with e by lia. repeat split; assumption.
  - pose proof (shr_iter_ok p (shr_record_of_loc m l) e x) as S.
    rewrite E1, E2 in S. destruct (S Hm H) as [S1 S2].
    exists (shr_m (iter_pos shr_1 p (shr_record_of_loc m l))),
           (loc_of_shr_record (iter_pos shr_1 p (shr_record_of_loc m l))).
    replace (fexp (Zdigits2 m + e)) with (e + Zpos p)%Z by lia.
    repeat split; try assumption.
    f_equal. destruct (iter_pos shr_1 p (shr_record_of_loc m l)) as [a [|] [|]]; reflexivity.
Qed.

(** *** Rounding to nearest, ties to even *)

Lemma RNE_cases m l :
  round_nearest_even m l = m \/ round_nearest_even m l = (m + 1)%Z.
Proof. destruct l as [|[| |]]; simpl; try destruct (Z.even m); auto. Qed.

Lemma pow2_lt_digits (m k : Z) : (0 < m < 2 ^ k)%Z -> (0 <= k)%Z -> (Zdigits2 m <= k)%Z.
Proof.
  intros [Hm U] Hk. destruct (Zdigits2_bounds m Hm) as [[L _] P].
  destruct (Z_le_gt_dec (Zdigits2 m) k) as [C|C]; [exact C|].
  assert (2 ^ k <= 2 ^ (Zdigits2 m - 1))%Z by (apply Z.pow_le_mono_r; lia). lia.
Qed.

(** After the truncation the mantissa has at most 53 digits, and exactly 53
    above the smallest exponent. *)
Lemma cell_bounds (m e : Z) (l : location) (x : R) (m' : Z) (l' : location) :
  (0 <= m)%Z -> loc_ok m e l x -> (e <= fexp (Zdigits2 m + e))%Z ->
  loc_ok m' (fexp (Zdigits2 m + e)) l' x -> (0 <= m')%Z ->
  (m' < 2 ^ 53)%Z /\ (emin < fexp (Zdigits2 m + e) -> 2 ^ 52 <= m')%Z.
Proof.
  intros Hm H Hc H' Hm'.
  set (c := fexp (Zdigits2 m + e)) in *.
  pose proof (loc_ok_cell _ _ _ _ H) as [X1 X2].
  pose proof (loc_ok_cell _ _ _ _ H') as [Y1 Y2].
  pose proof (bpow_pos c) as Bc. pose proof (bpow_pos e) as Be.
  assert (m = 0 \/ 0 < m)%Z as [Z0|Zp] by lia.
  - subst m.
    assert (Ec : c = (-1074)%Z).
    { unfold c in *. change (Zdigits2 0) with 0%Z in *. rewrite fexp_eq in *. lia. }
    assert (Le : bpow e <= bpow c) by (apply bpow_le; lia).
    assert (IZR m' < 1) by nra.
    apply lt_IZR in H0. split; [lia|]. unfold emin, SpecFloat.emin, prec, emax. lia.
  - destruct (F2R_bounds m e Zp) as [F1 F2]. rewrite plus_IZR in F2.
    set (d := (Zdigits2 m + e)%Z) in *.
    assert (Cd : (d - 53 <= c)%Z) by (unfold c; rewrite fexp_eq; lia).
    split.
    + assert (B : bpow d <= bpow (53 + c)) by (apply bpow_le; lia).
      rewrite bpow_add in B.
      assert (IZR m' * bpow c < bpow 53 * bpow c) by lra.
      apply Rmult_lt_reg_r in H0; [|exact Bc].
      rewrite bpow_IZR in H0 by lia. apply lt_IZR in H0. exact H0.
    + intros Hn.
      assert (Ec : c = (d - 53)%Z).
      { unfold c in *. rewrite fexp_eq in *. unfold emin, SpecFloat.emin, prec, emax in Hn. lia. }
      assert (B : bpow (52 + c) = bpow (d - 1)) by (f_equal; lia).
      rewrite bpow_add in B.
      assert (bpow 52 * bpow c < (IZR m' + 1) * bpow c) by lra.
      apply Rmult_lt_reg_r in H0; [|exact Bc].
      rewrite bpow_IZR in H0 by lia. rewrite <- plus_IZR in H0. apply lt_IZR in H0. lia.
Qed.

(** *** The shape of a rounded result *)

Lemma bra_unfold m e l :
  binary_round_aux prec emax false m e l =
  let '(mrs', e') := shr_fexp prec emax m e l in
  let '(mrs'', e'') :=
    shr_fexp prec emax (round_nearest_even (shr_m mrs') (loc_of_shr_record mrs')) e' loc_Exact in
  finish mrs'' e''.
Proof. reflexivity. Qed.

(** The second truncation only acts on a mantissa rounded up to [2^53]. *)
Lemma second_shr (m c : Z) :
  (0 <= m <= 2 ^ 53)%Z -> (-1074 <= c)%Z -> (-1074 < c -> 2 ^ 52 <= m)%Z ->
  (let '(mrs, e) := shr_fexp prec emax m c loc_Exact in finish mrs e) = out m c.
Proof.
  intros Hm Hc Hn. unfold out.
  destruct (Z.eqb_spec m (2 ^ 53)) as [E|NE].
  - subst m. unfold shr_fexp, shr.
    change (Zdigits2 (2 ^ 53)) with 54%Z.
    replace (fexp (54 + c) - c)%Z with 1%Z by (rewrite fexp_eq; lia).
    reflexivity.
  - assert (m = 0 \/ 0 < m)%Z as [Z0|Zp] by lia.
    + subst m. unfold shr_fexp, shr. change (Zdigits2 0) with 0%Z.
      assert (fexp (0 + c) - c <= 0)%Z by (rewrite fexp_eq; lia).
      destruct (fexp (0 + c) - c)%Z; try lia; reflexivity.
    + assert (D : (Zdigits2 m <= 53)%Z) by (apply pow2_lt_digits; lia).
      assert (N : (fexp (Zdigits2 m + c) - c = 0)%Z).
      { rewrite fexp_eq.
        destruct (Z_le_gt_dec c (-1074)) as [C|C]; [lia|].
        assert (Zdigits2 m = 53%Z) by (apply Zdigits2_unique; lia). lia. }
      unfold shr_fexp, shr. rewrite N.
      destruct m; try lia. reflexivity.
Qed.

(** A rounded number is the nearest mantissa at the canonical exponent of
    the number rounded. *)
Lemma bra_shape (m e : Z) (l : location) (x : R) :
  (0 <= m)%Z -> loc_ok m e l x -> (e <= fexp (Zdigits2 m + e))%Z ->
  exists m' l',
    loc_ok m' (fexp (Zdigits2 m + e)) l' x /\
    (0 <= m' < 2 ^ 53)%Z /\
    (-1074 < fexp (Zdigits2 m + e) -> 2 ^ 52 <= m')%Z /\
    binary_round_aux prec emax false m e l
    = out (round_nearest_even m' l') (fexp (Zdigits2 m + e)).
Proof.
  intros Hm H Hc.
  destruct (shr_fexp_ok m e l x Hm H Hc) as (m' & l' & E & H' & Hm').
  destruct (cell_bounds m e l x m' l' Hm H Hc H' Hm') as [U L].
  exists m', l'. split; [exact H'|]. split; [lia|]. split; [exact L|].
  rewrite bra_unfold, E.
  destruct (shr_record_of_loc_ok m' l') as [E1 E2]. rewrite E1, E2.
  apply second_shr.
  - destruct (RNE_cases m' l') as [-> | ->]; lia.
  - rewrite fexp_eq. lia.
  - intros C. destruct (RNE_cases m' l') as [-> | ->]; specialize (L C); lia.
Qed.

(** *** Monotonicity *)

Lemma cell_mono (m1 m2 c : Z) (l1 l2 : location) (x1 x2 : R) :
  loc_ok m1 c l1 x1 -> loc_ok m2 c l2 x2 -> x1 <= x2 -> (m1 <= m2)%Z.
Proof.
  intros H1 H2 X.
  apply loc_ok_cell in H1, H2. pose proof (bpow_pos c) as B.
  assert (IZR m1 * bpow c < (IZR m2 + 1) * bpow c) by lra.
  apply Rmult_lt_reg_r in H; [|exact B].
  rewrite <- plus_IZR in H. apply lt_IZR in H. lia.
Qed.

Lemma RNE_mono (m1 m2 c : Z) (l1 l2 : location) (x1 x2 : R) :
  loc_ok m1 c l1 x1 -> loc_ok m2 c l2 x2 -> x1 <= x2 ->
  (round_nearest_even m1 l1 <= round_nearest_even m2 l2)%Z.
Proof.
  intros H1 H2 X. pose proof (cell_mono _ _ _ _ _ _ _ H1 H2 X) as M.
  assert (m1 < m2 \/ m1 = m2)%Z as [L|E] by lia.
  - destruct (RNE_cases m1 l1) as [-> | ->], (RNE_cases m2 l2) as [-> | ->]; lia.
  - subst m2. pose proof (bpow_pos c) as B.
    destruct l1 as [|[| |]], l2 as [|[| |]]; cbn [round_nearest_even loc_ok] in *;
      try destruct (Z.even m1); try lia; exfalso; lra.
Qed.

Lemma fin_leb (a b e1 e2 : Z) :
  (0 <= a)%Z -> (0 <= b)%Z ->
  (a = 0 \/ (0 < b /\ (e1 < e2 \/ (e1 = e2 /\ a <= b))))%Z ->
  SFleb (fin a e1) (fin b e2) = true.
Proof.
  intros Ha Hb H. unfold fin, SFleb.
  destruct a as [|pa|pa]; try lia; destruct b as [|pb|pb]; try lia;
    try (destruct (e2 <=? emax - prec)%Z; reflexivity).
  destruct H as [H|[_ H]]; [lia|].
  destruct (Z.leb_spec e1 (emax - prec)), (Z.leb_spec e2 (emax - prec));
    cbn [SFcompare]; try reflexivity; try lia.
  change (Pos.compare_cont Eq) with Pos.compare.
  destruct (Z.compare_spec e1 e2); try lia; try reflexivity.
  destruct (Pos.compare_spec pa pb); try lia; reflexivity.
Qed.

Lemma out_mono (m1 m2 c1 c2 : Z) (l1 l2 : location) (x1 x2 : R) :
  loc_ok m1 c1 l1 x1 -> (0 <= m1 < 2 ^ 53)%Z -> (-1074 < c1 -> 2 ^ 52 <= m1)%Z ->
  loc_ok m2 c2 l2 x2 -> (0 <= m2 < 2 ^ 53)%Z -> (-1074 < c2 -> 2 ^ 52 <= m2)%Z ->
  (-1074 <= c1)%Z -> (-1074 <= c2)%Z ->
  x1 <= x2 ->
  SFleb (out (round_nearest_even m1 l1) c1) (out (round_nearest_even m2 l2) c2) = true.
Proof.
  intros H1 B1 N1 H2 B2 N2 C1 C2 X.
  assert (C : (c1 <= c2)%Z).
  { destruct (Z_le_gt_dec c1 c2) as [C|C]; [exact C|exfalso].
    specialize (N1 ltac:(lia)).
    pose proof (loc_ok_cell _ _ _ _ H1) as [L1 _].
    pose proof (loc_ok_cell _ _ _ _ H2) as [_ U2].
    pose proof (bpow_pos c1). pose proof (bpow_pos c2).
    assert (P1 : bpow (52 + c1) <= IZR m1 * bpow c1).
    { rewrite bpow_add, (bpow_IZR 52) by lia. apply Rmult_le_compat_r; [lra|].
      apply IZR_le. lia. }
    assert (P2 : (IZR m2 + 1) * bpow c2 <= bpow (53 + c2)).
    { rewrite bpow_add, (bpow_IZR 53) by lia. apply Rmult_le_compat_r; [lra|].
      rewrite <- plus_IZR. apply IZR_le. lia. }
    assert (bpow (53 + c2) <= bpow (52 + c1)) by (apply bpow_le; lia).
    lra. }
  pose proof (RNE_cases m1 l1) as R1. pose proof (RNE_cases m2 l2) as R2.
  set (r1 := round_nearest_even m1 l1) in *.
  set (r2 := round_nearest_even m2 l2) in *.
  assert (c1 = c2 \/ c1 < c2)%Z as [E|L] by lia.
  - subst c2. pose proof (RNE_mono _ _ _ _ _ _ _ H1 H2 X) as M. fold r1 r2 in M.
    unfold out.
    destruct (Z.eqb_spec r1 (2 ^ 53)), (Z.eqb_spec r2 (2 ^ 53)); apply fin_leb; lia.
  - specialize (N2 ltac:(lia)). unfold out.
    destruct (Z.eqb_spec r1 (2 ^ 53)), (Z.eqb_spec r2 (2 ^ 53)); apply fin_leb; lia.
Qed.

(** Rounding is monotone. *)
Lemma bra_mono (m1 e1 : Z) (l1 : location) (x1 : R) (m2 e2 : Z) (l2 : location) (x2 : R) :
  (0 <= m1)%Z -> loc_ok m1 e1 l1 x1 -> (e1 <= fexp (Zdigits2 m1 + e1))%Z ->
  (0 <= m2)%Z -> loc_ok m2 e2 l2 x2 -> (e2 <= fexp (Zdigits2 m2 + e2))%Z ->
  x1 <= x2 ->
  SFleb (binary_round_aux prec emax false m1 e1 l1)
        (binary_round_aux prec emax false m2 e2 l2) = true.
Proof.
  intros Hm1 H1 Hc1 Hm2 H2 Hc2 X.
  destruct (bra_shape m1 e1 l1 x1 Hm1 H1 Hc1) as (a1 & k1 & A1 & B1 & N1 & ->).
  destruct (bra_shape m2 e2 l2 x2 Hm2 H2 Hc2) as (a2 & k2 & A2 & B2 & N2 & ->).
  apply (out_mono a1 a2 _ _ k1 k2 x1 x2); try assumption; rewrite fexp_eq; lia.
Qed.

(** *** The quotient before rounding *)

Lemma fexp_mono a b : (a <= b)%Z -> (fexp a <= fexp b)%Z.
Proof. rewrite !fexp_eq. lia. Qed.

(** The location of [q + r / n] above [q]. *)
Lemma new_location_ok (n r q : Z) (B t : R) :
  (0 < n)%Z -> (0 <= r < n)%Z -> 0 < B ->
  t * IZR n = IZR (q * n + r) ->
  loc_ok q 0 (new_location n r) t.
Proof.
  intros Hn Hr HB E.
  rewrite plus_IZR, mult_IZR in E.
  assert (N : 0 < IZR n) by (apply IZR_lt; lia).
  assert (R0 : 0 <= IZR r) by (apply IZR_le; lia).
  unfold new_location, new_location_even, new_location_odd.
  destruct (Z.even n) eqn:Ev; destruct (Z.eqb_spec r 0) as [Z0|NZ].
  1,3: subst r; cbn [loc_ok]; rewrite bpow_0; nra.
  - assert (R1 : 0 < IZR r) by (apply IZR_lt; lia).
    destruct (Z.compare_spec (2 * r) n) as [C|C|C]; cbn [loc_ok]; rewrite bpow_0.
    + apply (f_equal IZR) in C. rewrite mult_IZR in C. nra.
    + apply IZR_lt in C. rewrite mult_IZR in C. nra.
    + apply IZR_lt in C. rewrite mult_IZR in C. 
      assert (IZR r < IZR n) by (apply IZR_lt; lia). nra.
  - assert (R1 : 0 < IZR r) by (apply IZR_lt; lia).
    assert (Od : (2 * r <> n)%Z).
    { intros <-. rewrite Z.even_mul in Ev. discriminate. }
    destruct (Z.compare_spec (2 * r + 1) n) as [C|C|C]; cbn [loc_ok]; rewrite bpow_0.
    + assert (C' : (2 * r < n)%Z) by lia. apply IZR_lt in C'. rewrite mult_IZR in C'. nra.
    + assert (C' : (2 * r < n)%Z) by lia. apply IZR_lt in C'. rewrite mult_IZR in C'. nra.
    + assert (C' : (n < 2 * r)%Z) by lia. apply IZR_lt in C'. rewrite mult_IZR in C'.
      assert (IZR r < IZR n) by (apply IZR_lt; lia). nra.
Qed.

Lemma loc_ok_scale (q e : Z) (l : location) (t : R) :
  loc_ok q 0 l t -> loc_ok q e l (t * bpow e).
Proof.
  pose proof (bpow_pos e) as B.
  destruct l as [|[| |]]; cbn [loc_ok]; rewrite bpow_0; intros; nra.
Qed.

(** The quotient of two mantissas, as [SFdiv] prepares it for rounding:
    the integer part of the scaled quotient and the place of the rest. *)
Lemma div_core_ok (mx my : positive) (ex ey : Z) :
  forall q e' l,
    SFdiv_core_binary prec emax (Zpos mx) ex (Zpos my) ey = (q, e', l) ->
    (0 <= q)%Z /\
    loc_ok q e' l ((IZR (Zpos mx) * bpow ex) / (IZR (Zpos my) * bpow ey)) /\
    (e' <= fexp (Zdigits2 q + e'))%Z.
Proof.
  intros q e' l. unfold SFdiv_core_binary.
  set (D := (Zdigits2 (Zpos mx) + ex - (Zdigits2 (Zpos my) + ey))%Z).
  set (e0 := Z.min (fexp D) (ex - ey)).
  set (s := (ex - ey - e0)%Z).
  assert (Hs : (0 <= s)%Z) by (unfold s, e0; lia).
  set (m' := match s with Zpos _ => Z.shiftl (Zpos mx) s | Z0 => Zpos mx | Zneg _ => 0%Z end).
  assert (Em : m' = (Zpos mx * 2 ^ s)%Z).
  { unfold m'. destruct s as [|p|p]; try lia.
    rewrite Z.shiftl_mul_pow2 by lia. reflexivity. }
  pose proof (Z_div_mod m' (Zpos my) ltac:(lia)) as DM.
  destruct (Z.div_eucl m' (Zpos my)) as [q0 r0]. destruct DM as [DM Hr].
  intros [= <- <- <-].
  assert (Pm : (0 < m')%Z) by (rewrite Em; apply Z.mul_pos_pos; [lia|apply Z.pow_pos_nonneg; lia]).
  assert (Hq : (0 <= q0)%Z) by nia.
  pose proof (bpow_pos ex) as Bx. pose proof (bpow_pos ey) as By.
  pose proof (bpow_pos e0) as B0. pose proof (bpow_pos s) as Bs.
  assert (Py : 0 < IZR (Zpos my)) by (apply IZR_lt; lia).
  assert (Px : 0 < IZR (Zpos mx)) by (apply IZR_lt; lia).
  set (X := IZR (Zpos mx) * bpow ex). set (Y := IZR (Zpos my) * bpow ey).
  assert (PY : 0 < Y) by (unfold Y; nra).
  assert (EX : X / Y = (IZR m' / IZR (Zpos my)) * bpow e0).
  { unfold X, Y. rewrite Em, mult_IZR, <- bpow_IZR by lia.
    replace ex with (s + ey + e0)%Z at 1 by (unfold s; lia).
    rewrite !bpow_add. field. lra. }
  assert (L : loc_ok q0 e0 (new_location (Zpos my) r0) (X / Y)).
  { rewrite EX. apply loc_ok_scale.
    apply (new_location_ok (Zpos my) r0 q0 1); try lia; try lra.
    rewrite DM. unfold Rdiv. rewrite Rmult_assoc, Rinv_l by lra.
    rewrite Rmult_1_r. f_equal. ring. }
  split; [exact Hq|]. split; [exact L|].
  (* the exponent is not above the canonical one *)
  destruct (F2R_bounds (Zpos mx) ex ltac:(lia)) as [X1 _].
  destruct (F2R_bounds (Zpos my) ey ltac:(lia)) as [_ Y2].
  fold X in X1. rewrite plus_IZR in Y2.
  assert (Y3 : Y < bpow (Zdigits2 (Zpos my) + ey)) by (unfold Y; nra).
  assert (LB : bpow (D - 1) < X / Y).
  { apply (Rmult_lt_reg_r (bpow (Zdigits2 (Zpos my) + ey))); [apply bpow_pos|].
    rewrite <- bpow_add.
    replace (D - 1 + (Zdigits2 (Zpos my) + ey))%Z with (Zdigits2 (Zpos mx) + ex - 1)%Z
      by (unfold D; lia).
    assert (XY : X = X / Y * Y) by (field; lra).
    assert (0 < X / Y) by (apply Rdiv_lt_0_compat; unfold X; nra).
    nra. }
  pose proof (loc_ok_cell _ _ _ _ L) as [_ U].
  assert (e0 <= fexp D)%Z by (unfold e0; lia).
  assert (q0 = 0 \/ 0 < q0)%Z as [Z0|Zp] by lia.
  - subst q0. change (Zdigits2 0) with 0%Z.
    assert (bpow (D - 1) < bpow e0) by lra.
    apply bpow_lt_inv in H0. rewrite fexp_eq in *. lia.
  - destruct (F2R_bounds q0 e0 Zp) as [_ Q2]. rewrite plus_IZR in Q2.
    assert (bpow (D - 1) < bpow (Zdigits2 q0 + e0)) by lra.
    apply bpow_lt_inv in H0.
    pose proof (fexp_mono D (Zdigits2 q0 + e0) ltac:(lia)). lia.
Qed.

Local Abbreviation bounded := (SpecFloat.bounded prec emax).

(** *** Valid numbers *)

Lemma bounded_canonical (m : positive) (e : Z) :
  bounded m e = true ->
  (e = fexp (Zdigits2 (Zpos m) + e) /\ e <= 971 /\ -1074 <= e /\ Zdigits2 (Zpos m) <= 53)%Z.
Proof.
  unfold SpecFloat.bounded, canonical_mantissa. intros H.
  apply andb_prop in H. destruct H as [H1 H2].
  apply Z.eqb_eq in H1. apply Z.leb_le in H2.
  change (Zpos (digits2_pos m)) with (Zdigits2 (Zpos m)) in H1.
  change (emax - prec)%Z with 971%Z in H2.
  rewrite fexp_eq in *. lia.
Qed.

(** The comparison of valid positive numbers is the comparison of values. *)
Lemma SFleb_val (m1 m2 : positive) (e1 e2 : Z) :
  bounded m1 e1 = true -> bounded m2 e2 = true ->
  SFleb (S754_finite false m1 e1) (S754_finite false m2 e2) = true ->
  IZR (Zpos m1) * bpow e1 <= IZR (Zpos m2) * bpow e2.
Proof.
  intros V1 V2. apply bounded_canonical in V1, V2.
  destruct V1 as (C1 & U1 & L1 & D1), V2 as (C2 & U2 & L2 & D2).
  unfold SFleb. cbn [SFcompare]. change (Pos.compare_cont Eq) with Pos.compare.
  destruct (Z.compare_spec e1 e2) as [E|E|E]; try discriminate.
  - subst e2. destruct (Pos.compare_spec m1 m2) as [P|P|P]; try discriminate; intros _.
    + subst. lra.
    + pose proof (bpow_pos e1). apply Rmult_le_compat_r; [lra|]. apply IZR_le. lia.
  - intros _.
    destruct (F2R_bounds (Zpos m1) e1 ltac:(lia)) as [_ A]. rewrite plus_IZR in A.
    destruct (F2R_bounds (Zpos m2) e2 ltac:(lia)) as [B _].
    assert (Zdigits2 (Zpos m2) = 53)%Z by (rewrite fexp_eq in *; lia).
    assert (bpow (Zdigits2 (Zpos m1) + e1) <= bpow (Zdigits2 (Zpos m2) + e2 - 1))
      by (apply bpow_le; lia).
    pose proof (bpow_pos e1). lra.
Qed.

(** Rounding leaves a valid number unchanged. *)
Lemma bra_id (m : positive) (e : Z) :
  bounded m e = true ->
  binary_round_aux prec emax false (Zpos m) e loc_Exact = S754_finite false m e.
Proof.
  intros V. pose proof (bounded_canonical m e V) as (C & U & L & D).
  rewrite bra_unfold.
  assert (S : shr_fexp prec emax (Zpos m) e loc_Exact
              = (shr_record_of_loc (Zpos m) loc_Exact, e)).
  { unfold shr_fexp, shr. replace (fexp (Zdigits2 (Zpos m) + e) - e)%Z with 0%Z by lia.
    reflexivity. }
  rewrite S. cbn [shr_record_of_loc shr_m loc_of_shr_record round_nearest_even].
  rewrite S. unfold finish. cbn [shr_record_of_loc shr_m].
  change (emax - prec)%Z with 971%Z.
  destruct (Z.leb_spec e 971); [reflexivity|lia].
Qed.

(** The product of two valid mantissas sits at or below its canonical exponent. *)
Lemma mul_precanonical (mx my : positive) (ex ey : Z) :
  bounded mx ex = true -> bounded my ey = true ->
  (ex + ey <= fexp (Zdigits2 (Zpos (mx * my)) + (ex + ey)))%Z.
Proof.
  intros Vx Vy. apply bounded_canonical in Vx, Vy.
  destruct Vx as (Cx & Ux & Lx & Dx), Vy as (Cy & Uy & Ly & Dy).
  destruct (Zdigits2_bounds (Zpos mx) ltac:(lia)) as [[X1 X2] PX].
  destruct (Zdigits2_bounds (Zpos my) ltac:(lia)) as [[Y1 Y2] PY].
  destruct (Zdigits2_bounds (Zpos (mx * my)) ltac:(lia)) as [[P1 P2] PP].
  set (dp := Zdigits2 (Zpos (mx * my))) in *.
  assert (G : (Zdigits2 (Zpos mx) + Zdigits2 (Zpos my) - 1 <= dp)%Z).
  { destruct (Z_le_gt_dec (Zdigits2 (Zpos mx) + Zdigits2 (Zpos my) - 1) dp)
      as [G|G]; [exact G|exfalso].
    assert (2 ^ dp <= 2 ^ (Zdigits2 (Zpos mx) - 1 + (Zdigits2 (Zpos my) - 1)))%Z
      by (apply Z.pow_le_mono_r; lia).
    rewrite Z.pow_add_r in H by lia.
    rewrite Pos2Z.inj_mul in P2.
    assert (2 ^ (Zdigits2 (Zpos mx) - 1) * 2 ^ (Zdigits2 (Zpos my) - 1)
            <= Zpos mx * Zpos my)%Z by (apply Z.mul_le_mono_nonneg; lia).
    lia. }
  rewrite fexp_eq in *. lia.
Qed.

(** *** The square root before rounding *)

Lemma sq_lt (a b : R) : 0 <= a -> 0 <= b -> a * a < b * b -> a < b.
Proof. intros Ha Hb H. destruct (Rlt_le_dec a b) as [L|L]; [exact L|]. nra. Qed.

Lemma sq_le (a b : R) : 0 <= a -> 0 <= b -> a * a <= b * b -> a <= b.
Proof. intros Ha Hb H. destruct (Rle_lt_dec a b) as [L|L]; [exact L|]. nra. Qed.

Lemma sqrt_bpow2 (t : R) (e : Z) : 0 <= t -> sqrt (t * bpow (2 * e)) = sqrt t * bpow e.
Proof.
  intros Ht. pose proof (bpow_pos e) as B.
  replace (2 * e)%Z with (e + e)%Z by lia. rewrite bpow_add.
  rewrite sqrt_mult by nra. rewrite sqrt_square by lra. reflexivity.
Qed.

(** The integer square root of the scaled mantissa, as [SFsqrt] prepares it
    for rounding. *)
Lemma sqrt_core_ok (m : positive) (e : Z) :
  forall q e' l,
    SFsqrt_core_binary prec emax (Zpos m) e = (q, e', l) ->
    (0 <= q)%Z /\
    loc_ok q e' l (sqrt (IZR (Zpos m) * bpow e)) /\
    (e' <= fexp (Zdigits2 q + e'))%Z.
Proof.
  intros q e' l. unfold SFsqrt_core_binary.
  set (d := Zdigits2 (Zpos m)).
  set (g := Z.div2 (d + e + 1)).
  set (e0 := Z.min (fexp g) (Z.div2 e)).
  set (s := (e - 2 * e0)%Z).
  assert (Hg : (2 * g <= d + e + 1 <= 2 * g + 1)%Z).
  { unfold g. rewrite Z.div2_div. pose proof (Z.div_mod (d + e + 1) 2 ltac:(lia)).
    pose proof (Z.mod_pos_bound (d + e + 1) 2 ltac:(lia)). lia. }
  assert (He : (2 * Z.div2 e <= e)%Z).
  { rewrite Z.div2_div. pose proof (Z.div_mod e 2 ltac:(lia)).
    pose proof (Z.mod_pos_bound e 2 ltac:(lia)). lia. }
  assert (Hs : (0 <= s)%Z) by (unfold s, e0; lia).
  set (m' := match s with Zpos _ => Z.shiftl (Zpos m) s | Z0 => Zpos m | Zneg _ => 0%Z end).
  assert (Em : m' = (Zpos m * 2 ^ s)%Z).
  { unfold m'. destruct s as [|p|p]; try lia.
    rewrite Z.shiftl_mul_pow2 by lia. reflexivity. }
  assert (Pm : (0 < m')%Z) by (rewrite Em; apply Z.mul_pos_pos; [lia|apply Z.pow_pos_nonneg; lia]).
  pose proof (Z.sqrtrem_spec m' ltac:(lia)) as SR.
  destruct (Z.sqrtrem m') as [q0 r0]. destruct SR as [SR Hr].
  intros [= <- <- <-].
  assert (Hq : (0 < q0)%Z) by nia.
  split; [lia|].
  set (x := sqrt (IZR (Zpos m) * bpow e)).
  set (T := sqrt (IZR m')).
  assert (P' : 0 < IZR m') by (apply IZR_lt; lia).
  assert (T0 : 0 <= T) by (apply sqrt_pos).
  assert (TT : T * T = IZR m') by (apply sqrt_sqrt; lra).
  assert (Ex : x = T * bpow e0).
  { unfold x, T. rewrite <- sqrt_bpow2 by lra. f_equal.
    rewrite Em, mult_IZR, <- bpow_IZR by lia.
    replace e with (s + 2 * e0)%Z at 1 by (unfold s; lia).
    rewrite bpow_add. ring. }
  assert (Q0 : 0 < IZR q0) by (apply IZR_lt; lia).
  assert (EQ : T * T = IZR q0 * IZR q0 + IZR r0).
  { rewrite TT, SR, plus_IZR, mult_IZR. reflexivity. }
  assert (L : loc_ok q0 e0
                (if (r0 =? 0)%Z then loc_Exact
                 else loc_Inexact (if (r0 <=? q0)%Z then Lt else Gt)) x).
  { rewrite Ex. apply loc_ok_scale.
    destruct (Z.eqb_spec r0 0) as [Z0|NZ].
    - subst r0. cbn [loc_ok]. rewrite bpow_0, Rmult_1_r.
      assert (T <= IZR q0) by (apply sq_le; lra).
      assert (IZR q0 <= T) by (apply sq_le; lra). lra.
    - assert (R1 : 1 <= IZR r0) by (apply IZR_le; lia).
      assert (R2 : IZR r0 <= 2 * IZR q0) by (rewrite <- mult_IZR; apply IZR_le; lia).
      assert (G1 : IZR q0 < T) by (apply sq_lt; lra).
      assert (G2 : T < IZR q0 + 1) by (apply sq_lt; nra).
      destruct (Z.leb_spec r0 q0) as [C|C]; cbn [loc_ok]; rewrite bpow_0.
      + apply IZR_le in C. split; [lra|].
        assert (T < IZR q0 + /2) by (apply sq_lt; nra). lra.
      + assert (C' : (q0 + 1 <= r0)%Z) by lia. apply IZR_le in C'. rewrite plus_IZR in C'.
        split; [|lra].
        assert (IZR q0 + /2 < T) by (apply sq_lt; nra). lra. }
  split; [exact L|].
  (* the exponent is not above the canonical one *)
  destruct (F2R_bounds (Zpos m) e ltac:(lia)) as [X1 _]. fold d in X1.
  assert (X0 : 0 <= x) by (apply sqrt_pos).
  assert (XX : x * x = IZR (Zpos m) * bpow e).
  { apply sqrt_sqrt. pose proof (bpow_pos e).
    assert (0 < IZR (Zpos m)) by (apply IZR_lt; lia). nra. }
  assert (LB : bpow (g - 1) <= x).
  { apply sq_le; [pose proof (bpow_pos (g - 1)); lra|exact X0|].
    rewrite <- bpow_add, XX.
    assert (bpow (g - 1 + (g - 1)) <= bpow (d + e - 1)) by (apply bpow_le; lia). lra. }
  pose proof (loc_ok_cell _ _ _ _ L) as [_ U].
  destruct (F2R_bounds q0 e0 Hq) as [_ Q2]. rewrite plus_IZR in Q2.
  assert (bpow (g - 1) < bpow (Zdigits2 q0 + e0)) by lra.
  apply bpow_lt_inv in H.
  pose proof (fexp_mono g (Zdigits2 q0 + e0) ltac:(lia)).
  unfold e0 in *. lia.
Qed.

(** *** Non-negative numbers *)

Lemma SFleb_zero_l f : nns f -> SFleb (S754_zero false) f = true.
Proof. destruct f as [[|]|[|]| |[|] m e]; simpl; tauto. Qed.

Lemma SFleb_inf_r f : nns f -> SFleb f (S754_infinity false) = true.
Proof. destruct f as [[|]|[|]| |[|] m e]; simpl; tauto. Qed.

Lemma fin_nns (a e : Z) : (0 <= a)%Z -> nns (fin a e).
Proof.
  intros H. unfold fin. destruct a; try lia; [exact I|].
  destruct (e <=? emax - prec)%Z; exact I.
Qed.

(** Rounding a non-negative real gives a non-negative number. *)
Lemma bra_nns (m e : Z) (l : location) (x : R) :
  (0 <= m)%Z -> loc_ok m e l x -> (e <= fexp (Zdigits2 m + e))%Z ->
  nns (binary_round_aux prec emax false m e l).
Proof.
  intros Hm H Hc.
  destruct (bra_shape m e l x Hm H Hc) as (a & k & A & B & N & ->).
  unfold out. destruct (RNE_cases a k) as [-> | ->];
    match goal with |- context [Z.eqb ?u ?v] => destruct (Z.eqb u v) end;
    apply fin_nns; lia.
Qed.

(** *** Square root *)

Lemma SFsqrt_finite (m : positive) (e : Z) :
  exists q e' l,
    SFsqrt prec emax (S754_finite false m e) = binary_round_aux prec emax false q e' l /\
    (0 <= q)%Z /\ loc_ok q e' l (sqrt (IZR (Zpos m) * bpow e)) /\
    (e' <= fexp (Zdigits2 q + e'))%Z.
Proof.
  cbn [SFsqrt].
  destruct (SFsqrt_core_binary prec emax (Zpos m) e) as [[q e'] l] eqn:E.
  exists q, e', l. split; [reflexivity|]. apply sqrt_core_ok. exact E.
Qed.

Lemma SFsqrt_nns f : nns f -> nns (SFsqrt prec emax f).
Proof.
  destruct f as [[|]|[|]| |[|] m e]; try (simpl; tauto). intros _.
  destruct (SFsqrt_finite m e) as (q & e' & l & -> & Hq & L & C).
  eapply bra_nns; eassumption.
Qed.

Lemma SFsqrt_mono a b :
  nn a -> nn b -> SFleb a b = true ->
  SFleb (SFsqrt prec emax a) (SFsqrt prec emax b) = true.
Proof.
  intros [Sa Va] [Sb Vb] H.
  destruct a as [[|]|[|]| |[|] ma ea]; try (simpl in Sa; tauto).
  - apply SFleb_zero_l. apply SFsqrt_nns. exact Sb.
  - destruct b as [[|]|[|]| |[|] mb eb]; try (simpl in Sb; tauto); try discriminate;
      reflexivity.
  - destruct b as [[|]|[|]| |[|] mb eb]; try (simpl in Sb; tauto); try discriminate.
    + apply SFleb_inf_r. apply SFsqrt_nns. exact I.
    + destruct (SFsqrt_finite ma ea) as (q1 & e1 & l1 & -> & Hq1 & L1 & C1).
      destruct (SFsqrt_finite mb eb) as (q2 & e2 & l2 & -> & Hq2 & L2 & C2).
      eapply bra_mono; try eassumption.
      apply sqrt_le_1_alt. apply SFleb_val; assumption.
Qed.

(** *** Division *)

Lemma SFdiv_finite (mx my : positive) (ex ey : Z) :
  exists q e' l,
    SFdiv prec emax (S754_finite false mx ex) (S754_finite false my ey)
    = binary_round_aux prec emax false q e' l /\
    (0 <= q)%Z /\
    loc_ok q e' l ((IZR (Zpos mx) * bpow ex) / (IZR (Zpos my) * bpow ey)) /\
    (e' <= fexp (Zdigits2 q + e'))%Z.
Proof.
  cbn [SFdiv xorb].
  destruct (SFdiv_core_binary prec emax (Zpos mx) ex (Zpos my) ey) as [[q e'] l] eqn:E.
  exists q, e', l. split; [reflexivity|]. apply div_core_ok. exact E.
Qed.

Lemma SFdiv_nns_finite f (my : positive) (ey : Z) :
  nns f -> nns (SFdiv prec emax f (S754_finite false my ey)).
Proof.
  destruct f as [[|]|[|]| |[|] m e]; try (simpl; tauto). intros _.
  destruct (SFdiv_finite m my e ey) as (q & e' & l & -> & Hq & L & C).
  eapply bra_nns; eassumption.
Qed.

Lemma val_pos (m : positive) (e : Z) : 0 < IZR (Zpos m) * bpow e.
Proof.
  pose proof (bpow_pos e). assert (0 < IZR (Zpos m)) by (apply IZR_lt; lia). nra.
Qed.

(** Dividing by a fixed positive number is monotone. *)
Lemma SFdiv_mono_l a b (my : positive) (ey : Z) :
  nn a -> nn b -> SFleb a b = true ->
  SFleb (SFdiv prec emax a (S754_finite false my ey))
        (SFdiv prec emax b (S754_finite false my ey)) = true.
Proof.
  intros [Sa Va] [Sb Vb] H.
  destruct a as [[|]|[|]| |[|] ma ea]; try (simpl in Sa; tauto).
  - apply SFleb_zero_l. apply SFdiv_nns_finite. exact Sb.
  - destruct b as [[|]|[|]| |[|] mb eb]; try (simpl in Sb; tauto); try discriminate;
      reflexivity.
  - destruct b as [[|]|[|]| |[|] mb eb]; try (simpl in Sb; tauto); try discriminate.
    + apply SFleb_inf_r. apply SFdiv_nns_finite. exact I.
    + destruct (SFdiv_finite ma my ea ey) as (q1 & e1 & l1 & -> & Hq1 & L1 & C1).
      destruct (SFdiv_finite mb my eb ey) as (q2 & e2 & l2 & -> & Hq2 & L2 & C2).
      eapply bra_mono; try eassumption.
      pose proof (val_pos my ey). pose proof (SFleb_val _ _ _ _ Va Vb H).
      unfold Rdiv. apply Rmult_le_compat_r; [|assumption].
      apply Rlt_le, Rinv_0_lt_compat. assumption.
Qed.

(** Dividing a fixed positive number is antitone in the divisor, which may
    be +infinity. *)
Lemma SFdiv_anti_r (mx : positive) (ex : Z) a b :
  nn a -> nn b -> a <> S754_zero false -> SFleb a b = true ->
  SFleb (SFdiv prec emax (S754_finite false mx ex) b)
        (SFdiv prec emax (S754_finite false mx ex) a) = true.
Proof.
  intros [Sa Va] [Sb Vb] NZ H.
  destruct a as [[|]|[|]| |[|] ma ea]; try (simpl in Sa; tauto); try congruence.
  - destruct b as [[|]|[|]| |[|] mb eb]; try (simpl in Sb; tauto); try discriminate;
      reflexivity.
  - destruct b as [[|]|[|]| |[|] mb eb]; try (simpl in Sb; tauto); try discriminate.
    + apply SFleb_zero_l. apply (SFdiv_nns_finite (S754_finite false mx ex)). exact I.
    + destruct (SFdiv_finite mx ma ex ea) as (q1 & e1 & l1 & -> & Hq1 & L1 & C1).
      destruct (SFdiv_finite mx mb ex eb) as (q2 & e2 & l2 & -> & Hq2 & L2 & C2).
      eapply bra_mono; try eassumption.
      pose proof (val_pos ma ea). pose proof (val_pos mb eb). pose proof (val_pos mx ex).
      pose proof (SFleb_val _ _ _ _ Va Vb H).
      unfold Rdiv. apply Rmult_le_compat_l; [lra|].
      apply Rinv_le_contravar; assumption.
Qed.

(** *** Multiplication by a fixed positive number *)

Lemma SFmul_finite (mx my : positive) (ex ey : Z) :
  SFmul prec emax (S754_finite false mx ex) (S754_finite false my ey)
  = binary_round_aux prec emax false (Zpos (mx * my)) (ex + ey) loc_Exact /\
  loc_ok (Zpos (mx * my)) (ex + ey) loc_Exact
    ((IZR (Zpos mx) * bpow ex) * (IZR (Zpos my) * bpow ey)).
Proof.
  split; [reflexivity|]. cbn [loc_ok].
  rewrite Pos2Z.inj_mul, mult_IZR, bpow_add. ring.
Qed.

Lemma SFmul_nns_finite f (my : positive) (ey : Z) :
  nn f -> bounded my ey = true -> nns (SFmul prec emax f (S754_finite false my ey)).
Proof.
  intros [S V] Vy.
  destruct f as [[|]|[|]| |[|] m e]; try (simpl in *; tauto).
  destruct (SFmul_finite m my e ey) as [-> L].
  eapply bra_nns; [lia|exact L|]. apply mul_precanonical; assumption.
Qed.

Lemma SFmul_mono_l a b (my : positive) (ey : Z) :
  nn a -> nn b -> bounded my ey = true -> SFleb a b = true ->
  SFleb (SFmul prec emax a (S754_finite false my ey))
        (SFmul prec emax b (S754_finite false my ey)) = true.
Proof.
  intros [Sa Va] [Sb Vb] Vy H.
  destruct a as [[|]|[|]| |[|] ma ea]; try (simpl in Sa; tauto).
  - apply SFleb_zero_l. apply SFmul_nns_finite; [split|]; assumption.
  - destruct b as [[|]|[|]| |[|] mb eb]; try (simpl in Sb; tauto); try discriminate;
      reflexivity.
  - destruct b as [[|]|[|]| |[|] mb eb]; try (simpl in Sb; tauto); try discriminate.
    + apply SFleb_inf_r. apply SFmul_nns_finite; [split|]; assumption.
    + destruct (SFmul_finite ma my ea ey) as [-> L1].
      destruct (SFmul_finite mb my eb ey) as [-> L2].
      eapply bra_mono; try eassumption; try lia;
        try (apply mul_precanonical; assumption).
      pose proof (val_pos my ey). pose proof (SFleb_val _ _ _ _ Va Vb H).
      apply Rmult_le_compat_r; lra.
Qed.

(** *** Integers and [Math.ceil] *)

Lemma iter_xO (m d : positive) : Zpos (Pos.iter xO m d) = (Zpos m * 2 ^ Zpos d)%Z.
Proof.
  induction d as [|d IH] using Pos.peano_ind.
  - cbn [Pos.iter]. lia.
  - rewrite Pos.iter_succ, Pos2Z.inj_xO, IH, Pos2Z.inj_succ, Z.pow_succ_r by lia. ring.
Qed.

(** An integer is rounded from a mantissa at or below its canonical exponent. *)
Lemma binary_normalize_pos (p : positive) :
  exists mz ez,
    binary_normalize prec emax (Zpos p) 0 false
    = binary_round_aux prec emax false (Zpos mz) ez loc_Exact /\
    loc_ok (Zpos mz) ez loc_Exact (IZR (Zpos p)) /\
    (ez <= fexp (Zdigits2 (Zpos mz) + ez))%Z.
Proof.
  cbn [binary_normalize]. unfold binary_round, shl_align.
  change (Zpos (digits2_pos p)) with (Zdigits2 (Zpos p)).
  rewrite Z.add_0_r.
  destruct (fexp (Zdigits2 (Zpos p)) - 0)%Z as [|d|d] eqn:E.
  - exists p, 0%Z. split; [reflexivity|]. cbn [loc_ok]. rewrite bpow_0. split; [lra|].
    rewrite Z.add_0_r. lia.
  - exists p, 0%Z. split; [reflexivity|]. cbn [loc_ok]. rewrite bpow_0. split; [lra|].
    rewrite Z.add_0_r. lia.
  - exists (Pos.iter xO p d), (fexp (Zdigits2 (Zpos p))). split; [reflexivity|].
    assert (Ee : fexp (Zdigits2 (Zpos p)) = Zneg d) by lia.
    split.
    + cbn [loc_ok]. rewrite iter_xO, mult_IZR, <- bpow_IZR by lia.
      rewrite Ee, Rmult_assoc, <- bpow_add.
      replace (Zpos d + Zneg d)%Z with 0%Z by lia. rewrite bpow_0. lra.
    + assert (D : Zdigits2 (Zpos (Pos.iter xO p d)) = (Zdigits2 (Zpos p) + Zpos d)%Z).
      { destruct (Zdigits2_bounds (Zpos p) ltac:(lia)) as [[L U] P].
        apply Zdigits2_unique; [lia|]. rewrite iter_xO.
        replace (Zdigits2 (Zpos p) + Zpos d - 1)%Z with ((Zdigits2 (Zpos p) - 1) + Zpos d)%Z
          by lia.
        rewrite !Z.pow_add_r by lia.
        assert (0 < 2 ^ Zpos d)%Z by (apply Z.pow_pos_nonneg; lia). nia. }
      rewrite D. rewrite Ee at 2.
      replace (Zdigits2 (Zpos p) + Zpos d + Zneg d)%Z with (Zdigits2 (Zpos p)) by lia. lia.
Qed.

(** The integers below [2^63] round to valid numbers: they are the values
    of the conversion from 63-bit integers. *)
Lemma binary_normalize_valid (n : Z) :
  (0 <= n < 2 ^ 63)%Z -> valid_binary (binary_normalize prec emax n 0 false) = true.
Proof.
  intros H.
  replace n with (Uint63.to_Z (Uint63.of_Z n)).
  - rewrite <- of_uint63_spec. apply Prim2SF_valid.
  - rewrite Uint63.of_Z_spec. apply Z.mod_small.
    change Uint63.wB with (2 ^ 63)%Z. lia.
Qed.

Lemma Prim2SF_of_Z_pos (n : Z) :
  (0 < n < 2 ^ 63)%Z ->
  Prim2SF (of_Z n) = binary_normalize prec emax n 0 false.
Proof.
  intros H. unfold of_Z, of_SF. apply Prim2SF_SF2Prim, binary_normalize_valid. lia.
Qed.

(** [ceil] of a positive finite number is a correctly represented integer
    [n] with [x <= n < x + 1]. *)
Lemma ceil_finite (x : float) (m : positive) (e : Z) :
  Prim2SF x = S754_finite false m e -> bounded m e = true ->
  exists (n : Z) (M : positive) (E : Z),
    Prim2SF (ceil x) = binary_round_aux prec emax false (Zpos M) E loc_Exact /\
    loc_ok (Zpos M) E loc_Exact (IZR n) /\
    (E <= fexp (Zdigits2 (Zpos M) + E))%Z /\
    IZR (Zpos m) * bpow e <= IZR n < IZR (Zpos m) * bpow e + 1.
Proof.
  intros Ex V. pose proof (bounded_canonical m e V) as (C & U & L & D).
  destruct (Zdigits2_bounds (Zpos m) ltac:(lia)) as [[_ Um] _].
  assert (Um' : (Zpos m < 2 ^ 53)%Z).
  { assert (2 ^ Zdigits2 (Zpos m) <= 2 ^ 53)%Z by (apply Z.pow_le_mono_r; lia). lia. }
  unfold ceil. rewrite Ex.
  destruct e as [|pe|k].
  - exists (Zpos m), m, 0%Z. rewrite Ex, bra_id by exact V.
    split; [reflexivity|]. cbn [loc_ok]. rewrite bpow_0.
    split; [lra|]. split; [lia|]. lra.
  - exists (Zpos m * 2 ^ Zpos pe)%Z, m, (Zpos pe). rewrite Ex, bra_id by exact V.
    split; [reflexivity|]. cbn [loc_ok]. rewrite mult_IZR, <- bpow_IZR by lia.
    split; [lra|]. split; [lia|]. lra.
  - set (q := Z.shiftr (Zpos m) (Zpos k)).
    assert (Eq : q = (Zpos m / 2 ^ Zpos k)%Z) by (apply Z.shiftr_div_pow2; lia).
    assert (P2 : (0 < 2 ^ Zpos k)%Z) by (apply Z.pow_pos_nonneg; lia).
    pose proof (Z.div_mod (Zpos m) (2 ^ Zpos k) ltac:(lia)) as DM.
    pose proof (Z.mod_pos_bound (Zpos m) (2 ^ Zpos k) P2) as MB.
    rewrite <- Eq in DM. set (r := (Zpos m mod 2 ^ Zpos k)%Z) in *.
    assert (Hq : (0 <= q)%Z) by (rewrite Eq; apply Z.div_pos; lia).
    assert (Bk : bpow (Zneg k) * IZR (2 ^ Zpos k) = 1).
    { rewrite <- bpow_IZR, <- bpow_add by lia.
      replace (Zneg k + Zpos k)%Z with 0%Z by lia. apply bpow_0. }
    assert (Pk : 0 < IZR (2 ^ Zpos k)) by (apply IZR_lt; lia).
    assert (Bp : 0 < bpow (Zneg k)) by apply bpow_pos.
    assert (EV : IZR (Zpos m) * bpow (Zneg k) = IZR q + IZR r * bpow (Zneg k)).
    { rewrite DM at 1. rewrite plus_IZR, mult_IZR. 
      replace ((IZR (2 ^ Zpos k) * IZR q + IZR r) * bpow (Zneg k))
        with (IZR q * (bpow (Zneg k) * IZR (2 ^ Zpos k)) + IZR r * bpow (Zneg k)) by ring.
      rewrite Bk. ring. }
    assert (R0 : 0 <= IZR r) by (apply IZR_le; lia).
    assert (R1 : IZR r * bpow (Zneg k) < 1).
    { rewrite <- Bk. rewrite (Rmult_comm (bpow (Zneg k))).
      apply Rmult_lt_compat_r; [exact Bp|]. apply IZR_lt. lia. }
    rewrite Z.shiftl_mul_pow2 by lia.
    destruct (Z.eqb_spec (q * 2 ^ Zpos k) (Zpos m)) as [T|F].
    + assert (r = 0)%Z by lia. assert (0 < q)%Z by nia.
      destruct q as [|pq|pq] eqn:Q; try lia.
      destruct (binary_normalize_pos pq) as (M & E & N1 & N2 & N3).
      exists (Zpos pq), M, E. rewrite Prim2SF_of_Z_pos by nia.
      split; [exact N1|]. split; [exact N2|]. split; [exact N3|].
      rewrite EV, H. replace (IZR 0) with 0 by reflexivity. lra.
    + assert (0 < r)%Z by nia.
      assert (R2 : 0 < IZR r * bpow (Zneg k)).
      { apply Rmult_lt_0_compat; [apply IZR_lt; lia|exact Bp]. }
      destruct (q + 1)%Z as [|pq|pq] eqn:Q; try lia.
      destruct (binary_normalize_pos pq) as (M & E & N1 & N2 & N3).
      exists (Zpos pq), M, E. rewrite Prim2SF_of_Z_pos by nia.
      split; [exact N1|]. split; [exact N2|]. split; [exact N3|].
      rewrite EV, <- Q, plus_IZR. lra.
Qed.

Lemma nn_prim (x : float) : nns (Prim2SF x) -> nn (Prim2SF x).
Proof. intros H. split; [exact H|apply Prim2SF_valid]. Qed.

Lemma ceil_nns (x : float) : nn (Prim2SF x) -> nns (Prim2SF (ceil x)).
Proof.
  intros [S V].
  destruct (Prim2SF x) as [[|]|[|]| |[|] m e] eqn:Ex; try (simpl in S; tauto).
  - unfold ceil. rewrite Ex, Ex. exact I.
  - unfold ceil. rewrite Ex, Ex. exact I.
  - destruct (ceil_finite x m e Ex V) as (n & M & E & -> & L & C & _).
    eapply bra_nns; [|exact L|exact C]. lia.
Qed.

(** [Math.ceil] is monotone on the non-negative numbers. *)
Lemma ceil_leb_mono (a b : float) :
  nn (Prim2SF a) -> nn (Prim2SF b) ->
  SFleb (Prim2SF a) (Prim2SF b) = true ->
  SFleb (Prim2SF (ceil a)) (Prim2SF (ceil b)) = true.
Proof.
  intros Na Nb H.
  pose proof (ceil_nns a Na) as Ca. pose proof (ceil_nns b Nb) as Cb.
  destruct Na as [Sa Va], Nb as [Sb Vb].
  destruct (Prim2SF a) as [[|]|[|]| |[|] ma ea] eqn:Ea; try (simpl in Sa; tauto).
  - assert (E : Prim2SF (ceil a) = S754_zero false) by (unfold ceil; rewrite Ea; exact Ea).
    rewrite E. apply SFleb_zero_l. exact Cb.
  - destruct (Prim2SF b) as [[|]|[|]| |[|] mb eb] eqn:Eb; try (simpl in Sb; tauto);
      try discriminate.
    assert (E : Prim2SF (ceil b) = S754_infinity false) by (unfold ceil; rewrite Eb; exact Eb).
    rewrite E. apply SFleb_inf_r. exact Ca.
  - destruct (Prim2SF b) as [[|]|[|]| |[|] mb eb] eqn:Eb; try (simpl in Sb; tauto);
      try discriminate.
    + assert (E : Prim2SF (ceil b) = S754_infinity false)
        by (unfold ceil; rewrite Eb; exact Eb).
      rewrite E. apply SFleb_inf_r. exact Ca.
    + destruct (ceil_finite a ma ea Ea Va) as (na & Ma & Ea' & -> & La & Pa & Ba).
      destruct (ceil_finite b mb eb Eb Vb) as (nb & Mb & Eb' & -> & Lb & Pb & Bb).
      eapply bra_mono; try eassumption; try lia.
      pose proof (SFleb_val _ _ _ _ Va Vb H) as VV.
      assert (IZR na < IZR nb + 1) by lra.
      rewrite <- plus_IZR in H0. apply lt_IZR in H0. apply IZR_le. lia.
Qed.

(** *** The footing side *)

Lemma Prim2SF_ten : Prim2SF (of_Q 10) = S754_finite false 5629499534213120 (-49).
Proof. vm_compute. reflexivity. Qed.

Lemma SFdiv_nns (mx : positive) (ex : Z) f :
  nns f -> f <> S754_zero false ->
  nns (SFdiv prec emax (S754_finite false mx ex) f).
Proof.
  destruct f as [[|]|[|]| |[|] m e]; try (simpl; tauto); intros _ NZ; try congruence.
  apply (SFdiv_nns_finite (S754_finite false mx ex)). exact I.
Qed.

(** The side [ceil(sqrt(load / soil) * 10) / 10] is antitone in the soil
    capacity: each of its five operations is monotone. *)
Lemma side_leb_antitone (load s1 s2 : float) (m : positive) (e : Z) :
  Prim2SF load = S754_finite false m e ->
  nns (Prim2SF s1) -> Prim2SF s1 <> S754_zero false ->
  nns (Prim2SF s2) -> Prim2SF s2 <> S754_zero false ->
  SFleb (Prim2SF s1) (Prim2SF s2) = true ->
  SFleb (Prim2SF (ceil (PrimFloat.sqrt (load / s2) * of_Q 10) / of_Q 10))
        (Prim2SF (ceil (PrimFloat.sqrt (load / s1) * of_Q 10) / of_Q 10)) = true.
Proof.
  intros El S1 Z1 S2 Z2 H. 
  assert (Vc : bounded 5629499534213120 (-49) = true) by reflexivity.
  (* area *)
  assert (A : SFleb (Prim2SF (load / s2)) (Prim2SF (load / s1)) = true).
  { rewrite !FloatAxioms.div_spec, El. apply SFdiv_anti_r; try (apply nn_prim); assumption. }
  assert (NA1 : nn (Prim2SF (load / s1)))
    by (apply nn_prim; rewrite FloatAxioms.div_spec, El; apply SFdiv_nns; assumption).
  assert (NA2 : nn (Prim2SF (load / s2)))
    by (apply nn_prim; rewrite FloatAxioms.div_spec, El; apply SFdiv_nns; assumption).
  (* square root *)
  assert (R : SFleb (Prim2SF (PrimFloat.sqrt (load / s2))) (Prim2SF (PrimFloat.sqrt (load / s1))) = true).
  { rewrite !FloatAxioms.sqrt_spec. apply SFsqrt_mono; assumption. }
  assert (NR1 : nn (Prim2SF (PrimFloat.sqrt (load / s1))))
    by (apply nn_prim; rewrite FloatAxioms.sqrt_spec; apply SFsqrt_nns; apply NA1).
  assert (NR2 : nn (Prim2SF (PrimFloat.sqrt (load / s2))))
    by (apply nn_prim; rewrite FloatAxioms.sqrt_spec; apply SFsqrt_nns; apply NA2).
  (* times ten *)
  assert (T : SFleb (Prim2SF (PrimFloat.sqrt (load / s2) * of_Q 10)) (Prim2SF (PrimFloat.sqrt (load / s1) * of_Q 10)) = true).
  { rewrite !FloatAxioms.mul_spec, Prim2SF_ten. apply SFmul_mono_l; assumption. }
  assert (NT1 : nn (Prim2SF (PrimFloat.sqrt (load / s1) * of_Q 10)))
    by (apply nn_prim; rewrite FloatAxioms.mul_spec, Prim2SF_ten; apply SFmul_nns_finite; assumption).
  assert (NT2 : nn (Prim2SF (PrimFloat.sqrt (load / s2) * of_Q 10)))
    by (apply nn_prim; rewrite FloatAxioms.mul_spec, Prim2SF_ten; apply SFmul_nns_finite; assumption).
  (* ceiling *)
  pose proof (ceil_leb_mono _ _ NT2 NT1 T) as C.
  assert (NC1 : nn (Prim2SF (ceil (PrimFloat.sqrt (load / s1) * of_Q 10))))
    by (apply nn_prim, ceil_nns; assumption).
  assert (NC2 : nn (Prim2SF (ceil (PrimFloat.sqrt (load / s2) * of_Q 10))))
    by (apply nn_prim, ceil_nns; assumption).
  (* over ten *)
  rewrite !FloatAxioms.div_spec, Prim2SF_ten. apply SFdiv_mono_l; assumption.
Qed.

End RoundingFacts.

(** ** JavaScript numbers: NaN, order, [Math.max] and [Math.min] *)

Module NumberFacts.
Import Float64 Float64Facts Rounding RoundingFacts.
Local Abbreviation fexp := (SpecFloat.fexp prec emax).
Local Abbreviation bounded := (SpecFloat.bounded prec emax).

Lemma is_nan_true (x : float) : is_nan x = true <-> Prim2SF x = S754_nan.
Proof.
  unfold is_nan. rewrite eqb_spec. unfold SFeqb.
  destruct (Prim2SF x) as [[|]|[|]| |[|] m e]; simpl;
    rewrite ?Z.compare_refl, ?Pos.compare_cont_refl; simpl; split; congruence.
Qed.

Lemma is_nan_false (x : float) : is_nan x = false <-> Prim2SF x <> S754_nan.
Proof.
  pose proof (is_nan_true x) as T. destruct (is_nan x); split; intros H.
  - discriminate.
  - exfalso. apply H, T. reflexivity.
  - intros E. apply T in E. discriminate.
  - reflexivity.
Qed.

(** Two numbers are always comparable. *)
Lemma SFcompare_numbers (x y : spec_float) :
  x <> S754_nan -> y <> S754_nan -> exists c, SFcompare x y = Some c.
Proof.
  destruct x as [[|]|[|]| |[|] mx ex], y as [[|]|[|]| |[|] my ey]; simpl;
    intros; try congruence; eexists; reflexivity.
Qed.

Lemma ltb_false_leb (x y : float) :
  is_nan x = false -> is_nan y = false -> (x <? y)%float = false -> (y <=? x)%float = true.
Proof.
  rewrite !is_nan_false, ltb_spec, leb_spec. unfold SFltb, SFleb. intros Nx Ny.
  destruct (SFcompare_numbers _ _ Nx Ny) as [c E]. rewrite E.
  rewrite (SFcompare_antisym _ _ _ E). destruct c; simpl; congruence.
Qed.

Lemma leb_refl (x : float) : is_nan x = false -> (x <=? x)%float = true.
Proof.
  intros N. apply ltb_false_leb; try assumption. apply ltb_irrefl.
Qed.

Lemma leb_is_nan_l (x y : float) : (x <=? y)%float = true -> is_nan x = false.
Proof.
  rewrite is_nan_false, leb_spec. unfold SFleb.
  destruct (Prim2SF x) as [[|]|[|]| |[|] mx ex]; simpl; congruence.
Qed.

Lemma leb_is_nan_r (x y : float) : (x <=? y)%float = true -> is_nan y = false.
Proof.
  rewrite is_nan_false, leb_spec. unfold SFleb.
  destruct (Prim2SF x) as [[|]|[|]| |[|] mx ex],
           (Prim2SF y) as [[|]|[|]| |[|] my ey]; simpl; congruence.
Qed.

Lemma ltb_is_nan_l (x y : float) : (x <? y)%float = true -> is_nan x = false.
Proof. intros H. apply ltb_leb in H. exact (leb_is_nan_l _ _ H). Qed.

Lemma ltb_is_nan_r (x y : float) : (x <? y)%float = true -> is_nan y = false.
Proof. intros H. apply ltb_leb in H. exact (leb_is_nan_r _ _ H). Qed.

Lemma SFltb_leb_trans (x y z : spec_float) :
  SFleb x y = true -> SFltb y z = true -> SFltb x z = true.
Proof.
  unfold SFleb, SFltb.
  destruct x as [[|]|[|]| |[|] mx ex], y as [[|]|[|]| |[|] my ey],
           z as [[|]|[|]| |[|] mz ez]; simpl; try congruence;
    change (Pos.compare_cont Eq) with Pos.compare;
    intros H1 H2; split_compare; simpl in *; subst; try congruence; try lia.
Qed.

(** [x <= y] and [y < z] give [x < z]. *)
Lemma leb_ltb_trans (x y z : float) :
  (x <=? y)%float = true -> (y <? z)%float = true -> (x <? z)%float = true.
Proof. rewrite leb_spec, !ltb_spec. apply SFltb_leb_trans. Qed.

Lemma SFleb_ltb_trans (x y z : spec_float) :
  SFltb x y = true -> SFleb y z = true -> SFltb x z = true.
Proof.
  unfold SFleb, SFltb.
  destruct x as [[|]|[|]| |[|] mx ex], y as [[|]|[|]| |[|] my ey],
           z as [[|]|[|]| |[|] mz ez]; simpl; try congruence;
    change (Pos.compare_cont Eq) with Pos.compare;
    intros H1 H2; split_compare; simpl in *; subst; try congruence; try lia.
Qed.

(** [x < y] and [y <= z] give [x < z]. *)
Lemma ltb_leb_trans (x y z : float) :
  (x <? y)%float = true -> (y <=? z)%float = true -> (x <? z)%float = true.
Proof. rewrite leb_spec, !ltb_spec. apply SFleb_ltb_trans. Qed.

(** *** [Math.max] and [Math.min] of two numbers *)

Lemma max_numbers (x y : float) :
  is_nan x = false -> is_nan y = false ->
  (max x y = x \/ max x y = y) /\
  (x <=? max x y)%float = true /\ (y <=? max x y)%float = true.
Proof.
  intros Nx Ny. unfold max. rewrite Nx, Ny. cbn [orb].
  destruct (x <? y)%float eqn:L1.
  - split; [right; reflexivity|]. split; [apply ltb_leb; exact L1|apply leb_refl; exact Ny].
  - pose proof (ltb_false_leb _ _ Nx Ny L1) as G1.
    destruct (y <? x)%float eqn:L2.
    + split; [left; reflexivity|]. split; [apply leb_refl; exact Nx|exact G1].
    + pose proof (ltb_false_leb _ _ Ny Nx L2) as G2.
      destruct (get_sign x).
      * split; [right; reflexivity|]. split; [exact G2|apply leb_refl; exact Ny].
      * split; [left; reflexivity|]. split; [apply leb_refl; exact Nx|exact G1].
Qed.

Lemma min_numbers (x y : float) :
  is_nan x = false -> is_nan y = false ->
  (min x y = x \/ min x y = y) /\
  (min x y <=? x)%float = true /\ (min x y <=? y)%float = true.
Proof.
  intros Nx Ny. unfold min. rewrite Nx, Ny. cbn [orb].
  destruct (x <? y)%float eqn:L1.
  - split; [left; reflexivity|]. split; [apply leb_refl; exact Nx|apply ltb_leb; exact L1].
  - pose proof (ltb_false_leb _ _ Nx Ny L1) as G1.
    destruct (y <? x)%float eqn:L2.
    + split; [right; reflexivity|]. split; [exact G1|apply leb_refl; exact Ny].
    + pose proof (ltb_false_leb _ _ Ny Nx L2) as G2.
      destruct (get_sign x).
      * split; [left; reflexivity|]. split; [apply leb_refl; exact Nx|exact G2].
      * split; [right; reflexivity|]. split; [exact G1|apply leb_refl; exact Ny].
Qed.

Lemma max_is_nan (x y : float) :
  is_nan x = false -> is_nan y = false -> is_nan (max x y) = false.
Proof.
  intros Nx Ny. destruct (max_numbers x y Nx Ny) as [[-> | ->] _]; assumption.
Qed.

Lemma min_is_nan (x y : float) :
  is_nan x = false -> is_nan y = false -> is_nan (min x y) = false.
Proof.
  intros Nx Ny. destruct (min_numbers x y Nx Ny) as [[-> | ->] _]; assumption.
Qed.

(** NaN in, NaN out. *)
Lemma max_nan_l (x y : float) : is_nan x = true -> max x y = nan.
Proof. intros N. unfold max. rewrite N. reflexivity. Qed.

Lemma max_nan_r (x y : float) : is_nan y = true -> max x y = nan.
Proof. intros N. unfold max. rewrite N, orb_true_r. reflexivity. Qed.

Lemma min_nan_r (x y : float) : is_nan y = true -> min x y = nan.
Proof. intros N. unfold min. rewrite N, orb_true_r. reflexivity. Qed.

(** *** The sign does not change how a number is rounded *)

Lemma bra_opp (m e : Z) (l : location) :
  binary_round_aux prec emax true m e l = SFopp (binary_round_aux prec emax false m e l).
Proof.
  unfold binary_round_aux.
  destruct (shr_fexp prec emax m e l) as [mrs' e'].
  destruct (shr_fexp prec emax _ e' loc_Exact) as [mrs'' e''].
  destruct (shr_m mrs''); try reflexivity.
  destruct (e'' <=? emax - prec)%Z; reflexivity.
Qed.

Lemma nns_not_nan (f : spec_float) : nns f -> f <> S754_nan.
Proof. destruct f; simpl; intros H; try discriminate. destruct H. Qed.

Lemma SFopp_not_nan (f : spec_float) : f <> S754_nan -> SFopp f <> S754_nan.
Proof. destruct f; simpl; congruence. Qed.

Lemma bra_not_nan (s : bool) (m e : Z) (l : location) (x : R) :
  (0 <= m)%Z -> loc_ok m e l x -> (e <= fexp (Zdigits2 m + e))%Z ->
  binary_round_aux prec emax s m e l <> S754_nan.
Proof.
  intros Hm H Hc. pose proof (nns_not_nan _ (bra_nns m e l x Hm H Hc)) as N.
  destruct s; [rewrite bra_opp; apply SFopp_not_nan|]; exact N.
Qed.

(** *** Arithmetic with a positive constant keeps numbers numbers *)

Lemma bounded_Prim2SF (x : float) (s : bool) (m : positive) (e : Z) :
  Prim2SF x = S754_finite s m e -> bounded m e = true.
Proof. intros E. pose proof (Prim2SF_valid x) as V. rewrite E in V. exact V. Qed.

Lemma mul_is_nan (x c : float) (mc : positive) (ec : Z) :
  Prim2SF c = S754_finite false mc ec ->
  is_nan x = false -> is_nan (x * c) = false.
Proof.
  intros Ec. rewrite !is_nan_false, FloatAxioms.mul_spec, Ec. unfold SF64mul.
  pose proof (bounded_Prim2SF c _ _ _ Ec) as Vc.
  destruct (Prim2SF x) as [[|]|[|]| |s m e] eqn:Ex; cbn [SFmul]; intros N;
    try (exfalso; apply N; reflexivity); try discriminate.
  pose proof (bounded_Prim2SF x _ _ _ Ex) as Vx.
  destruct (SFmul_finite m mc e ec) as [_ L].
  eapply bra_not_nan; [lia|exact L|]. apply mul_precanonical; assumption.
Qed.

Lemma div_is_nan (x c : float) (mc : positive) (ec : Z) :
  Prim2SF c = S754_finite false mc ec ->
  is_nan x = false -> is_nan (x / c) = false.
Proof.
  intros Ec. rewrite !is_nan_false, FloatAxioms.div_spec, Ec. unfold SF64div.
  destruct (Prim2SF x) as [[|]|[|]| |s m e] eqn:Ex; cbn [SFdiv]; intros N;
    try (exfalso; apply N; reflexivity); try discriminate.
  destruct (SFdiv_core_binary prec emax (Zpos m) e (Zpos mc) ec) as [[q e'] l] eqn:E.
  destruct (div_core_ok m mc e ec q e' l E) as (Hq & L & C).
  eapply bra_not_nan; eassumption.
Qed.

End NumberFacts.

(** ** [Math.ceil] and [Math.round] *)

Module MathFacts.
Import Float64 Float64Facts Rounding RoundingFacts NumberFacts.
Local Open Scope R_scope.
Local Abbreviation fexp := (SpecFloat.fexp prec emax).
Local Abbreviation bounded := (SpecFloat.bounded prec emax).

Lemma valid_binary_SFopp (f : spec_float) : valid_binary (SFopp f) = valid_binary f.
Proof. destruct f; reflexivity. Qed.

Lemma binary_normalize_neg (p : positive) :
  binary_normalize prec emax (Zneg p) 0 false
  = SFopp (binary_normalize prec emax (Zpos p) 0 false).
Proof.
  cbn [binary_normalize]. unfold binary_round.
  destruct (shl_align p 0 _) as [mz ez]. apply bra_opp.
Qed.

Lemma binary_normalize_nns (p : positive) :
  nns (binary_normalize prec emax (Zpos p) 0 false).
Proof.
  destruct (binary_normalize_pos p) as (mz & ez & -> & L & C).
  eapply bra_nns; [|exact L|exact C]. lia.
Qed.

(** The conversion of an integer below [2^63] in magnitude is a number. *)
Lemma of_Z_is_nan (n : Z) : (- 2 ^ 63 < n < 2 ^ 63)%Z -> is_nan (of_Z n) = false.
Proof.
  intros H. apply is_nan_false. destruct n as [|p|p].
  - vm_compute. discriminate.
  - rewrite Prim2SF_of_Z_pos by lia. apply nns_not_nan, binary_normalize_nns.
  - unfold of_Z, of_SF. rewrite Prim2SF_SF2Prim.
    + rewrite binary_normalize_neg. apply SFopp_not_nan, nns_not_nan, binary_normalize_nns.
    + rewrite binary_normalize_neg, valid_binary_SFopp.
      apply binary_normalize_valid. lia.
Qed.

Lemma mantissa_lt (m : positive) (e : Z) : bounded m e = true -> (Zpos m < 2 ^ 53)%Z.
Proof.
  intros V. pose proof (bounded_canonical m e V) as (C & U & L & D).
  destruct (Zdigits2_bounds (Zpos m) ltac:(lia)) as [[_ Um] _].
  assert (2 ^ Zdigits2 (Zpos m) <= 2 ^ 53)%Z by (apply Z.pow_le_mono_r; lia). lia.
Qed.

(** [Math.ceil] of a number is a number. *)
Lemma ceil_is_nan (x : float) : is_nan x = false -> is_nan (ceil x) = false.
Proof.
  intros N. unfold ceil.
  destruct (Prim2SF x) as [s|s| |s m [|pe|k]] eqn:Ex; try exact N.
  pose proof (mantissa_lt m _ (bounded_Prim2SF x _ _ _ Ex)) as Um.
  set (q := Z.shiftr (Zpos m) (Zpos k)).
  assert (Eq : q = (Zpos m / 2 ^ Zpos k)%Z) by (apply Z.shiftr_div_pow2; lia).
  assert (P2 : (0 < 2 ^ Zpos k)%Z) by (apply Z.pow_pos_nonneg; lia).
  assert (Hq : (0 <= q <= Zpos m)%Z).
  { rewrite Eq. split; [apply Z.div_pos; lia|].
    apply Z.div_le_upper_bound; [lia|]. nia. }
  cbv zeta. destruct s.
  - destruct (q =? 0)%Z; [vm_compute; reflexivity|]. apply of_Z_is_nan. lia.
  - destruct (Z.shiftl q (Zpos k) =? Zpos m)%Z; apply of_Z_is_nan; lia.
Qed.

(** What [Math.round] computes on a finite number of negative exponent. *)
Lemma round_quotient (sm : Z) (k : positive) :
  let n := ((2 * sm + 2 ^ Zpos k) / 2 ^ (Zpos k + 1))%Z in
  (n * 2 ^ (Zpos k + 1) <= 2 * sm + 2 ^ Zpos k < (n + 1) * 2 ^ (Zpos k + 1))%Z.
Proof.
  intros n.
  assert (P : (0 < 2 ^ (Zpos k + 1))%Z) by (apply Z.pow_pos_nonneg; lia).
  pose proof (Z.div_mod (2 * sm + 2 ^ Zpos k) (2 ^ (Zpos k + 1)) ltac:(lia)) as DM.
  pose proof (Z.mod_pos_bound (2 * sm + 2 ^ Zpos k) (2 ^ (Zpos k + 1)) P) as MB.
  fold n in DM. lia.
Qed.

(** [Math.round] of a number is a number. *)
Lemma round_is_nan (x : float) : is_nan x = false -> is_nan (round x) = false.
Proof.
  intros N. unfold round.
  destruct (Prim2SF x) as [s|s| |s m [|pe|k]] eqn:Ex; try exact N.
  pose proof (mantissa_lt m _ (bounded_Prim2SF x _ _ _ Ex)) as Um.
  cbv zeta.
  set (sm := if s then Zneg m else Zpos m).
  pose proof (round_quotient sm k) as Q. cbv zeta in Q.
  set (n := ((2 * sm + 2 ^ Zpos k) / 2 ^ (Zpos k + 1))%Z) in *.
  assert (P2 : (0 < 2 ^ Zpos k)%Z) by (apply Z.pow_pos_nonneg; lia).
  rewrite Z.pow_add_r in Q by lia. change (2 ^ 1)%Z with 2%Z in Q.
  assert (B : (- Zpos m <= sm <= Zpos m)%Z) by (unfold sm; destruct s; lia).
  destruct (n =? 0)%Z; [destruct s; vm_compute; reflexivity|].
  apply of_Z_is_nan. nia.
Qed.

(** [Math.round] of a non-negative finite number is a correctly represented
    integer [n] with [x - 1/2 < n <= x + 1/2]. *)
Lemma round_finite (x : float) (m : positive) (e : Z) :
  Prim2SF x = S754_finite false m e ->
  exists (n M E : Z),
    (0 <= M)%Z /\
    Prim2SF (round x) = binary_round_aux prec emax false M E loc_Exact /\
    loc_ok M E loc_Exact (IZR n) /\
    (E <= fexp (Zdigits2 M + E))%Z /\
    IZR (Zpos m) * bpow e - / 2 < IZR n <= IZR (Zpos m) * bpow e + / 2.
Proof.
  intros Ex. pose proof (bounded_Prim2SF x _ _ _ Ex) as V.
  pose proof (bounded_canonical m e V) as (C & U & L & D).
  pose proof (mantissa_lt m e V) as Um.
  unfold round. rewrite Ex.
  destruct e as [|pe|k].
  - exists (Zpos m), (Zpos m), 0%Z. rewrite Ex, bra_id by exact V.
    split; [lia|]. split; [reflexivity|]. cbn [loc_ok]. rewrite bpow_0.
    split; [lra|]. split; [lia|]. lra.
  - exists (Zpos m * 2 ^ Zpos pe)%Z, (Zpos m), (Zpos pe). rewrite Ex, bra_id by exact V.
    split; [lia|]. split; [reflexivity|]. cbn [loc_ok]. rewrite mult_IZR, <- bpow_IZR by lia.
    split; [lra|]. split; [lia|]. lra.
  - cbv zeta.
    pose proof (round_quotient (Zpos m) k) as Q. cbv zeta in Q.
    set (n := ((2 * Zpos m + 2 ^ Zpos k) / 2 ^ (Zpos k + 1))%Z) in *.
    assert (P2 : (0 < 2 ^ Zpos k)%Z) by (apply Z.pow_pos_nonneg; lia).
    rewrite Z.pow_add_r in Q by lia. change (2 ^ 1)%Z with 2%Z in Q.
    assert (Bk : bpow (Zneg k) * IZR (2 ^ Zpos k) = 1).
    { rewrite <- bpow_IZR, <- bpow_add by lia.
      replace (Zneg k + Zpos k)%Z with 0%Z by lia. apply bpow_0. }
    assert (Pk : 0 < IZR (2 ^ Zpos k)) by (apply IZR_lt; lia).
    assert (Bp : 0 < bpow (Zneg k)) by apply bpow_pos.
    assert (Hn : (0 <= n)%Z) by nia.
    assert (Un : (n < 2 ^ 63)%Z) by nia.
    destruct Q as [Q1 Q2].
    apply IZR_le in Q1. apply IZR_lt in Q2.
    rewrite ?mult_IZR, ?plus_IZR, ?mult_IZR in Q1. rewrite ?mult_IZR, ?plus_IZR, ?mult_IZR in Q2.
    set (T := IZR (2 ^ Zpos k)) in *. set (B := bpow (Zneg k)) in *.
    assert (X : IZR (Zpos m) * B - / 2 < IZR n <= IZR (Zpos m) * B + / 2).
    { assert (E1 : IZR n = IZR n * (B * T)) by (rewrite Bk; ring).
      assert (E2 : IZR (Zpos m) * B = (IZR (Zpos m)) * B * (B * T)) by (rewrite Bk; ring).
      split.
      - apply (Rmult_lt_reg_r (2 * T)); [lra|].
        replace ((IZR (Zpos m) * B - / 2) * (2 * T))
          with (2 * IZR (Zpos m) * (B * T) - T) by field.
        rewrite Bk. change (IZR 2) with 2 in *. lra.
      - apply (Rmult_le_reg_r (2 * T)); [lra|].
        replace ((IZR (Zpos m) * B + / 2) * (2 * T))
          with (2 * IZR (Zpos m) * (B * T) + T) by field.
        rewrite Bk. change (IZR 2) with 2 in *. lra. }
    destruct (Z.eqb_spec n 0) as [Z0|NZ].
    + exists 0%Z, 0%Z, (-1074)%Z. split; [lia|]. split; [reflexivity|].
      cbn [loc_ok]. split; [lra|]. split; [vm_compute; discriminate|].
      rewrite Z0 in X. exact X.
    + destruct n as [|pn|pn] eqn:En; try lia.
      destruct (binary_normalize_pos pn) as (M & E & N1 & N2 & N3).
      exists (Zpos pn), (Zpos M), E. rewrite Prim2SF_of_Z_pos by lia.
      split; [lia|]. split; [exact N1|]. split; [exact N2|]. split; [exact N3|exact X].
Qed.

Lemma round_nns (x : float) : nns (Prim2SF x) -> nns (Prim2SF (round x)).
Proof.
  intros S.
  destruct (Prim2SF x) as [[|]|[|]| |[|] m e] eqn:Ex; try (simpl in S; tauto).
  - unfold round. rewrite Ex, Ex. exact I.
  - unfold round. rewrite Ex, Ex. exact I.
  - destruct (round_finite x m e Ex) as (n & M & E & HM & -> & L & C & _).
    eapply bra_nns; [exact HM|exact L|exact C].
Qed.

(** [Math.round] is monotone on the non-negative numbers. *)
Lemma round_leb_mono (a b : float) :
  nns (Prim2SF a) -> nns (Prim2SF b) ->
  SFleb (Prim2SF a) (Prim2SF b) = true ->
  SFleb (Prim2SF (round a)) (Prim2SF (round b)) = true.
Proof.
  intros Sa Sb H.
  pose proof (round_nns a Sa) as Ca. pose proof (round_nns b Sb) as Cb.
  destruct (Prim2SF a) as [[|]|[|]| |[|] ma ea] eqn:Ea; try (simpl in Sa; tauto).
  - assert (E : Prim2SF (round a) = S754_zero false) by (unfold round; rewrite Ea; exact Ea).
    rewrite E. apply SFleb_zero_l. exact Cb.
  - destruct (Prim2SF b) as [[|]|[|]| |[|] mb eb] eqn:Eb; try (simpl in Sb; tauto);
      try discriminate.
    assert (E : Prim2SF (round b) = S754_infinity false) by (unfold round; rewrite Eb; exact Eb).
    rewrite E. apply SFleb_inf_r. exact Ca.
  - destruct (Prim2SF b) as [[|]|[|]| |[|] mb eb] eqn:Eb; try (simpl in Sb; tauto);
      try discriminate.
    + assert (E : Prim2SF (round b) = S754_infinity false)
        by (unfold round; rewrite Eb; exact Eb).
      rewrite E. apply SFleb_inf_r. exact Ca.
    + destruct (round_finite a ma ea Ea) as (na & Ma & Ea' & HMa & -> & La & Pa & Ba).
      destruct (round_finite b mb eb Eb) as (nb & Mb & Eb' & HMb & -> & Lb & Pb & Bb).
      eapply bra_mono; try eassumption.
      pose proof (SFleb_val _ _ _ _ (bounded_Prim2SF a _ _ _ Ea)
                    (bounded_Prim2SF b _ _ _ Eb) H) as VV.
      assert (IZR na < IZR nb + 1) by lra.
      rewrite <- plus_IZR in H0. apply lt_IZR in H0. apply IZR_le. lia.
Qed.

End MathFacts.

(** ** Order and arithmetic on the non-negative numbers *)

Module MonotoneFacts.
Import Float64 Float64Facts Rounding RoundingFacts NumberFacts MathFacts.
Local Abbreviation bounded := (SpecFloat.bounded prec emax).

Lemma leb_false_ltb (x y : float) :
  is_nan x = false -> is_nan y = false -> (x <=? y)%float = false -> (y <? x)%float = true.
Proof.
  rewrite !is_nan_false, ltb_spec, leb_spec. unfold SFltb, SFleb. intros Nx Ny.
  destruct (SFcompare_numbers _ _ Nx Ny) as [c E]. rewrite E.
  rewrite (SFcompare_antisym _ _ _ E). destruct c; simpl; congruence.
Qed.

(** A number at or above a positive one is positive. *)
Lemma nns_above (c x : float) (mc : positive) (ec : Z) :
  Prim2SF c = S754_finite false mc ec -> (c <=? x)%float = true ->
  nns (Prim2SF x) /\ Prim2SF x <> S754_zero false.
Proof.
  intros Ec. rewrite leb_spec, Ec. unfold SFleb.
  destruct (Prim2SF x) as [[|]|[|]| |[|] m e]; simpl; try discriminate;
    intros _; split; try exact I; discriminate.
Qed.

Lemma nns_positive (x : float) :
  (0 <? x)%float = true -> nns (Prim2SF x) /\ Prim2SF x <> S754_zero false.
Proof.
  rewrite ltb_spec. unfold SFltb. change (Prim2SF 0) with (S754_zero false).
  destruct (Prim2SF x) as [[|]|[|]| |[|] m e]; simpl; try discriminate;
    intros _; split; try exact I; discriminate.
Qed.

Lemma div_nns (a c : float) (mc : positive) (ec : Z) :
  Prim2SF c = S754_finite false mc ec -> nns (Prim2SF a) -> nns (Prim2SF (a / c)).
Proof.
  intros Ec Sa. rewrite FloatAxioms.div_spec, Ec. apply SFdiv_nns_finite. exact Sa.
Qed.

(** Dividing by a positive constant is monotone. *)
Lemma div_leb_mono (a b c : float) (mc : positive) (ec : Z) :
  Prim2SF c = S754_finite false mc ec ->
  nns (Prim2SF a) -> nns (Prim2SF b) -> (a <=? b)%float = true ->
  (a / c <=? b / c)%float = true.
Proof.
  intros Ec Sa Sb. rewrite !leb_spec, !FloatAxioms.div_spec, Ec.
  apply SFdiv_mono_l; apply nn_prim; assumption.
Qed.

Lemma mul_nns (a c : float) (mc : positive) (ec : Z) :
  Prim2SF c = S754_finite false mc ec -> nns (Prim2SF a) -> nns (Prim2SF (a * c)).
Proof.
  intros Ec Sa. rewrite FloatAxioms.mul_spec, Ec.
  apply SFmul_nns_finite; [apply nn_prim; exact Sa|].
  exact (bounded_Prim2SF c _ _ _ Ec).
Qed.

(** Multiplying by a positive constant is monotone. *)
Lemma mul_leb_mono (a b c : float) (mc : positive) (ec : Z) :
  Prim2SF c = S754_finite false mc ec ->
  nns (Prim2SF a) -> nns (Prim2SF b) -> (a <=? b)%float = true ->
  (a * c <=? b * c)%float = true.
Proof.
  intros Ec Sa Sb. rewrite !leb_spec, !FloatAxioms.mul_spec, Ec.
  apply SFmul_mono_l; try (apply nn_prim; assumption).
  exact (bounded_Prim2SF c _ _ _ Ec).
Qed.

Lemma round_mono (a b : float) :
  nns (Prim2SF a) -> nns (Prim2SF b) -> (a <=? b)%float = true ->
  (round a <=? round b)%float = true.
Proof. intros Sa Sb. rewrite !leb_spec. apply round_leb_mono; assumption. Qed.

(** Two numbers, one of them finite and not zero, that are [<=] each other
    are the same number. *)
Lemma leb_antisym (c y : float) (s : bool) (mc : positive) (ec : Z) :
  Prim2SF c = S754_finite s mc ec ->
  (c <=? y)%float = true -> (y <=? c)%float = true -> y = c.
Proof.
  intros Ec. rewrite !leb_spec, Ec. unfold SFleb. intros H1 H2.
  apply Prim2SF_inj. rewrite Ec.
  destruct (Prim2SF y) as [[|]|[|]| |sy m e]; destruct s; simpl in *; try discriminate.
  - destruct sy; simpl in *; try discriminate.
    change (Pos.compare_cont Eq) with Pos.compare in *.
    destruct (Z.compare_spec ec e), (Z.compare_spec e ec); simpl in *;
      try discriminate; try lia.
    destruct (Pos.compare_spec mc m), (Pos.compare_spec m mc); simpl in *;
      try discriminate; try lia; subst; reflexivity.
  - destruct sy; simpl in *; try discriminate.
    change (Pos.compare_cont Eq) with Pos.compare in *.
    destruct (Z.compare_spec ec e), (Z.compare_spec e ec); simpl in *;
      try discriminate; try lia.
    destruct (Pos.compare_spec mc m), (Pos.compare_spec m mc); simpl in *;
      try discriminate; try lia; subst; reflexivity.
Qed.

(** NaN in, NaN out, and NaN compares false. *)
Lemma mul_nan_l (x y : float) : is_nan x = true -> is_nan (x * y) = true.
Proof.
  rewrite !is_nan_true, FloatAxioms.mul_spec. intros ->. reflexivity.
Qed.

Lemma mul_nan_r (x y : float) : is_nan y = true -> is_nan (x * y) = true.
Proof.
  rewrite !is_nan_true, FloatAxioms.mul_spec. intros ->.
  destruct (Prim2SF x); reflexivity.
Qed.

Lemma div_nan_l (x y : float) : is_nan x = true -> is_nan (x / y) = true.
Proof.
  rewrite !is_nan_true, FloatAxioms.div_spec. intros ->. reflexivity.
Qed.

Lemma div_nan_r (x y : float) : is_nan y = true -> is_nan (x / y) = true.
Proof.
  rewrite !is_nan_true, FloatAxioms.div_spec. intros ->.
  destruct (Prim2SF x); reflexivity.
Qed.

Lemma add_nan_l (x y : float) : is_nan x = true -> is_nan (x + y) = true.
Proof.
  rewrite !is_nan_true, FloatAxioms.add_spec. intros ->. reflexivity.
Qed.

Lemma leb_nan_l (x y : float) : is_nan x = true -> (x <=? y)%float = false.
Proof. rewrite is_nan_true, leb_spec. intros ->. reflexivity. Qed.

Lemma ltb_nan_l (x y : float) : is_nan x = true -> (x <? y)%float = false.
Proof. rewrite is_nan_true, ltb_spec. intros ->. reflexivity. Qed.

Lemma ltb_nan_r (x y : float) : is_nan y = true -> (x <? y)%float = false.
Proof.
  rewrite is_nan_true, ltb_spec. intros ->. unfold SFltb.
  destruct (Prim2SF x) as [[|]|[|]| |[|] m e]; reflexivity.
Qed.

(** A constant is positive and finite when its sign, mantissa and exponent
    say so. *)
Lemma positive_constant (c : float) :
  match Prim2SF c with S754_finite false _ _ => true | _ => false end = true ->
  exists (mc : positive) (ec : Z), Prim2SF c = S754_finite false mc ec.
Proof.
  destruct (Prim2SF c) as [[|]|[|]| |[|] m e]; try discriminate.
  intros _. exists m, e. reflexivity.
Qed.

Lemma truthy_is_nan (x : float) : truthy x = true -> is_nan x = false.
Proof. unfold truthy. destruct (is_nan x); [discriminate|reflexivity]. Qed.

End MonotoneFacts.

(** ** The guards and the parsed inputs *)

Section GuardProperties.
Import Float64 Float64Facts NumberFacts MonotoneFacts.
Local Open Scope js_scope.

Lemma orNumber_truthy (x dflt : float) :
  truthy dflt = true -> truthy (orNumber x dflt) = true.
Proof. unfold orNumber. destruct (truthy x) eqn:E; intros; assumption. Qed.

(** X1.  The residential [calculateDesign] always hands a result to
    [setResult]: each of the eight parsed values is either the number typed
    or its default, never NaN and never zero, so the guard of line 103
    cannot fire and [setResult(null)] is never reached. *)
Theorem residential_form_always_has_result :
  forall inputs : Residential.DesignInput.t,
    let p := Residential.parse inputs in
    truthy (Residential.V.colWidth p) = true /\
    truthy (Residential.V.colLength p) = true /\
    truthy (Residential.V.colHeight p) = true /\
    truthy (Residential.V.colSpacing p) = true /\
    truthy (Residential.V.colLoad p) = true /\
    truthy (Residential.V.soilCapacity p) = true /\
    truthy (Residential.V.fcu p) = true /\
    truthy (Residential.V.groundBeamL p) = true /\
    Residential.inputsRejected p = false /\
    Residential.calculateDesign inputs = Some (Residential.result p).
Proof.
  intros inputs p.
  assert (T : forall s d, truthy (num d) = true ->
                truthy (orNumber (parseFloat s) (num d)) = true)
    by (intros s d; apply orNumber_truthy).
  assert (W : truthy (Residential.V.colWidth p) = true) by (apply T; vm_compute; reflexivity).
  assert (L : truthy (Residential.V.colLength p) = true) by (apply T; vm_compute; reflexivity).
  assert (F : truthy (Residential.V.colLoad p) = true) by (apply T; vm_compute; reflexivity).
  assert (S : truthy (Residential.V.soilCapacity p) = true)
    by (apply T; vm_compute; reflexivity).
  assert (R : Residential.inputsRejected p = false).
  { unfold Residential.inputsRejected. rewrite W, L, F, S. reflexivity. }
  repeat (split; [first [assumption | apply T; vm_compute; reflexivity]|]).
  unfold Residential.calculateDesign. fold p. rewrite R. reflexivity.
Qed.

End GuardProperties.

(** ** A field that is not a number *)

Section NaNProperties.
Import Float64 Float64Facts NumberFacts MonotoneFacts Kernel KernelFacts.
Local Open Scope js_scope.

Lemma round_nan (x : float) : is_nan x = true -> round x = x.
Proof. rewrite is_nan_true. unfold round. intros ->. reflexivity. Qed.

(** A section whose [K] is NaN is UNSAFE, with no bars and a utilisation
    that is NaN as well. *)
Lemma sectionDesign_nan (lbl : Labels) (K M V b d h fcu : float) :
  is_nan K = true ->
  let r := sectionDesign lbl K M V b d h fcu in
  status r = UNSAFE /\ mainBar r = "None" /\ is_nan (utilization r) = true.
Proof.
  intros N r. subst r.
  assert (F : flexureStatus K = UNSAFE).
  { apply flexureStatus_UNSAFE. cbn [leb Float64_Num]. apply leb_nan_l. exact N. }
  rewrite (sectionDesign_UNSAFE _ _ _ _ _ _ _ _ F). cbn [status mainBar utilization].
  split; [reflexivity|]. split; [reflexivity|].
  cbn [Math_min Math_round mul div Float64_Num].
  rewrite min_nan_r; [reflexivity|].
  rewrite round_nan; apply mul_nan_l, div_nan_l; exact N.
Qed.

(** X2.  In the beam suite a concrete grade that does not parse to a number
    (an empty [fcu] field, for one) never yields a SAFE verdict: the beam,
    the ground beam and the column are all UNSAFE, no main bar is chosen
    and the utilisations are NaN. *)
Theorem missing_grade_is_UNSAFE :
  forall (inputs : Suite.DesignInput.t) (r : Suite.DesignResult.t),
    is_nan (parseFloat (Suite.DesignInput.fcu inputs)) = true ->
    Suite.calculateDesign inputs = Some r ->
    Suite.DesignResult.status r = UNSAFE /\
    Suite.DesignResult.mainBar r = "None" /\
    is_nan (Suite.DesignResult.utilization r) = true /\
    Suite.DesignResult.groundBeamStatus r = UNSAFE /\
    Suite.DesignResult.groundBeamMainBar r = "None" /\
    is_nan (Suite.DesignResult.groundBeamUtilization r) = true /\
    Suite.DesignResult.colStatus r = UNSAFE.
Proof.
  intros inputs r N E.
  unfold Suite.calculateDesign in E.
  destruct (Suite.spanRejected _); [discriminate|].
  injection E as <-.
  set (p := Suite.parse inputs).
  assert (Nf : is_nan (Suite.V.fcu p) = true) by exact N.
  assert (NK : is_nan (Suite.K p) = true).
  { unfold Suite.K. cbn [mul div Float64_Num]. apply div_nan_r, mul_nan_r. exact Nf. }
  assert (NG : is_nan (Suite.groundBeamK p) = true).
  { unfold Suite.groundBeamK. cbn [mul div Float64_Num]. apply div_nan_r, mul_nan_r. exact Nf. }
  assert (NC : is_nan (Suite.colCapacity p) = true).
  { unfold Suite.colCapacity. cbn [add mul div Float64_Num].
    apply div_nan_l, add_nan_l, mul_nan_l, mul_nan_r. exact Nf. }
  destruct (sectionDesign_nan Suite.beamLabels (Suite.K p) (Suite.M p) (Suite.reaction p)
              (Suite.V.b p) (Suite.d p) (Suite.V.h p) (Suite.V.fcu p) NK) as (B1 & B2 & B3).
  destruct (sectionDesign_nan Suite.beamLabels (Suite.groundBeamK p) (Suite.groundBeamM p)
              (Suite.groundBeamReaction p) (Suite.V.groundBeamW p) (Suite.groundBeamD p)
              (Suite.V.groundBeamH p) (Suite.V.fcu p) NG) as (G1 & G2 & G3).
  cbn [Suite.result Suite.DesignResult.status Suite.DesignResult.mainBar
       Suite.DesignResult.utilization Suite.DesignResult.groundBeamStatus
       Suite.DesignResult.groundBeamMainBar Suite.DesignResult.groundBeamUtilization
       Suite.DesignResult.colStatus].
  refine (conj B1 (conj B2 (conj B3 (conj G1 (conj G2 (conj G3 _)))))).
  unfold Suite.colStatus. cbn [ltb Float64_Num]. rewrite ltb_nan_r by exact NC. reflexivity.
Qed.

(** The initial form with the concrete grade erased. *)
Lemma missing_grade_form :
  is_nan (parseFloat (Suite.DesignInput.fcu (Samples.suiteForm "4.0" "150" "450" "" "3.0")))
    = true /\
  option_map Suite.DesignResult.status
    (Suite.calculateDesign (Samples.suiteForm "4.0" "150" "450" "" "3.0")) = Some UNSAFE /\
  option_map Suite.DesignResult.colStatus
    (Suite.calculateDesign (Samples.suiteForm "4.0" "150" "450" "" "3.0")) = Some UNSAFE.
Proof.
  assert (N : is_nan (parseFloat (Suite.DesignInput.fcu
                (Samples.suiteForm "4.0" "150" "450" "" "3.0"))) = true)
    by (vm_compute; reflexivity).
  assert (E : Suite.calculateDesign (Samples.suiteForm "4.0" "150" "450" "" "3.0")
              = Some (Suite.result (Suite.parse (Samples.suiteForm "4.0" "150" "450" "" "3.0"))))
    by (vm_compute; reflexivity).
  pose proof (missing_grade_is_UNSAFE _ _ N E) as (S & _ & _ & _ & _ & _ & C).
  split; [exact N|]. rewrite E. cbn [option_map]. split; [rewrite S|rewrite C]; reflexivity.
Defined.

End NaNProperties.

(** ** The footing mesh *)

Section FootingSteelProperties.
Import Float64 Float64Facts NumberFacts MonotoneFacts.
Local Open Scope js_scope.

(** A test [a > c'] that fires makes every test against a bound at or
    below [c'] fire too. *)
Lemma test_fires_below (c c' : Q) (a : float) :
  (@num float _ c <=? num c') = true -> (a >? num c') = true -> (a >? num c) = true.
Proof. intros Hc Ha. exact (leb_ltb_trans _ _ _ Hc Ha). Qed.

(** A test that does not fire leaves every test against a bound at or
    above its own silent. *)
Lemma test_silent_above (c c' : Q) (a : float) :
  (@num float _ c <=? num c') = true -> (a >? num c) = false -> (a >? num c') = false.
Proof.
  intros Hc Ha. destruct (a >? num c') eqn:E; [|reflexivity].
  rewrite (test_fires_below c c' a Hc E) in Ha. discriminate.
Qed.

(** X3.  The mesh of the residential footing is read off the steel area per
    metre [finalSteelArea] by five assignments in sequence, of which the
    last that fires wins.  They make a step table with exclusive lower
    bounds: up to 452 "T12 @ 250mm", above 452 and up to 565 "T12 @ 200mm",
    above 565 and up to 804 "T16 @ 250mm", above 804 and up to 1005
    "T16 @ 200mm", above 1005 "T20 @ 250mm"; an area of exactly 452 keeps
    "T12 @ 250mm", and so does an area that is NaN. *)
Theorem residential_footing_mesh_table :
  forall p : Residential.V.Locals float,
    let a := Residential.finalSteelArea p in
    ((a >? num 452) = false -> Residential.footingSteel p = "T12 @ 250mm") /\
    ((a >? num 452) = true -> (a >? num 565) = false ->
       Residential.footingSteel p = "T12 @ 200mm") /\
    ((a >? num 565) = true -> (a >? num 804) = false ->
       Residential.footingSteel p = "T16 @ 250mm") /\
    ((a >? num 804) = true -> (a >? num 1005) = false ->
       Residential.footingSteel p = "T16 @ 200mm") /\
    ((a >? num 1005) = true -> Residential.footingSteel p = "T20 @ 250mm") /\
    (a = num 452 -> Residential.footingSteel p = "T12 @ 250mm") /\
    (is_nan a = true -> Residential.footingSteel p = "T12 @ 250mm").
Proof.
  intros p a. unfold Residential.footingSteel. fold a.
  assert (T0 : (a >? num 452) = false ->
               (if a >? num 1005 then "T20 @ 250mm"
                else if a >? num 804 then "T16 @ 200mm"
                else if a >? num 565 then "T16 @ 250mm"
                else if a >? num 452 then "T12 @ 200mm" else "T12 @ 250mm")
               = "T12 @ 250mm").
  { intros E.
    rewrite (test_silent_above 452 1005 a eq_refl E), (test_silent_above 452 804 a eq_refl E),
      (test_silent_above 452 565 a eq_refl E), E. reflexivity. }
  cbv zeta.
  split; [exact T0|].
  split; [intros E1 E2;
          rewrite (test_silent_above 565 1005 a eq_refl E2),
            (test_silent_above 565 804 a eq_refl E2), E2, E1; reflexivity|].
  split; [intros E1 E2;
          rewrite (test_silent_above 804 1005 a eq_refl E2), E2, E1; reflexivity|].
  split; [intros E1 E2; rewrite E2, E1; reflexivity|].
  split; [intros E1; rewrite E1; reflexivity|].
  split; [intros E; apply T0; rewrite E; vm_compute; reflexivity|].
  intros N. apply T0. cbn [ltb Float64_Num]. apply ltb_nan_r. exact N.
Qed.

(** X4.  The mesh of the beam-suite footing, by three assignments in
    sequence: up to 452 "T12 @ 250mm B1/B2", above 452 and up to 600
    "T12 @ 200mm B1/B2", above 600 "T12 @ 150mm B1/B2"; the area is never
    below the minimum [0.0013 * 1000 * 300] unless it is NaN, and a NaN area
    keeps the first label. *)
Theorem suite_footing_mesh_table :
  forall p : Suite.V.Locals float,
    let a := Suite.finalFootingAs p in
    ((a >? num 452) = false -> Suite.footingSteel p = "T12 @ 250mm B1/B2") /\
    ((a >? num 452) = true -> (a >? num 600) = false ->
       Suite.footingSteel p = "T12 @ 200mm B1/B2") /\
    ((a >? num 600) = true -> Suite.footingSteel p = "T12 @ 150mm B1/B2") /\
    (is_nan a = true -> Suite.footingSteel p = "T12 @ 250mm B1/B2") /\
    (is_nan a = false -> (Suite.footingMinAs <=? a) = true).
Proof.
  intros p a. unfold Suite.footingSteel. fold a. cbv zeta.
  assert (T0 : (a >? num 452) = false ->
               (if a >? num 600 then "T12 @ 150mm B1/B2"
                else if a >? num 452 then "T12 @ 200mm B1/B2" else "T12 @ 250mm B1/B2")
               = "T12 @ 250mm B1/B2").
  { intros E. rewrite (test_silent_above 452 600 a eq_refl E), E. reflexivity. }
  split; [exact T0|].
  split; [intros E1 E2; rewrite E2, E1; reflexivity|].
  split; [intros E1; rewrite E1; reflexivity|].
  split; [intros N; apply T0; cbn [ltb Float64_Num]; apply ltb_nan_r; exact N|].
  intros N. unfold a, Suite.finalFootingAs in *. cbn [Math_max leb Float64_Num] in *.
  destruct (is_nan (Suite.footingAs p)) eqn:N1.
  - rewrite max_nan_l in N by exact N1. discriminate.
  - refine (proj2 (proj2 (max_numbers _ _ N1 _))). vm_compute. reflexivity.
Qed.

End FootingSteelProperties.

(** ** The footing side in binary64 *)

Section FootingSideProperties.
Import Float64 Float64Facts Rounding RoundingFacts NumberFacts MonotoneFacts.
Local Open Scope js_scope.

(** A positive number below +infinity is a positive finite number. *)
Lemma positive_finite (x : float) :
  (0 <? x)%float = true -> (x <? infinity)%float = true ->
  exists (m : positive) (e : Z), Prim2SF x = S754_finite false m e.
Proof.
  rewrite !ltb_spec. unfold SFltb.
  change (Prim2SF 0) with (S754_zero false).
  change (Prim2SF infinity) with (S754_infinity false).
  destruct (Prim2SF x) as [[|]|[|]| |[|] m e]; simpl; try discriminate.
  intros _ _. exists m, e. reflexivity.
Qed.

Lemma side_antitone_binary64 (load s1 s2 : float) :
  (0 <? load)%float = true -> (load <? infinity)%float = true ->
  (0 <? s1)%float = true -> (s1 <=? s2)%float = true ->
  (ceil (PrimFloat.sqrt (load / s2) * of_Q 10) / of_Q 10
   <=? ceil (PrimFloat.sqrt (load / s1) * of_Q 10) / of_Q 10)%float = true.
Proof.
  intros L0 L1 S1 S12.
  destruct (positive_finite load L0 L1) as (m & e & El).
  destruct (nns_positive s1 S1) as [N1 Z1].
  assert (S2 : (0 <? s2)%float = true) by (apply (ltb_leb_trans _ s1); assumption).
  destruct (nns_positive s2 S2) as [N2 Z2].
  rewrite leb_spec. apply (side_leb_antitone load s1 s2 m e); try assumption.
  rewrite <- leb_spec. exact S12.
Qed.

(** A positive number is finite or +infinity. *)
Lemma positive_cases (x : float) :
  (0 <? x)%float = true ->
  (x <? infinity)%float = true \/ Prim2SF x = S754_infinity false.
Proof.
  rewrite !ltb_spec. unfold SFltb.
  change (Prim2SF 0) with (S754_zero false).
  change (Prim2SF infinity) with (S754_infinity false).
  destruct (Prim2SF x) as [[|]|[|]| |[|] m e]; simpl; try discriminate;
    intros _; [right|left]; reflexivity.
Qed.

(** Under an infinite load a positive finite capacity gets an infinite
    side: [Infinity / s], its root, the product by 10, [Math.ceil] of it and
    the quotient by 10 are all [Infinity]. *)
Lemma side_infinite_load (load s : float) :
  Prim2SF load = S754_infinity false ->
  (0 <? s)%float = true -> (s <? infinity)%float = true ->
  Prim2SF (ceil (PrimFloat.sqrt (load / s) * of_Q 10) / of_Q 10) = S754_infinity false.
Proof.
  intros El S0 S1. destruct (positive_finite s S0 S1) as (m & e & Es).
  assert (A : Prim2SF (PrimFloat.sqrt (load / s) * of_Q 10)%float = S754_infinity false).
  { rewrite FloatAxioms.mul_spec, FloatAxioms.sqrt_spec, FloatAxioms.div_spec,
      El, Es, Prim2SF_ten. reflexivity. }
  assert (C : ceil (PrimFloat.sqrt (load / s) * of_Q 10) = (PrimFloat.sqrt (load / s) * of_Q 10)%float)
    by (unfold ceil; rewrite A; reflexivity).
  rewrite C, FloatAxioms.div_spec, A, Prim2SF_ten. reflexivity.
Qed.

(** The side is antitone in the capacity as soon as the load and the larger
    capacity are not both infinite. *)
Lemma side_antitone_positive (load s1 s2 : float) :
  (0 <? load)%float = true -> (0 <? s1)%float = true -> (s1 <=? s2)%float = true ->
  (load <? infinity)%float = true \/ (s2 <? infinity)%float = true ->
  (ceil (PrimFloat.sqrt (load / s2) * of_Q 10) / of_Q 10
   <=? ceil (PrimFloat.sqrt (load / s1) * of_Q 10) / of_Q 10)%float = true.
Proof.
  intros L0 S1 S12 F.
  destruct (positive_cases load L0) as [L1|Li];
    [apply side_antitone_binary64; assumption|].
  destruct F as [F|F].
  - revert F. rewrite ltb_spec, Li. discriminate.
  - assert (S2 : (0 <? s2)%float = true) by (apply (ltb_leb_trans _ s1); assumption).
    assert (F1 : (s1 <? infinity)%float = true) by (apply (leb_ltb_trans _ s2); assumption).
    rewrite leb_spec, (side_infinite_load load s1 Li S1 F1),
      (side_infinite_load load s2 Li S2 F). reflexivity.
Qed.

(** C6.  In binary64, with the load held fixed and positive, a larger soil
    capacity never gives a larger footing side: for capacities
    [0 < s1 <= s2] the side computed with [s2] is at most the side computed
    with [s1], in the residential form (load [colLoad], lines 127-128) and in
    the beam suite (load [axialLoad], lines 838-839).  The division, the
    square root, the product by 10, [Math.ceil] and the division by 10 are
    each monotone with their rounding.  The load and the larger capacity
    must not both be [Infinity]: [Infinity / Infinity] is NaN, and no
    comparison with NaN holds. *)
Theorem footing_side_antitone_in_soil_capacity :
  forall load s1 s2 : float,
    (num 0 <? load) = true -> (num 0 <? s1) = true -> (s1 <=? s2) = true ->
    (load <? infinity) = true \/ (s2 <? infinity) = true ->
    (forall p1 p2 : Residential.V.Locals float,
        Residential.V.colLoad p1 = load -> Residential.V.colLoad p2 = load ->
        Residential.V.soilCapacity p1 = s1 -> Residential.V.soilCapacity p2 = s2 ->
        (Residential.footingSize p2 <=? Residential.footingSize p1) = true) /\
    (forall q1 q2 : Suite.V.Locals float,
        Suite.axialLoad q1 = load -> Suite.axialLoad q2 = load ->
        Suite.V.soil q1 = s1 -> Suite.V.soil q2 = s2 ->
        (Suite.footingSize q2 <=? Suite.footingSize q1) = true).
Proof.
  intros load s1 s2 L0 S1 S12 F. split.
  - intros p1 p2 E1 E2 E3 E4.
    unfold Residential.footingSize, Residential.requiredFootingArea.
    rewrite E1, E2, E3, E4. apply side_antitone_positive; assumption.
  - intros q1 q2 E1 E2 E3 E4.
    unfold Suite.footingSize, Suite.footingArea.
    rewrite E1, E2, E3, E4. apply side_antitone_positive; assumption.
Qed.

(** Raising the capacity from 150 to 200 kPa does not enlarge the footing:
    under 500 kN the residential side goes from 1.9 m to 1.6 m, under the
    reaction of the initial beam the suite's side from 0.8 m to 0.7 m. *)
Lemma footing_side_150_to_200 :
  let r150 := Residential.parse (Samples.residentialForm "500" "150") in
  let r200 := Residential.parse (Samples.residentialForm "500" "200") in
  let s150 := Suite.parse Samples.suiteDefaults in
  let s200 := Suite.parse (SuiteState.handleInputChange "soilCapacity" "200"
                             Samples.suiteDefaults) in
  ((Residential.footingSize r200 <=? Residential.footingSize r150) = true /\
   Residential.footingSize r150 = num 1.9 /\ Residential.footingSize r200 = num 1.6) /\
  ((Suite.footingSize s200 <=? Suite.footingSize s150) = true /\
   Suite.footingSize s150 = num 0.8 /\ Suite.footingSize s200 = num 0.7).
Proof.
  intros r150 r200 s150 s200. split; (split; [|split; vm_compute; reflexivity]).
  - refine (proj1 (footing_side_antitone_in_soil_capacity (num 500) (num 150) (num 200)
                     _ _ _ (or_introl _)) r150 r200 _ _ _ _);
      vm_compute; reflexivity.
  - refine (proj2 (footing_side_antitone_in_soil_capacity (Suite.axialLoad s150)
                     (num 150) (num 200) _ _ _ (or_introl _)) s150 s200 _ _ _ _);
      vm_compute; reflexivity.
Defined.

(** With both infinite the side is NaN, which is at most nothing, itself
    included. *)
Lemma side_infinite_over_infinite :
  is_nan (ceil (PrimFloat.sqrt (infinity / infinity) * of_Q 10) / of_Q 10) = true /\
  (ceil (PrimFloat.sqrt (infinity / infinity) * of_Q 10) / of_Q 10
   <=? ceil (PrimFloat.sqrt (infinity / infinity) * of_Q 10) / of_Q 10)%float = false.
Proof. split; vm_compute; reflexivity. Qed.

(** X5.  The footing side under a finite load: with the load held fixed,
    positive and finite, a
    larger soil capacity never gives a larger side, in the residential form
    (load [colLoad]) and in the beam suite (load [axialLoad]).  Every
    rounding on the way (the division, the square root, the product by 10,
    [Math.ceil], the division by 10) is monotone. *)
Theorem footing_side_antitone_in_binary64 :
  forall load s1 s2 : float,
    (num 0 <? load) = true -> (load <? infinity) = true ->
    (num 0 <? s1) = true -> (s1 <=? s2) = true ->
    (forall p1 p2 : Residential.V.Locals float,
        Residential.V.colLoad p1 = load -> Residential.V.colLoad p2 = load ->
        Residential.V.soilCapacity p1 = s1 -> Residential.V.soilCapacity p2 = s2 ->
        (Residential.footingSize p2 <=? Residential.footingSize p1) = true) /\
    (forall q1 q2 : Suite.V.Locals float,
        Suite.axialLoad q1 = load -> Suite.axialLoad q2 = load ->
        Suite.V.soil q1 = s1 -> Suite.V.soil q2 = s2 ->
        (Suite.footingSize q2 <=? Suite.footingSize q1) = true).
Proof.
  intros load s1 s2 L0 L1 S1 S12. split.
  - intros p1 p2 E1 E2 E3 E4.
    unfold Residential.footingSize, Residential.requiredFootingArea.
    rewrite E1, E2, E3, E4. apply side_antitone_binary64; assumption.
  - intros q1 q2 E1 E2 E3 E4.
    unfold Suite.footingSize, Suite.footingArea.
    rewrite E1, E2, E3, E4. apply side_antitone_binary64; assumption.
Qed.

(** From 150 to 200 kPa under 500 kN the residential side goes from 1.9 m
    to 1.6 m; under the reaction of the initial beam the suite's side does
    not grow either. *)
Lemma footing_side_150_to_200_binary64 :
  (Residential.footingSize (Residential.parse (Samples.residentialForm "500" "200"))
   <=? Residential.footingSize (Residential.parse (Samples.residentialForm "500" "150")))
  = true /\
  Residential.footingSize (Residential.parse (Samples.residentialForm "500" "200"))
  = num 1.6 /\
  Residential.footingSize (Residential.parse (Samples.residentialForm "500" "150"))
  = num 1.9.
Proof.
  split; [|split; vm_compute; reflexivity].
  refine (proj1 (footing_side_antitone_in_binary64 (num 500) (num 150) (num 200) _ _ _ _)
            (Residential.parse (Samples.residentialForm "500" "150"))
            (Residential.parse (Samples.residentialForm "500" "200")) _ _ _ _);
    vm_compute; reflexivity.
Defined.

End FootingSideProperties.

(** ** The utilisation *)

Section UtilisationProperties.
Import Float64 Float64Facts Rounding NumberFacts MathFacts MonotoneFacts Kernel KernelFacts.
Local Open Scope js_scope.

Lemma utilization_sectionDesign (lbl : Labels) (K M V b d h fcu : float) :
  utilization (sectionDesign lbl K M V b d h fcu)
  = Math_min (num 100) (Math_round ((K / num 0.156) * num 100)).
Proof. unfold sectionDesign. destruct (flexureStatus K); reflexivity. Qed.

(** X6.  The utilisation [Math.min(100, Math.round(K / 0.156 * 100))] of a
    section: when [K] is a number it never exceeds 100, and a section that
    fails in flexure shows exactly 100, however far [K] lies above 0.156;
    when [K] is NaN the utilisation is NaN. *)
Theorem utilisation_is_capped :
  forall (lbl : Labels) (K M V b d h fcu : float),
    let r := sectionDesign lbl K M V b d h fcu in
    (is_nan K = false -> (utilization r <=? num 100) = true) /\
    (is_nan K = false -> flexure r = UNSAFE -> utilization r = num 100) /\
    (is_nan K = true -> is_nan (utilization r) = true).
Proof.
  intros lbl K M V b d h fcu r. subst r.
  rewrite utilization_sectionDesign, flexure_sectionDesign.
  cbn [Math_min Math_round mul div leb Float64_Num].
  set (y := round (K / of_Q 0.156 * of_Q 100)).
  assert (C1 : exists mc ec, Prim2SF (of_Q 0.156) = S754_finite false mc ec)
    by (apply positive_constant; vm_compute; reflexivity).
  assert (C2 : exists mc ec, Prim2SF (of_Q 100) = S754_finite false mc ec)
    by (apply positive_constant; vm_compute; reflexivity).
  destruct C1 as (m1 & e1 & C1), C2 as (m2 & e2 & C2).
  assert (N100 : is_nan (of_Q 100) = false) by (vm_compute; reflexivity).
  assert (Ny : is_nan K = false -> is_nan y = false).
  { intros N. apply round_is_nan, (mul_is_nan _ _ _ _ C2), (div_is_nan _ _ _ _ C1). exact N. }
  split; [|split].
  - intros N. exact (proj1 (proj2 (min_numbers _ _ N100 (Ny N)))).
  - intros N F. apply flexureStatus_UNSAFE in F. cbn [leb num Float64_Num] in F.
    assert (G : (of_Q 0.156 <=? K)%float = true).
    { apply ltb_leb, leb_false_ltb; [exact N|vm_compute; reflexivity|exact F]. }
    destruct (nns_above _ _ _ _ C1 G) as [SK _].
    assert (S0 : nns (Prim2SF (of_Q 0.156))) by (rewrite C1; exact I).
    pose proof (div_leb_mono _ _ _ _ _ C1 S0 SK G) as A.
    pose proof (mul_leb_mono _ _ _ _ _ C2 (div_nns _ _ _ _ C1 S0) (div_nns _ _ _ _ C1 SK) A)
      as B.
    pose proof (round_mono _ _ (mul_nns _ _ _ _ C2 (div_nns _ _ _ _ C1 S0))
                  (mul_nns _ _ _ _ C2 (div_nns _ _ _ _ C1 SK)) B) as C.
    fold y in C.
    replace (round (of_Q 0.156 / of_Q 0.156 * of_Q 100)) with (of_Q 100) in C
      by (vm_compute; reflexivity).
    change (min (of_Q 100) y = of_Q 100).
    destruct (min_numbers _ _ N100 (Ny N)) as ([E|E] & U & _); [exact E|].
    rewrite E in U |- *. exact (leb_antisym _ _ _ _ _ C2 C U).
  - intros N. rewrite min_nan_r; [reflexivity|].
    unfold y. rewrite round_nan; apply mul_nan_l, div_nan_l; exact N.
Qed.

End UtilisationProperties.

(** ** The sizes the residential form chooses *)

Section ResidentialSizeProperties.
Import Float64 Float64Facts Rounding NumberFacts MathFacts MonotoneFacts.
Local Open Scope js_scope.

Lemma parsed_or_default_is_number (s : string) (dflt : float) :
  truthy dflt = true -> is_nan (orNumber (parseFloat s) dflt) = false.
Proof. intros T. apply truthy_is_nan, orNumber_truthy. exact T. Qed.

(** The sizes computed from parsed inputs: the parsed values are numbers,
    [Math.ceil] and the products and quotients by constants keep them
    numbers, and [Math.max] and [Math.min] clamp numbers. *)
Lemma Residential_sizes (inputs : Residential.DesignInput.t) :
  let p := Residential.parse inputs in
  (num 300 <=? Residential.footingThickness p) = true /\
  (num 200 <=? Residential.groundBeamWidth p) = true /\
  (num 300 <=? Residential.groundBeamDepth p) = true /\
  (Residential.groundBeamDepth p <=? num 600) = true /\
  is_nan (Math_max (Residential.V.colWidth p) (Residential.V.colLength p)) = false.
Proof.
  intros p.
  assert (NW : is_nan (Residential.V.colWidth p) = false)
    by (apply parsed_or_default_is_number; vm_compute; reflexivity).
  assert (NL : is_nan (Residential.V.colLength p) = false)
    by (apply parsed_or_default_is_number; vm_compute; reflexivity).
  assert (NS : is_nan (Residential.V.groundBeamL p) = false)
    by (apply parsed_or_default_is_number; vm_compute; reflexivity).
  pose proof (max_is_nan _ _ NW NL) as NM.
  destruct (positive_constant (of_Q 2) ltac:(vm_compute; reflexivity)) as (m2 & e2 & C2).
  destruct (positive_constant (of_Q 0.8) ltac:(vm_compute; reflexivity)) as (m8 & e8 & C8).
  destruct (positive_constant (of_Q 1000) ltac:(vm_compute; reflexivity)) as (mk & ek & Ck).
  destruct (positive_constant (of_Q 12) ltac:(vm_compute; reflexivity)) as (md & ed & Cd).
  assert (N300 : is_nan (of_Q 300) = false) by (vm_compute; reflexivity).
  assert (N200 : is_nan (of_Q 200) = false) by (vm_compute; reflexivity).
  assert (N600 : is_nan (of_Q 600) = false) by (vm_compute; reflexivity).
  unfold Residential.footingThickness, Residential.groundBeamWidth,
    Residential.groundBeamDepth.
  cbn [Math_max Math_min Math_ceil mul div leb num Float64_Num].
  split; [|split; [|split; [|split; [|exact NM]]]].
  - refine (proj1 (proj2 (max_numbers _ _ N300 _))).
    apply ceil_is_nan, (div_is_nan _ _ _ _ C2). exact NM.
  - refine (proj1 (proj2 (max_numbers _ _ N200 _))).
    apply (mul_is_nan _ _ _ _ C8). exact NM.
  - refine (proj1 (proj2 (max_numbers _ _ N300 _))).
    apply min_is_nan; [exact N600|].
    apply ceil_is_nan, (div_is_nan _ _ _ _ Cd), (mul_is_nan _ _ _ _ Ck). exact NS.
  - assert (NC : is_nan (ceil (Residential.V.groundBeamL p * of_Q 1000 / of_Q 12)) = false)
      by (apply ceil_is_nan, (div_is_nan _ _ _ _ Cd), (mul_is_nan _ _ _ _ Ck); exact NS).
    destruct (min_numbers _ _ N600 NC) as (_ & U & _).
    destruct (max_numbers _ _ N300 (min_is_nan _ _ N600 NC)) as ([-> | ->] & _ & _).
    + vm_compute. reflexivity.
    + exact U.
Qed.

(** X7.  Whatever the form holds, the residential [calculateDesign] gives a
    result whose footing is at least 300 mm thick, whose ground beam is at
    least 200 mm wide and whose ground beam is between 300 and 600 mm deep:
    no text in any field, be it empty, negative or not a number, takes a
    size out of these bounds or turns it into NaN. *)
Theorem residential_sizes_are_clamped :
  forall inputs : Residential.DesignInput.t,
    exists r : Residential.DesignResult.t,
      Residential.calculateDesign inputs = Some r /\
      (num 300 <=? Residential.DesignResult.footingThickness r) = true /\
      (num 200 <=? Residential.DesignResult.groundBeamWidth r) = true /\
      (num 300 <=? Residential.DesignResult.groundBeamDepth r) = true /\
      (Residential.DesignResult.groundBeamDepth r <=? num 600) = true.
Proof.
  intros inputs. exists (Residential.result (Residential.parse inputs)).
  split; [apply Residential_calculateDesign_Some|].
  destruct (Residential_sizes inputs) as (T & W & D1 & D2 & _).
  exact (conj T (conj W (conj D1 D2))).
Qed.

End ResidentialSizeProperties.

(** ** The lever arm of the residential footing *)

Section FootingLeverArmProperties.
Import Float64 Float64Facts Rounding NumberFacts MathFacts MonotoneFacts.
Local Open Scope js_scope.

Lemma sqrt_negative (x : float) : (x <? 0)%float = true -> is_nan (PrimFloat.sqrt x) = true.
Proof.
  rewrite is_nan_true, ltb_spec, FloatAxioms.sqrt_spec. unfold SFltb.
  change (Prim2SF 0) with (S754_zero false).
  destruct (Prim2SF x) as [[|]|[|]| |[|] m e]; simpl; try discriminate; reflexivity.
Qed.

Lemma add_nan_r (x y : float) : is_nan y = true -> is_nan (x + y) = true.
Proof.
  rewrite !is_nan_true, FloatAxioms.add_spec. intros ->.
  destruct (Prim2SF x); reflexivity.
Qed.

Lemma min_nan_l (x y : float) : is_nan x = true -> min x y = nan.
Proof. intros N. unfold min. rewrite N. reflexivity. Qed.

(** X8.  The residential footing takes the square root of
    [0.25 - k / 0.9] without a test on [k] (the beams take it only when
    [K <= 0.156]).  When that argument is negative the lever arm, the steel
    area required and the final steel area are NaN, every test of the mesh
    ladder is false, and the mesh reported is the lightest one,
    "T12 @ 250mm". *)
Theorem overstressed_footing_reports_lightest_mesh :
  forall p : Residential.V.Locals float,
    (num 0.25 - Residential.k p / num 0.9 <? num 0) = true ->
    is_nan (Residential.z p) = true /\
    is_nan (Residential.finalSteelArea p) = true /\
    Residential.footingSteel p = "T12 @ 250mm".
Proof.
  intros p H.
  assert (Nz : is_nan (Residential.z p) = true).
  { unfold Residential.z. cbn [Math_min Math_sqrt add sub mul div Float64_Num].
    apply mul_nan_r. rewrite min_nan_l; [reflexivity|].
    apply add_nan_r, sqrt_negative. exact H. }
  assert (Na : is_nan (Residential.finalSteelArea p) = true).
  { unfold Residential.finalSteelArea, Residential.steelAreaReq.
    cbn [Math_max mul div Float64_Num].
    rewrite max_nan_l; [reflexivity|]. apply div_nan_r, mul_nan_r. exact Nz. }
  split; [exact Nz|]. split; [exact Na|].
  unfold Residential.footingSteel. cbn [ltb Float64_Num].
  rewrite !ltb_nan_r by exact Na. reflexivity.
Qed.

(** The initial residential form with a column load of 2000 kN: [k] is
    about 0.247, the steel area is NaN and the mesh is "T12 @ 250mm", while
    1800 kN gets "T20 @ 250mm". *)
Lemma overstressed_footing_form :
  Residential.footingSteel (Residential.parse (Samples.residentialForm "2000" "150"))
  = "T12 @ 250mm" /\
  Residential.footingSteel (Residential.parse (Samples.residentialForm "1800" "150"))
  = "T20 @ 250mm".
Proof.
  split.
  - refine (proj2 (proj2 (overstressed_footing_reports_lightest_mesh
                            (Residential.parse (Samples.residentialForm "2000" "150")) _))).
    vm_compute. reflexivity.
  - vm_compute. reflexivity.
Defined.

End FootingLeverArmProperties.

(** ** The section of the beam: typed or sized by the code *)

Section AutoSizeProperties.
Import Float64 Float64Facts Rounding NumberFacts MathFacts MonotoneFacts.
Local Open Scope js_scope.

(** A number at or above a positive constant is truthy. *)
Lemma truthy_above (c x : float) (mc : positive) (ec : Z) :
  Prim2SF c = S754_finite false mc ec -> (c <=? x)%float = true -> truthy x = true.
Proof.
  intros Ec G. destruct (nns_above _ _ _ _ Ec G) as [S Z].
  unfold truthy, is_nan, is_zero. rewrite !eqb_spec. unfold SFeqb.
  change (Prim2SF 0) with (S754_zero false).
  destruct (Prim2SF x) as [[|]|[|]| |[|] m e]; simpl in *; try tauto; try congruence.
  rewrite Z.compare_refl, Pos.compare_cont_refl. reflexivity.
Qed.

Lemma autoDepth_ge_300 (L : float) :
  is_nan L = false -> (num 300 <=? Suite.autoDepth L) = true.
Proof.
  intros N. unfold Suite.autoDepth.
  cbn [Math_max Math_ceil mul div leb num Float64_Num].
  destruct (positive_constant (of_Q 1000) ltac:(vm_compute; reflexivity)) as (m1 & e1 & C1).
  destruct (positive_constant (of_Q 14) ltac:(vm_compute; reflexivity)) as (m2 & e2 & C2).
  destruct (positive_constant (of_Q 25) ltac:(vm_compute; reflexivity)) as (m3 & e3 & C3).
  refine (proj1 (proj2 (max_numbers _ _ _ _))); [vm_compute; reflexivity|].
  apply (mul_is_nan _ _ _ _ C3), ceil_is_nan, (div_is_nan _ _ _ _ C3),
    (div_is_nan _ _ _ _ C2), (mul_is_nan _ _ _ _ C1). exact N.
Qed.

Lemma autoWidth_ge_150 (h : float) :
  is_nan h = false -> (num 150 <=? Suite.autoWidth h) = true.
Proof.
  intros N. unfold Suite.autoWidth.
  cbn [Math_max Math_ceil mul div leb num Float64_Num].
  destruct (positive_constant (of_Q 2.5) ltac:(vm_compute; reflexivity)) as (m2 & e2 & C2).
  destruct (positive_constant (of_Q 25) ltac:(vm_compute; reflexivity)) as (m3 & e3 & C3).
  refine (proj1 (proj2 (max_numbers _ _ _ _))); [vm_compute; reflexivity|].
  apply (mul_is_nan _ _ _ _ C3), ceil_is_nan, (div_is_nan _ _ _ _ C3),
    (div_is_nan _ _ _ _ C2). exact N.
Qed.

(** X9.  The section of every result of the beam suite: a width or a depth
    typed as a non-zero number is used as typed; a depth left empty (or
    zero, or not a number) is replaced by
    [Math.max(300, Math.ceil((L * 1000 / 14) / 25) * 25)], which is at least
    300; a width left empty is replaced by
    [Math.max(150, Math.ceil((h / 2.5) / 25) * 25)] of the depth in use,
    which is at least 150.  So the width and the depth of a result are never
    NaN and never zero. *)
Theorem beam_section_is_typed_or_sized :
  forall (inputs : Suite.DesignInput.t) (r : Suite.DesignResult.t),
    Suite.calculateDesign inputs = Some r ->
    let L := parseFloat (Suite.DesignInput.span inputs) in
    let b0 := parseFloat (Suite.DesignInput.width inputs) in
    let h0 := parseFloat (Suite.DesignInput.depth inputs) in
    (truthy h0 = true -> Suite.DesignResult.depth r = h0) /\
    (truthy h0 = false ->
       Suite.DesignResult.depth r = Suite.autoDepth L /\
       (num 300 <=? Suite.DesignResult.depth r) = true) /\
    (truthy b0 = true -> Suite.DesignResult.width r = b0) /\
    (truthy b0 = false ->
       Suite.DesignResult.width r = Suite.autoWidth (Suite.DesignResult.depth r) /\
       (num 150 <=? Suite.DesignResult.width r) = true) /\
    truthy (Suite.DesignResult.width r) = true /\
    truthy (Suite.DesignResult.depth r) = true.
Proof.
  intros inputs r E L b0 h0.
  unfold Suite.calculateDesign in E.
  destruct (Suite.spanRejected _) eqn:G; [discriminate|].
  injection E as <-.
  apply spanRejected_false_iff in G.
  assert (NL : is_nan L = false) by exact (ltb_is_nan_r _ _ G).
  cbn [Suite.result Suite.DesignResult.width Suite.DesignResult.depth].
  set (h := Suite.V.h (Suite.parse inputs)).
  set (b := Suite.V.b (Suite.parse inputs)).
  assert (Eh : h = if negb (truthy b0) || negb (truthy h0)
                   then orNumber h0 (Suite.autoDepth L) else h0) by reflexivity.
  assert (Eb : b = if negb (truthy b0) || negb (truthy h0)
                   then orNumber b0 (Suite.autoWidth h) else b0) by reflexivity.
  clearbody h b.
  destruct (positive_constant (of_Q 300) ltac:(vm_compute; reflexivity)) as (m3 & e3 & C3).
  destruct (positive_constant (of_Q 150) ltac:(vm_compute; reflexivity)) as (m1 & e1 & C1).
  unfold orNumber in Eh, Eb.
  destruct (truthy h0) eqn:Th, (truthy b0) eqn:Tb; cbn [negb orb] in Eh, Eb; subst h b.
  - refine (conj (fun _ => eq_refl) (conj (fun A => _) (conj (fun _ => eq_refl)
             (conj (fun A => _) (conj Tb Th))))); discriminate A.
  - pose proof (autoWidth_ge_150 h0 (truthy_is_nan _ Th)) as W.
    refine (conj (fun _ => eq_refl) (conj (fun A => _) (conj (fun A => _)
             (conj (fun _ => conj eq_refl W) (conj _ Th))))); try discriminate A.
    exact (truthy_above _ _ _ _ C1 W).
  - pose proof (autoDepth_ge_300 L NL) as D.
    refine (conj (fun A => _) (conj (fun _ => conj eq_refl D) (conj (fun _ => eq_refl)
             (conj (fun A => _) (conj Tb _))))); try discriminate A.
    exact (truthy_above _ _ _ _ C3 D).
  - pose proof (autoDepth_ge_300 L NL) as D.
    pose proof (autoWidth_ge_150 _ (leb_is_nan_r _ _ D)) as W.
    refine (conj (fun A => _) (conj (fun _ => conj eq_refl D) (conj (fun A => _)
             (conj (fun _ => conj eq_refl W) (conj _ _))))); try discriminate A.
    + exact (truthy_above _ _ _ _ C1 W).
    + exact (truthy_above _ _ _ _ C3 D).
Qed.

(** The initial form with the width and the depth erased is sized
    150 x 300 mm; with the width erased and a depth of 450 typed it is
    200 x 450 mm. *)
Lemma beam_section_forms :
  option_map (fun r => (Suite.DesignResult.width r, Suite.DesignResult.depth r))
    (Suite.calculateDesign (Samples.suiteForm "4.0" "" "" "25" "3.0"))
  = Some (num 150, num 300) /\
  option_map (fun r => (Suite.DesignResult.width r, Suite.DesignResult.depth r))
    (Suite.calculateDesign (Samples.suiteForm "4.0" "" "450" "25" "3.0"))
  = Some (num 200, num 450) /\
  truthy (Suite.DesignResult.width
            (Suite.result (Suite.parse (Samples.suiteForm "4.0" "" "" "25" "3.0")))) = true.
Proof.
  split; [vm_compute; reflexivity|]. split; [vm_compute; reflexivity|].
  refine (proj1 (proj2 (proj2 (proj2 (proj2
            (beam_section_is_typed_or_sized
               (Samples.suiteForm "4.0" "" "" "25" "3.0") _ _)))))).
  vm_compute. reflexivity.
Defined.

End AutoSizeProperties.

(** ** Editing the form *)

Section FormProperties.
Import Float64 Float64Facts NumberFacts MonotoneFacts.
Local Open Scope js_scope.

Lemma Suite_calculateDesign_None (inputs : Suite.DesignInput.t) :
  Suite.calculateDesign inputs = None
  <-> (0 <? parseFloat (Suite.DesignInput.span inputs))%float = false.
Proof.
  unfold Suite.calculateDesign.
  change (Suite.V.L (Suite.parse inputs)) with (parseFloat (Suite.DesignInput.span inputs)).
  pose proof (spanRejected_false_iff (parseFloat (Suite.DesignInput.span inputs))) as G.
  destruct (Suite.spanRejected _), (0 <? _)%float; split; intros; try congruence.
  - destruct G as [_ G]. discriminate (G eq_refl).
  - destruct G as [G _]. discriminate (G eq_refl).
Qed.

(** X10.  In the beam suite the span is the only field whose edit can make
    the result appear or disappear: after [handleInputChange] on any other
    field there is a result exactly when there was one before, and after an
    edit of the span there is a result exactly when the text typed parses
    to a positive number. *)
Theorem only_the_span_edit_toggles_the_result :
  forall (name value : string) (inputs : Suite.DesignInput.t),
    (String.eqb name "span" = false ->
       (Suite.calculateDesign (SuiteState.handleInputChange name value inputs) = None
        <-> Suite.calculateDesign inputs = None)) /\
    (Suite.calculateDesign (SuiteState.handleInputChange "span" value inputs) = None
     <-> (num 0 <? parseFloat value) = false).
Proof.
  intros name value inputs. split.
  - intros E. rewrite !Suite_calculateDesign_None.
    unfold SuiteState.handleInputChange. cbn [Suite.DesignInput.span]. rewrite E.
    reflexivity.
  - rewrite Suite_calculateDesign_None. reflexivity.
Qed.

(** Erasing the concrete grade of the initial form keeps the result;
    erasing the span removes it. *)
Lemma span_edit_forms :
  Suite.calculateDesign (SuiteState.handleInputChange "fcu" "" Samples.suiteDefaults) <> None /\
  Suite.calculateDesign (SuiteState.handleInputChange "span" "" Samples.suiteDefaults) = None.
Proof.
  split.
  - intros E.
    apply (proj1 (only_the_span_edit_toggles_the_result "fcu" "" Samples.suiteDefaults)
             eq_refl) in E.
    revert E. vm_compute. discriminate.
  - apply (proj2 (only_the_span_edit_toggles_the_result "span" "" Samples.suiteDefaults)).
    vm_compute. reflexivity.
Defined.

Lemma orNumber_falsy (x dflt : float) : truthy x = false -> orNumber x dflt = dflt.
Proof. unfold orNumber. intros ->. reflexivity. Qed.

(** X11.  In the residential form a field edited to a text that does not
    parse to a non-zero number (the empty text, "0", "abc") is computed as
    its default: the outcome of [calculateDesign] is the outcome with the
    default typed in, 200 and 200 mm for the column, 3000 mm for its height,
    4.0 m for the spacing, 500 kN for the load, 150 kPa for the soil, 25 for
    the grade and 4.0 m for the ground beam span. *)
Theorem falsy_field_is_its_default :
  forall (value : string) (inputs : Residential.DesignInput.t),
    truthy (parseFloat value) = false ->
    let same (name dflt : string) :=
      Residential.calculateDesign (ResidentialState.handleInputChange name value inputs)
      = Residential.calculateDesign (ResidentialState.handleInputChange name dflt inputs) in
    same "colWidth" "200" /\ same "colLength" "200" /\ same "colHeight" "3000" /\
    same "colSpacing" "4.0" /\ same "colLoad" "500" /\ same "soilCapacity" "150" /\
    same "fcu" "25" /\ same "groundBeamSpan" "4.0".
Proof.
  intros value inputs F same. subst same. cbv beta.
  unfold Residential.calculateDesign.
  repeat match goal with
  | |- _ /\ _ => split
  | |- (if Residential.inputsRejected (Residential.parse ?i) then _ else _)
       = (if Residential.inputsRejected (Residential.parse ?j) then _ else _) =>
      replace (Residential.parse i) with (Residential.parse j); [reflexivity|];
      unfold Residential.parse, ResidentialState.handleInputChange;
      cbn [Residential.DesignInput.colWidth Residential.DesignInput.colLength
           Residential.DesignInput.colHeight Residential.DesignInput.colSpacing
           Residential.DesignInput.colLoad Residential.DesignInput.soilCapacity
           Residential.DesignInput.fcu Residential.DesignInput.groundBeamSpan
           String.eqb Ascii.eqb Bool.eqb];
      rewrite (orNumber_falsy (parseFloat value)) by exact F;
      f_equal; vm_compute; reflexivity
  end.
Qed.

(** Erasing the soil capacity, or typing 0, is typing 150. *)
Lemma falsy_field_forms :
  Residential.calculateDesign (Samples.residentialForm "500" "")
  = Residential.calculateDesign (Samples.residentialForm "500" "150") /\
  Residential.calculateDesign (Samples.residentialForm "500" "0")
  = Residential.calculateDesign (Samples.residentialForm "500" "150").
Proof.
  split.
  - exact (proj1 (proj2 (proj2 (proj2 (proj2 (proj2
             (falsy_field_is_its_default "" Samples.residentialDefaults eq_refl))))))).
  - exact (proj1 (proj2 (proj2 (proj2 (proj2 (proj2
             (falsy_field_is_its_default "0" Samples.residentialDefaults eq_refl))))))).
Defined.

End FormProperties.

(** ** The stored inputs *)

Section StorageProperties.

Lemma getItem_setItem_same (key value : string) (s : Storage.t) :
  Storage.getItem key (Storage.setItem key value s) = Some value.
Proof. unfold Storage.getItem, Storage.setItem. rewrite String.eqb_refl. reflexivity. Qed.

Lemma getItem_setItem_other (key key' value : string) (s : Storage.t) :
  String.eqb key key' = false ->
  Storage.getItem key (Storage.setItem key' value s) = Storage.getItem key s.
Proof. unfold Storage.getItem, Storage.setItem. intros ->. reflexivity. Qed.

(** X12.  What the effect stores and what the initializer reads.  The beam
    suite writes and reads the item [beamsafe_pro_inputs_v3]: after a save
    the initializer returns [JSON.parse] of the text stored, the initial
    form when that text is empty.  The residential form writes the same
    item but reads [beamsafe_pro_inputs_v5]: a save never changes what its
    initializer returns, and with no such item stored it starts from the
    initial form however often the inputs were saved. *)
Theorem saved_inputs_and_initial_inputs :
  (forall (JSON_parse : string -> option Suite.DesignInput.t)
          (JSON_stringify : Suite.DesignInput.t -> string)
          (inputs : Suite.DesignInput.t) (s : Storage.t),
      SuiteState.initialInputs JSON_parse (SuiteState.saveInputs JSON_stringify inputs s)
      = match JSON_stringify inputs with
        | EmptyString => Some Samples.suiteDefaults
        | text => JSON_parse text
        end) /\
  (forall (JSON_parse : string -> option Residential.DesignInput.t)
          (JSON_stringify : Residential.DesignInput.t -> string)
          (inputs : Residential.DesignInput.t) (s : Storage.t),
      ResidentialState.initialInputs JSON_parse
        (ResidentialState.saveInputs JSON_stringify inputs s)
      = ResidentialState.initialInputs JSON_parse s) /\
  (forall (JSON_parse : string -> option Residential.DesignInput.t)
          (JSON_stringify : Residential.DesignInput.t -> string)
          (saves : list Residential.DesignInput.t),
      ResidentialState.initialInputs JSON_parse
        (fold_left (fun s inputs => ResidentialState.saveInputs JSON_stringify inputs s)
           saves (fun _ => None))
      = Some Samples.residentialDefaults).
Proof.
  split; [|split].
  - intros JSON_parse JSON_stringify inputs s.
    unfold SuiteState.initialInputs, SuiteState.saveInputs.
    rewrite getItem_setItem_same. cbv zeta.
    destruct (JSON_stringify inputs); reflexivity.
  - intros JSON_parse JSON_stringify inputs s.
    unfold ResidentialState.initialInputs, ResidentialState.saveInputs.
    rewrite getItem_setItem_other by reflexivity. reflexivity.
  - intros JSON_parse JSON_stringify saves.
    assert (G : forall s,
               Storage.getItem "beamsafe_pro_inputs_v5"
                 (fold_left
                    (fun s inputs => ResidentialState.saveInputs JSON_stringify inputs s)
                    saves s)
               = Storage.getItem "beamsafe_pro_inputs_v5" s).
    { induction saves as [|i saves IH]; intros s; cbn [fold_left]; [reflexivity|].
      rewrite IH. unfold ResidentialState.saveInputs.
      apply getItem_setItem_other. reflexivity. }
    unfold ResidentialState.initialInputs. rewrite G. reflexivity.
Qed.

End StorageProperties.

(** ** The sketch *)

Section SketchProperties.
Import Float64 Float64Facts Rounding NumberFacts MathFacts MonotoneFacts.
Local Open Scope js_scope.

(** [Math.min(hi, y)] of a number [y] at or above [lo], with [lo <= hi]. *)
Lemma min_between (lo hi y : float) :
  is_nan hi = false -> (lo <=? hi)%float = true -> (lo <=? y)%float = true ->
  (lo <=? min hi y)%float = true /\ (min hi y <=? hi)%float = true.
Proof.
  intros Nh H Y. pose proof (leb_is_nan_r _ _ Y) as Ny.
  destruct (min_numbers _ _ Nh Ny) as ([E|E] & U & _).
  - rewrite E in *. split; assumption.
  - rewrite E in *. split; assumption.
Qed.

(** [y / c1 * c2] for a number [y] at or above a positive [lo]. *)
Lemma scale_above (lo y c1 c2 : float) :
  match Prim2SF lo with S754_finite false _ _ => true | _ => false end = true ->
  match Prim2SF c1 with S754_finite false _ _ => true | _ => false end = true ->
  match Prim2SF c2 with S754_finite false _ _ => true | _ => false end = true ->
  (lo <=? y)%float = true ->
  (lo / c1 * c2 <=? y / c1 * c2)%float = true.
Proof.
  intros P0 P1 P2 Y.
  destruct (positive_constant lo P0) as (m0 & e0 & C0).
  destruct (positive_constant c1 P1) as (m1 & e1 & C1).
  destruct (positive_constant c2 P2) as (m2 & e2 & C2).
  destruct (nns_above _ _ _ _ C0 Y) as [Sy _].
  assert (S0 : nns (Prim2SF lo)) by (rewrite C0; exact I).
  apply (mul_leb_mono _ _ _ _ _ C2 (div_nns _ _ _ _ C1 S0) (div_nns _ _ _ _ C1 Sy)).
  apply (div_leb_mono _ _ _ _ _ C1 S0 Sy Y).
Qed.

(** X13.  The rectangles [StructuralSVG] draws for the residential result,
    whatever the form holds: the ground beam is between 30 and 40 units
    high and between 120 and 180 units wide, and the column is at most 40
    units wide, in a view box of 240 by 240. *)
Theorem sketch_sizes_are_bounded :
  forall inputs : Residential.DesignInput.t,
    exists r : Residential.DesignResult.t,
      Residential.calculateDesign inputs = Some r /\
      let gh := Sketch.Residential.groundBeamH (Residential.DesignResult.groundBeamDepth r) in
      let gw := Sketch.Residential.groundBeamW (Residential.DesignResult.groundBeamWidth r) in
      let cw := Sketch.Residential.colW (Residential.DesignResult.colSize r) in
      (num 30 <=? gh) = true /\ (gh <=? num 40) = true /\
      (num 120 <=? gw) = true /\ (gw <=? num 180) = true /\
      (cw <=? num 40) = true.
Proof.
  intros inputs. exists (Residential.result (Residential.parse inputs)).
  split; [apply Residential_calculateDesign_Some|].
  destruct (Residential_sizes inputs) as (_ & W & D1 & _ & NM).
  set (p := Residential.parse inputs) in *.
  cbn [Residential.result Residential.DesignResult.groundBeamDepth
       Residential.DesignResult.groundBeamWidth Residential.DesignResult.colSize].
  cbv zeta.
  unfold Sketch.Residential.groundBeamH, Sketch.Residential.groundBeamW,
    Sketch.Residential.colW.
  cbn [Math_max Math_min mul div leb num Float64_Num] in *.
  pose proof (scale_above (of_Q 300) (Residential.groundBeamDepth p) (of_Q 400) (of_Q 40)
                ltac:(vm_compute; reflexivity) ltac:(vm_compute; reflexivity)
                ltac:(vm_compute; reflexivity) D1) as H1.
  replace (of_Q 300 / of_Q 400 * of_Q 40)%float with (of_Q 30) in H1
    by (vm_compute; reflexivity).
  pose proof (scale_above (of_Q 200) (Residential.groundBeamWidth p) (of_Q 300) (of_Q 180)
                ltac:(vm_compute; reflexivity) ltac:(vm_compute; reflexivity)
                ltac:(vm_compute; reflexivity) W) as H2.
  replace (of_Q 200 / of_Q 300 * of_Q 180)%float with (of_Q 120) in H2
    by (vm_compute; reflexivity).
  destruct (min_between (of_Q 30) (of_Q 40) _ ltac:(vm_compute; reflexivity)
              ltac:(vm_compute; reflexivity) H1) as [A1 A2].
  destruct (min_between (of_Q 120) (of_Q 180) _ ltac:(vm_compute; reflexivity)
              ltac:(vm_compute; reflexivity) H2) as [B1 B2].
  refine (conj A1 (conj A2 (conj B1 (conj B2 _)))).
  destruct (positive_constant (of_Q 200) ltac:(vm_compute; reflexivity)) as (m1 & e1 & C1).
  destruct (positive_constant (of_Q 40) ltac:(vm_compute; reflexivity)) as (m2 & e2 & C2).
  refine (proj1 (proj2 (min_numbers _ _ _ _))); [vm_compute; reflexivity|].
  apply (mul_is_nan _ _ _ _ C2), (div_is_nan _ _ _ _ C1). exact NM.
Qed.

End SketchProperties.


(** ** What a SAFE section carries *)

Section SafeSectionProperties.
Import Kernel KernelFacts.
Context {A : Type} `{Num A}.
Local Open Scope js_scope.

(** X17.  In any arithmetic, a section whose verdict is SAFE when the block
    is left has passed in flexure and in shear, carries a main bar out of
    the table (never "None"), the hangers "2T12 (Hangers)" and links of one
    of the two spacings chosen by the shear stress (never the initial
    label). *)
Theorem SAFE_section_carries_bars_and_links :
  forall (lbl : Labels) (K M V b d h fcu : A),
    let r := sectionDesign lbl K M V b d h fcu in
    status r = SAFE ->
    flexure r = SAFE /\
    (K <=? num 0.156) = true /\
    (shearStress V b d >? num 0.8 * Math_sqrt fcu) = false /\
    mainBar r = selectMainBar (asRequired r) /\
    mainBar r <> "None" /\
    topBar r = "2T12 (Hangers)" /\
    shearLinks r = (if shearStress V b d >? num 0.4 then linksHigh lbl else linksLow lbl).
Proof.
  intros lbl K M V b d h fcu r S. subst r.
  destruct (flexureStatus K) eqn:F.
  - rewrite (sectionDesign_SAFE _ _ _ _ _ _ _ _ F) in *.
    cbn [status flexure mainBar asRequired topBar shearLinks] in *.
    split; [reflexivity|]. split; [apply flexureStatus_SAFE; exact F|].
    split; [destruct (shearStress V b d >? num 0.8 * Math_sqrt fcu); [discriminate|reflexivity]|].
    split; [reflexivity|]. split; [apply selectMainBar_not_None|].
    split; reflexivity.
  - rewrite (sectionDesign_UNSAFE _ _ _ _ _ _ _ _ F) in S. discriminate.
Qed.

End SafeSectionProperties.

Section SafeSectionExample.
Import Float64 Kernel.

(** The beam of the initial form is SAFE and carries "3T16 Bottom". *)
Lemma SAFE_section_example :
  mainBar (Suite.beam (Suite.parse Samples.suiteDefaults)) <> "None" /\
  status (Suite.beam (Suite.parse Samples.suiteDefaults)) = SAFE.
Proof.
  assert (S : status (Suite.beam (Suite.parse Samples.suiteDefaults)) = SAFE)
    by (vm_compute; reflexivity).
  split; [|exact S].
  exact (proj1 (proj2 (proj2 (proj2 (proj2
           (SAFE_section_carries_bars_and_links _ _ _ _ _ _ _ _ S)))))).
Defined.

End SafeSectionExample.

(** ** Which field reaches which part of the result *)

Section FieldInfluence.
Import Float64.
Local Open Scope js_scope.

(** The residential result is computed from seven of the eight parsed
    values. *)
Lemma Residential_result_fields (p q : Residential.V.Locals float) :
  Residential.V.colWidth p = Residential.V.colWidth q ->
  Residential.V.colLength p = Residential.V.colLength q ->
  Residential.V.colSpacing p = Residential.V.colSpacing q ->
  Residential.V.colLoad p = Residential.V.colLoad q ->
  Residential.V.soilCapacity p = Residential.V.soilCapacity q ->
  Residential.V.fcu p = Residential.V.fcu q ->
  Residential.V.groundBeamL p = Residential.V.groundBeamL q ->
  Residential.result p = Residential.result q /\
  Residential.inputsRejected p = Residential.inputsRejected q.
Proof.
  destruct p as [w1 l1 h1 s1 f1 c1 g1 b1], q as [w2 l2 h2 s2 f2 c2 g2 b2].
  cbn [Residential.V.colWidth Residential.V.colLength Residential.V.colSpacing
       Residential.V.colLoad Residential.V.soilCapacity Residential.V.fcu
       Residential.V.groundBeamL].
  intros -> -> -> -> -> -> ->. split; reflexivity.
Qed.

(** X18.  The column height of the residential form is parsed (line 96) and
    never used: editing it to any text leaves the outcome of
    [calculateDesign] as it was, the column verdict included. *)
Theorem column_height_has_no_effect :
  forall (value : string) (inputs : Residential.DesignInput.t),
    Residential.calculateDesign (ResidentialState.handleInputChange "colHeight" value inputs)
    = Residential.calculateDesign inputs.
Proof.
  intros value inputs. unfold Residential.calculateDesign.
  destruct (Residential_result_fields
              (Residential.parse (ResidentialState.handleInputChange "colHeight" value inputs))
              (Residential.parse inputs)
              eq_refl eq_refl eq_refl eq_refl eq_refl eq_refl eq_refl) as [-> ->].
  reflexivity.
Qed.

(** The parts of the beam-suite result that belong to the primary beam. *)
Lemma Suite_beam_fields (p q : Suite.V.Locals float) :
  Suite.V.L p = Suite.V.L q -> Suite.V.fcu p = Suite.V.fcu q ->
  Suite.V.trib p = Suite.V.trib q -> Suite.V.wallH p = Suite.V.wallH q ->
  Suite.V.LL p = Suite.V.LL q -> Suite.V.b p = Suite.V.b q -> Suite.V.h p = Suite.V.h q ->
  Suite.beam p = Suite.beam q /\ Suite.totalUDL p = Suite.totalUDL q /\
  Suite.M p = Suite.M q /\ Suite.reaction p = Suite.reaction q.
Proof.
  intros E1 E2 E3 E4 E5 E6 E7.
  unfold Suite.beam, Suite.K, Suite.M, Suite.reaction, Suite.d, Suite.totalUDL,
    Suite.deadLoad, Suite.liveLoadTotal, Suite.sw.
  rewrite E1, E2, E3, E4, E5, E6, E7. repeat split; reflexivity.
Qed.

(** X19.  In the beam suite the fields of the ground beam, the soil
    capacity and the column height never reach the primary beam: after an
    edit of any of them the section, the loads, the moment, the reaction,
    the steel, the bars, the links, the verdict and the utilisation of the
    primary beam are what they were. *)
Theorem beam_ignores_ground_beam_and_soil_fields :
  forall (name value : string) (inputs : Suite.DesignInput.t),
    In name ["groundBeamSpan"; "groundBeamWidth"; "groundBeamDepth"; "groundBeamLoad";
             "soilCapacity"; "colHeight"] ->
    let r := Suite.result (Suite.parse inputs) in
    let r' := Suite.result (Suite.parse (SuiteState.handleInputChange name value inputs)) in
    Suite.DesignResult.width r' = Suite.DesignResult.width r /\
    Suite.DesignResult.depth r' = Suite.DesignResult.depth r /\
    Suite.DesignResult.totalUDL r' = Suite.DesignResult.totalUDL r /\
    Suite.DesignResult.moment r' = Suite.DesignResult.moment r /\
    Suite.DesignResult.reaction r' = Suite.DesignResult.reaction r /\
    Suite.DesignResult.asRequired r' = Suite.DesignResult.asRequired r /\
    Suite.DesignResult.mainBar r' = Suite.DesignResult.mainBar r /\
    Suite.DesignResult.topBar r' = Suite.DesignResult.topBar r /\
    Suite.DesignResult.shearLinks r' = Suite.DesignResult.shearLinks r /\
    Suite.DesignResult.status r' = Suite.DesignResult.status r /\
    Suite.DesignResult.utilization r' = Suite.DesignResult.utilization r.
Proof.
  intros name value inputs I r r'. subst r r'.
  set (p := Suite.parse inputs).
  set (q := Suite.parse (SuiteState.handleInputChange name value inputs)).
  assert (E : Suite.V.L q = Suite.V.L p /\ Suite.V.fcu q = Suite.V.fcu p /\
              Suite.V.trib q = Suite.V.trib p /\ Suite.V.wallH q = Suite.V.wallH p /\
              Suite.V.LL q = Suite.V.LL p /\ Suite.V.b q = Suite.V.b p /\
              Suite.V.h q = Suite.V.h p).
  { cbn [In] in I.
    destruct I as [<-|[<-|[<-|[<-|[<-|[<-|[]]]]]]]; repeat split; reflexivity. }
  destruct E as (E1 & E2 & E3 & E4 & E5 & E6 & E7).
  destruct (Suite_beam_fields q p E1 E2 E3 E4 E5 E6 E7) as (B & U & M & R).
  cbn [Suite.result Suite.DesignResult.width Suite.DesignResult.depth
       Suite.DesignResult.totalUDL Suite.DesignResult.moment Suite.DesignResult.reaction
       Suite.DesignResult.asRequired Suite.DesignResult.mainBar Suite.DesignResult.topBar
       Suite.DesignResult.shearLinks Suite.DesignResult.status
       Suite.DesignResult.utilization].
  rewrite B, U, M, R, E6, E7. repeat split; reflexivity.
Qed.

(** Typing a soil capacity of 75 kPa into the initial form leaves its beam
    SAFE with "3T16 Bottom". *)
Lemma beam_ignores_soil_example :
  Suite.DesignResult.mainBar
    (Suite.result (Suite.parse
       (SuiteState.handleInputChange "soilCapacity" "75" Samples.suiteDefaults)))
  = "3T16 Bottom".
Proof.
  destruct (beam_ignores_ground_beam_and_soil_fields "soilCapacity" "75"
              Samples.suiteDefaults
              (or_intror (or_intror (or_intror (or_intror (or_introl eq_refl))))))
    as (_ & _ & _ & _ & _ & _ & E & _).
  rewrite E.
  vm_compute. reflexivity.
Defined.

End FieldInfluence.

(** ** A soil capacity of zero in the beam suite *)

Section ZeroSoilProperties.
Import Float64 Float64Facts Rounding RoundingFacts NumberFacts MathFacts MonotoneFacts.
Local Open Scope js_scope.

Lemma ceil_infinity (x : float) : Prim2SF x = S754_infinity false -> ceil x = x.
Proof. intros E. unfold ceil. rewrite E. reflexivity. Qed.

(** X20.  The beam suite uses a soil capacity of 0 as typed (the text "0"
    is not empty, so no default replaces it).  Under a positive finite
    axial load the division by zero makes the footing area and the footing
    side +Infinity, the pressure 0, the cantilever +Infinity and the moment
    [0 * Infinity], which is NaN; the steel area is NaN and the mesh
    reported is the first one, "T12 @ 250mm B1/B2".  No error is raised. *)
Theorem zero_soil_capacity_gives_infinite_footing :
  forall p : Suite.V.Locals float,
    Suite.V.soil p = num 0 ->
    (num 0 <? Suite.axialLoad p) = true -> (Suite.axialLoad p <? infinity) = true ->
    Suite.footingSize p = infinity /\
    Suite.footingP p = num 0 /\
    is_nan (Suite.footingM p) = true /\
    is_nan (Suite.finalFootingAs p) = true /\
    Suite.footingSteel p = "T12 @ 250mm B1/B2".
Proof.
  intros p Z L0 L1.
  destruct (positive_finite _ L0 L1) as (m & e & El).
  assert (A : Prim2SF (Suite.footingArea p) = S754_infinity false).
  { unfold Suite.footingArea. cbn [div Float64_Num].
    rewrite FloatAxioms.div_spec, El, Z. reflexivity. }
  assert (S : Prim2SF (PrimFloat.sqrt (Suite.footingArea p) * of_Q 10)%float
              = S754_infinity false).
  { rewrite FloatAxioms.mul_spec, FloatAxioms.sqrt_spec, A, Prim2SF_ten. reflexivity. }
  assert (F : Prim2SF (Suite.footingSize p) = S754_infinity false).
  { unfold Suite.footingSize. cbn [Math_ceil Math_sqrt mul div num Float64_Num].
    rewrite (ceil_infinity _ S).
    rewrite FloatAxioms.div_spec, S, Prim2SF_ten. reflexivity. }
  assert (P : Prim2SF (Suite.footingP p) = S754_zero false).
  { unfold Suite.footingP. cbn [mul div Float64_Num].
    rewrite FloatAxioms.div_spec, FloatAxioms.mul_spec, F, El. reflexivity. }
  assert (C : Prim2SF (Suite.cantL p) = S754_infinity false).
  { unfold Suite.cantL. cbn [sub div Float64_Num].
    rewrite FloatAxioms.div_spec, FloatAxioms.sub_spec, F.
    replace (Prim2SF (Suite.colSize / num 1000))
      with (S754_finite false 7205759403792794 (-55)) by (vm_compute; reflexivity).
    replace (Prim2SF (of_Q 2)) with (S754_finite false 4503599627370496 (-51))
      by (vm_compute; reflexivity).
    reflexivity. }
  assert (M : is_nan (Suite.footingM p) = true).
  { unfold Suite.footingM, Math_pow2. cbn [mul div Float64_Num].
    apply div_nan_l. apply is_nan_true.
    rewrite !FloatAxioms.mul_spec, P, C. reflexivity. }
  assert (N : is_nan (Suite.finalFootingAs p) = true).
  { unfold Suite.finalFootingAs, Suite.footingAs. cbn [Math_max mul div Float64_Num].
    rewrite max_nan_l; [reflexivity|]. apply div_nan_l, mul_nan_l. exact M. }
  split; [apply Prim2SF_inj; rewrite F; reflexivity|].
  split; [apply Prim2SF_inj; rewrite P; reflexivity|].
  split; [exact M|]. split; [exact N|].
  unfold Suite.footingSteel. cbn [ltb Float64_Num].
  rewrite !ltb_nan_r by exact N. reflexivity.
Qed.

(** The initial form with the soil capacity edited to "0". *)
Lemma zero_soil_capacity_form :
  option_map (fun r => (Suite.DesignResult.footingSize r, Suite.DesignResult.footingSteel r))
    (Suite.calculateDesign
       (SuiteState.handleInputChange "soilCapacity" "0" Samples.suiteDefaults))
  = Some (infinity, "T12 @ 250mm B1/B2").
Proof.
  set (p := Suite.parse (SuiteState.handleInputChange "soilCapacity" "0"
                            Samples.suiteDefaults)).
  assert (Z : Suite.V.soil p = num 0) by (vm_compute; reflexivity).
  assert (L0 : (num 0 <? Suite.axialLoad p)%js = true) by (vm_compute; reflexivity).
  assert (L1 : (Suite.axialLoad p <? infinity)%js = true) by (vm_compute; reflexivity).
  destruct (zero_soil_capacity_gives_infinite_footing p Z L0 L1) as (F & _ & _ & _ & S).
  rewrite Suite_calculateDesign_Some by (vm_compute; reflexivity).
  fold p.
  cbn [option_map Suite.result Suite.DesignResult.footingSize
       Suite.DesignResult.footingSteel].
  rewrite F, S. reflexivity.
Defined.

End ZeroSoilProperties.

(** ** [handleInputChange] as an update of the form *)

Section FormUpdateLaws.
Import Suite.DesignInput.

Lemma update_overwrites (name field v1 v2 old : string) :
  (if String.eqb name field then v2 else if String.eqb name field then v1 else old)
  = (if String.eqb name field then v2 else old).
Proof. destruct (String.eqb name field); reflexivity. Qed.

Lemma updates_commute (n1 n2 field v1 v2 old : string) :
  String.eqb n1 n2 = false ->
  (if String.eqb n1 field then v1 else if String.eqb n2 field then v2 else old)
  = (if String.eqb n2 field then v2 else if String.eqb n1 field then v1 else old).
Proof.
  intros D.
  destruct (String.eqb_spec n1 field) as [E1|N1], (String.eqb_spec n2 field) as [E2|N2];
    try reflexivity.
  subst. rewrite String.eqb_refl in D. discriminate.
Qed.

(** An edit under another name leaves a field as it was. *)
Lemma update_other (name field value old : string) :
  name <> field -> (if String.eqb name field then value else old) = old.
Proof. intros N. destruct (String.eqb_spec name field) as [E|_]; [contradiction|reflexivity]. Qed.

(** X21.  [handleInputChange] of the beam suite, [{ ...prev, [name]: value }],
    as an update of the thirteen fields of the form: each of the thirteen
    fields holds the value typed after an edit under its name, and keeps its
    value under an edit with any other name; a second edit of the same
    field overwrites the first, edits of two different fields give the same
    form in either order, and a name that is not a field of the form
    changes none of them. *)
Theorem handleInputChange_update_laws :
  forall (n1 n2 v1 v2 : string) (inputs : Suite.DesignInput.t),
    (span (SuiteState.handleInputChange "span" v1 inputs) = v1 /\
     width (SuiteState.handleInputChange "width" v1 inputs) = v1 /\
     depth (SuiteState.handleInputChange "depth" v1 inputs) = v1 /\
     fcu (SuiteState.handleInputChange "fcu" v1 inputs) = v1 /\
     tributaryWidth (SuiteState.handleInputChange "tributaryWidth" v1 inputs) = v1 /\
     wallHeight (SuiteState.handleInputChange "wallHeight" v1 inputs) = v1 /\
     liveLoad (SuiteState.handleInputChange "liveLoad" v1 inputs) = v1 /\
     colHeight (SuiteState.handleInputChange "colHeight" v1 inputs) = v1 /\
     soilCapacity (SuiteState.handleInputChange "soilCapacity" v1 inputs) = v1 /\
     groundBeamSpan (SuiteState.handleInputChange "groundBeamSpan" v1 inputs) = v1 /\
     groundBeamWidth (SuiteState.handleInputChange "groundBeamWidth" v1 inputs) = v1 /\
     groundBeamDepth (SuiteState.handleInputChange "groundBeamDepth" v1 inputs) = v1 /\
     groundBeamLoad (SuiteState.handleInputChange "groundBeamLoad" v1 inputs) = v1) /\
    ((n1 <> "span" -> span (SuiteState.handleInputChange n1 v1 inputs) = span inputs) /\
     (n1 <> "width" -> width (SuiteState.handleInputChange n1 v1 inputs) = width inputs) /\
     (n1 <> "depth" -> depth (SuiteState.handleInputChange n1 v1 inputs) = depth inputs) /\
     (n1 <> "fcu" -> fcu (SuiteState.handleInputChange n1 v1 inputs) = fcu inputs) /\
     (n1 <> "tributaryWidth" -> tributaryWidth (SuiteState.handleInputChange n1 v1 inputs) = tributaryWidth inputs) /\
     (n1 <> "wallHeight" -> wallHeight (SuiteState.handleInputChange n1 v1 inputs) = wallHeight inputs) /\
     (n1 <> "liveLoad" -> liveLoad (SuiteState.handleInputChange n1 v1 inputs) = liveLoad inputs) /\
     (n1 <> "colHeight" -> colHeight (SuiteState.handleInputChange n1 v1 inputs) = colHeight inputs) /\
     (n1 <> "soilCapacity" -> soilCapacity (SuiteState.handleInputChange n1 v1 inputs) = soilCapacity inputs) /\
     (n1 <> "groundBeamSpan" -> groundBeamSpan (SuiteState.handleInputChange n1 v1 inputs) = groundBeamSpan inputs) /\
     (n1 <> "groundBeamWidth" -> groundBeamWidth (SuiteState.handleInputChange n1 v1 inputs) = groundBeamWidth inputs) /\
     (n1 <> "groundBeamDepth" -> groundBeamDepth (SuiteState.handleInputChange n1 v1 inputs) = groundBeamDepth inputs) /\
     (n1 <> "groundBeamLoad" -> groundBeamLoad (SuiteState.handleInputChange n1 v1 inputs) = groundBeamLoad inputs)) /\
    SuiteState.handleInputChange n1 v2 (SuiteState.handleInputChange n1 v1 inputs)
    = SuiteState.handleInputChange n1 v2 inputs /\
    (String.eqb n1 n2 = false ->
     SuiteState.handleInputChange n1 v1 (SuiteState.handleInputChange n2 v2 inputs)
     = SuiteState.handleInputChange n2 v2 (SuiteState.handleInputChange n1 v1 inputs)) /\
    (~ In n1 ["span"; "width"; "depth"; "fcu"; "tributaryWidth"; "wallHeight"; "liveLoad";
              "colHeight"; "soilCapacity"; "groundBeamSpan"; "groundBeamWidth";
              "groundBeamDepth"; "groundBeamLoad"] ->
     SuiteState.handleInputChange n1 v1 inputs = inputs).
Proof.
  intros n1 n2 v1 v2 inputs.
  split; [repeat split; reflexivity|].
  split; [repeat split; intros N; unfold SuiteState.handleInputChange;
          cbn [span width depth fcu tributaryWidth wallHeight liveLoad colHeight soilCapacity
         groundBeamSpan groundBeamWidth groundBeamDepth groundBeamLoad];
          apply update_other; exact N|].
  split; [|split].
  - unfold SuiteState.handleInputChange.
    cbn [span width depth fcu tributaryWidth wallHeight liveLoad colHeight soilCapacity
         groundBeamSpan groundBeamWidth groundBeamDepth groundBeamLoad].
    rewrite !update_overwrites. reflexivity.
  - intros D. unfold SuiteState.handleInputChange.
    cbn [span width depth fcu tributaryWidth wallHeight liveLoad colHeight soilCapacity
         groundBeamSpan groundBeamWidth groundBeamDepth groundBeamLoad].
    f_equal; apply updates_commute; exact D.
  - intros N. unfold SuiteState.handleInputChange. cbn [In] in N.
    destruct inputs as [f1 f2 f3 f4 f5 f6 f7 f8 f9 f10 f11 f12 f13].
    cbn [span width depth fcu tributaryWidth wallHeight liveLoad colHeight soilCapacity
         groundBeamSpan groundBeamWidth groundBeamDepth groundBeamLoad].
    rewrite !update_other by (intros E; apply N; rewrite E; tauto).
    reflexivity.
Qed.

End FormUpdateLaws.

(** ** The footing side grows with the load *)

Section FootingLoadProperties.
Import Float64 Float64Facts Rounding RoundingFacts NumberFacts MathFacts MonotoneFacts.
Local Open Scope js_scope.

Lemma sqrt_nns (a : float) : nns (Prim2SF a) -> nns (Prim2SF (PrimFloat.sqrt a)).
Proof. intros S. rewrite FloatAxioms.sqrt_spec. apply SFsqrt_nns. exact S. Qed.

(** [Math.sqrt] is monotone on the non-negative numbers. *)
Lemma sqrt_leb_mono (a b : float) :
  nns (Prim2SF a) -> nns (Prim2SF b) -> (a <=? b)%float = true ->
  (PrimFloat.sqrt a <=? PrimFloat.sqrt b)%float = true.
Proof.
  intros Sa Sb. rewrite !leb_spec, !FloatAxioms.sqrt_spec.
  apply SFsqrt_mono; apply nn_prim; assumption.
Qed.

Lemma ceil_mono_nns (a b : float) :
  nns (Prim2SF a) -> nns (Prim2SF b) -> (a <=? b)%float = true ->
  (ceil a <=? ceil b)%float = true.
Proof.
  intros Sa Sb. rewrite !leb_spec. apply ceil_leb_mono; apply nn_prim; assumption.
Qed.

Lemma side_monotone_binary64 (soil l1 l2 : float) :
  (0 <? soil)%float = true -> (soil <? infinity)%float = true ->
  (0 <? l1)%float = true -> (l1 <=? l2)%float = true ->
  (ceil (PrimFloat.sqrt (l1 / soil) * of_Q 10) / of_Q 10
   <=? ceil (PrimFloat.sqrt (l2 / soil) * of_Q 10) / of_Q 10)%float = true.
Proof.
  intros S0 S1 L1 L12.
  destruct (positive_finite soil S0 S1) as (ms & es & Es).
  destruct (nns_positive l1 L1) as [N1 _].
  destruct (nns_positive l2 (ltb_leb_trans _ _ _ L1 L12)) as [N2 _].
  pose proof Prim2SF_ten as E10.
  pose proof (div_nns _ _ _ _ Es N1) as A1. pose proof (div_nns _ _ _ _ Es N2) as A2.
  pose proof (sqrt_nns _ A1) as R1. pose proof (sqrt_nns _ A2) as R2.
  pose proof (mul_nns _ _ _ _ E10 R1) as T1. pose proof (mul_nns _ _ _ _ E10 R2) as T2.
  pose proof (ceil_nns _ (nn_prim _ T1)) as C1. pose proof (ceil_nns _ (nn_prim _ T2)) as C2.
  apply (div_leb_mono _ _ _ _ _ E10 C1 C2), (ceil_mono_nns _ _ T1 T2),
    (mul_leb_mono _ _ _ _ _ E10 R1 R2), (sqrt_leb_mono _ _ A1 A2),
    (div_leb_mono _ _ _ _ _ Es N1 N2). exact L12.
Qed.

(** X22.  In binary64, on a soil of fixed, positive and finite capacity, a
    heavier load never gets a smaller footing: for loads [0 < l1 <= l2] the
    side computed for [l2] is at least the side computed for [l1], in the
    residential form (load [colLoad]) and in the beam suite (load
    [axialLoad]). *)
Theorem footing_side_monotone_in_load :
  forall soil l1 l2 : float,
    (num 0 <? soil) = true -> (soil <? infinity) = true ->
    (num 0 <? l1) = true -> (l1 <=? l2) = true ->
    (forall p1 p2 : Residential.V.Locals float,
        Residential.V.soilCapacity p1 = soil -> Residential.V.soilCapacity p2 = soil ->
        Residential.V.colLoad p1 = l1 -> Residential.V.colLoad p2 = l2 ->
        (Residential.footingSize p1 <=? Residential.footingSize p2) = true) /\
    (forall q1 q2 : Suite.V.Locals float,
        Suite.V.soil q1 = soil -> Suite.V.soil q2 = soil ->
        Suite.axialLoad q1 = l1 -> Suite.axialLoad q2 = l2 ->
        (Suite.footingSize q1 <=? Suite.footingSize q2) = true).
Proof.
  intros soil l1 l2 S0 S1 L1 L12. split.
  - intros p1 p2 E1 E2 E3 E4.
    unfold Residential.footingSize, Residential.requiredFootingArea.
    rewrite E1, E2, E3, E4. apply side_monotone_binary64; assumption.
  - intros q1 q2 E1 E2 E3 E4.
    unfold Suite.footingSize, Suite.footingArea.
    rewrite E1, E2, E3, E4. apply side_monotone_binary64; assumption.
Qed.

(** On 150 kPa the side goes from 1.9 m under 500 kN to 3.7 m under
    2000 kN. *)
Lemma footing_side_500_to_2000 :
  (Residential.footingSize (Residential.parse (Samples.residentialForm "500" "150"))
   <=? Residential.footingSize (Residential.parse (Samples.residentialForm "2000" "150")))
  = true /\
  Residential.footingSize (Residential.parse (Samples.residentialForm "2000" "150"))
  = num 3.7.
Proof.
  split; [|vm_compute; reflexivity].
  refine (proj1 (footing_side_monotone_in_load (num 150) (num 500) (num 2000) _ _ _ _)
            (Residential.parse (Samples.residentialForm "500" "150"))
            (Residential.parse (Samples.residentialForm "2000" "150")) _ _ _ _);
    vm_compute; reflexivity.
Defined.

End FootingLoadProperties.

(** ** Sums and products of non-negative numbers *)

Module SumFacts.
Import Float64 Float64Facts Rounding RoundingFacts NumberFacts MathFacts MonotoneFacts.
Local Open Scope R_scope.
Local Abbreviation fexp := (SpecFloat.fexp prec emax).
Local Abbreviation bounded := (SpecFloat.bounded prec emax).

(** A positive integer mantissa at any exponent is rounded from a mantissa
    at or below its canonical exponent. *)
Lemma binary_normalize_exact (p : positive) (e : Z) :
  exists mz ez,
    binary_normalize prec emax (Zpos p) e false
    = binary_round_aux prec emax false (Zpos mz) ez loc_Exact /\
    loc_ok (Zpos mz) ez loc_Exact (IZR (Zpos p) * bpow e) /\
    (ez <= fexp (Zdigits2 (Zpos mz) + ez))%Z.
Proof.
  cbn [binary_normalize]. unfold binary_round, shl_align.
  change (Zpos (digits2_pos p)) with (Zdigits2 (Zpos p)).
  destruct (fexp (Zdigits2 (Zpos p) + e) - e)%Z as [|d|d] eqn:E.
  - exists p, e. split; [reflexivity|]. cbn [loc_ok]. split; [reflexivity|]. lia.
  - exists p, e. split; [reflexivity|]. cbn [loc_ok]. split; [reflexivity|]. lia.
  - exists (Pos.iter xO p d), (fexp (Zdigits2 (Zpos p) + e)). split; [reflexivity|].
    assert (Ee : fexp (Zdigits2 (Zpos p) + e) = (e - Zpos d)%Z) by lia.
    split.
    + cbn [loc_ok]. rewrite iter_xO, mult_IZR, <- bpow_IZR by lia.
      rewrite Ee, Rmult_assoc, <- bpow_add. do 2 f_equal. lia.
    + assert (D : Zdigits2 (Zpos (Pos.iter xO p d)) = (Zdigits2 (Zpos p) + Zpos d)%Z).
      { destruct (Zdigits2_bounds (Zpos p) ltac:(lia)) as [[L U] P].
        apply Zdigits2_unique; [lia|]. rewrite iter_xO.
        replace (Zdigits2 (Zpos p) + Zpos d - 1)%Z with ((Zdigits2 (Zpos p) - 1) + Zpos d)%Z
          by lia.
        rewrite !Z.pow_add_r by lia.
        assert (0 < 2 ^ Zpos d)%Z by (apply Z.pow_pos_nonneg; lia). nia. }
      rewrite D. rewrite Ee at 2.
      replace (Zdigits2 (Zpos p) + Zpos d + (e - Zpos d))%Z with (Zdigits2 (Zpos p) + e)%Z
        by lia.
      lia.
Qed.

(** Aligning a mantissa to a smaller exponent keeps its value. *)
Lemma shl_align_value (m : positive) (e ez : Z) :
  (ez <= e)%Z ->
  IZR (Zpos (fst (shl_align m e ez))) * bpow ez = IZR (Zpos m) * bpow e.
Proof.
  intros H. unfold shl_align. destruct (ez - e)%Z as [|d|d] eqn:E; cbn [fst].
  - f_equal. f_equal. lia.
  - lia.
  - rewrite iter_xO, mult_IZR, <- bpow_IZR by lia.
    rewrite Rmult_assoc, <- bpow_add. do 2 f_equal. lia.
Qed.

(** The sum of two positive finite numbers is their exact sum, rounded. *)
Lemma SFadd_finite (mx my : positive) (ex ey : Z) :
  exists mz ez,
    SFadd prec emax (S754_finite false mx ex) (S754_finite false my ey)
    = binary_round_aux prec emax false (Zpos mz) ez loc_Exact /\
    loc_ok (Zpos mz) ez loc_Exact (IZR (Zpos mx) * bpow ex + IZR (Zpos my) * bpow ey) /\
    (ez <= fexp (Zdigits2 (Zpos mz) + ez))%Z.
Proof.
  cbn [SFadd cond_Zopp].
  set (ez := Z.min ex ey).
  pose proof (shl_align_value mx ex ez ltac:(unfold ez; lia)) as Vx.
  pose proof (shl_align_value my ey ez ltac:(unfold ez; lia)) as Vy.
  set (a := fst (shl_align mx ex ez)) in *. set (b := fst (shl_align my ey ez)) in *.
  change (Zpos a + Zpos b)%Z with (Zpos (a + b)).
  destruct (binary_normalize_exact (a + b) ez) as (mz & ez' & E & L & C).
  exists mz, ez'. split; [exact E|]. split; [|exact C].
  cbn [loc_ok] in *. rewrite <- L, Pos2Z.inj_add, plus_IZR, Rmult_plus_distr_r, Vx, Vy.
  reflexivity.
Qed.

(** The sum of two non-negative numbers that are not infinite. *)
Lemma SFadd_shape (x y : spec_float) :
  nn x -> nn y -> x <> S754_infinity false -> y <> S754_infinity false ->
  exists M E,
    (0 <= M)%Z /\
    SFadd prec emax x y = binary_round_aux prec emax false M E loc_Exact /\
    loc_ok M E loc_Exact (val x + val y) /\
    (E <= fexp (Zdigits2 M + E))%Z.
Proof.
  intros [Sx Vx] [Sy Vy] Ix Iy.
  destruct x as [[|]|[|]| |[|] mx ex]; try (simpl in Sx; tauto); try congruence;
    destruct y as [[|]|[|]| |[|] my ey]; try (simpl in Sy; tauto); try congruence.
  - exists 0%Z, (-1074)%Z. split; [lia|]. split; [reflexivity|].
    cbn [loc_ok val]. split; [lra|]. vm_compute. discriminate.
  - exists (Zpos my), ey. split; [lia|]. cbn [SFadd]. rewrite bra_id by exact Vy.
    split; [reflexivity|]. cbn [loc_ok val]. split; [lra|].
    pose proof (bounded_canonical my ey Vy). lia.
  - exists (Zpos mx), ex. split; [lia|]. cbn [SFadd]. rewrite bra_id by exact Vx.
    split; [reflexivity|]. cbn [loc_ok val]. split; [lra|].
    pose proof (bounded_canonical mx ex Vx). lia.
  - destruct (SFadd_finite mx my ex ey) as (mz & ez & E & L & C).
    exists (Zpos mz), ez. split; [lia|]. split; [exact E|]. split; [exact L|exact C].
Qed.

Lemma infinite_or_not (x : spec_float) :
  x = S754_infinity false \/ x <> S754_infinity false.
Proof.
  destruct x as [s|[|]| |s m e]; try (right; discriminate). left. reflexivity.
Qed.

Lemma SFadd_nns (x y : spec_float) : nn x -> nn y -> nns (SFadd prec emax x y).
Proof.
  intros Nx Ny.
  destruct (infinite_or_not x) as [Ex|Ix]; [subst x|].
  - destruct Ny as [Sy _]. destruct y as [[|]|[|]| |[|] my ey]; simpl in *; tauto.
  - destruct (infinite_or_not y) as [Ey|Iy]; [subst y|].
    + destruct Nx as [Sx _]. destruct x as [[|]|[|]| |[|] mx ex]; simpl in *; tauto.
    + destruct (SFadd_shape x y Nx Ny Ix Iy) as (M & E & HM & -> & L & C).
      eapply bra_nns; eassumption.
Qed.

(** The order of two non-negative numbers that are not infinite is the
    order of their values. *)
Lemma SFleb_val_nn (a b : spec_float) :
  nn a -> nn b -> a <> S754_infinity false -> b <> S754_infinity false ->
  SFleb a b = true -> val a <= val b.
Proof.
  intros [Sa Va] [Sb Vb] Ia Ib H.
  destruct a as [[|]|[|]| |[|] ma ea]; try (simpl in Sa; tauto); try congruence;
    destruct b as [[|]|[|]| |[|] mb eb]; try (simpl in Sb; tauto); try congruence;
    cbn [val].
  - lra.
  - apply Rlt_le, val_pos.
  - discriminate.
  - apply SFleb_val; assumption.
Qed.

Lemma SFleb_from_inf (b : spec_float) :
  nns b -> SFleb (S754_infinity false) b = true -> b = S754_infinity false.
Proof.
  destruct b as [[|]|[|]| |[|] mb eb]; simpl; try tauto; discriminate.
Qed.

(** Addition is monotone in both arguments on the non-negative numbers. *)
Lemma SFadd_mono (a b c d : spec_float) :
  nn a -> nn b -> nn c -> nn d ->
  SFleb a b = true -> SFleb c d = true ->
  SFleb (SFadd prec emax a c) (SFadd prec emax b d) = true.
Proof.
  intros Na Nb Nc Nd H1 H2.
  pose proof (SFadd_nns a c Na Nc) as S1.
  destruct (infinite_or_not b) as [Eb|Ib].
  { subst b. replace (SFadd prec emax (S754_infinity false) d) with (S754_infinity false).
    - apply SFleb_inf_r. exact S1.
    - destruct Nd as [Sd _]. destruct d as [[|]|[|]| |[|] md ed]; simpl in *; tauto. }
  destruct (infinite_or_not d) as [Ed|Id].
  { subst d. replace (SFadd prec emax b (S754_infinity false)) with (S754_infinity false).
    - apply SFleb_inf_r. exact S1.
    - destruct Nb as [Sb _]. destruct b as [[|]|[|]| |[|] mb eb]; simpl in *; tauto. }
  assert (Ia : a <> S754_infinity false).
  { intros ->. apply Ib. apply (SFleb_from_inf b); [apply Nb|exact H1]. }
  assert (Ic : c <> S754_infinity false).
  { intros ->. apply Id. apply (SFleb_from_inf d); [apply Nd|exact H2]. }
  destruct (SFadd_shape a c Na Nc Ia Ic) as (M1 & E1 & P1 & -> & L1 & C1).
  destruct (SFadd_shape b d Nb Nd Ib Id) as (M2 & E2 & P2 & -> & L2 & C2).
  eapply bra_mono; try eassumption.
  pose proof (SFleb_val_nn a b Na Nb Ia Ib H1).
  pose proof (SFleb_val_nn c d Nc Nd Ic Id H2). lra.
Qed.

(** *** Multiplication of a fixed positive number *)

Lemma SFmul_nns_finite_l f (mc : positive) (ec : Z) :
  nn f -> bounded mc ec = true -> nns (SFmul prec emax (S754_finite false mc ec) f).
Proof.
  intros [S V] Vc.
  destruct f as [[|]|[|]| |[|] m e]; try (simpl in *; tauto).
  destruct (SFmul_finite mc m ec e) as [-> L].
  eapply bra_nns; [lia|exact L|]. apply mul_precanonical; assumption.
Qed.

Lemma SFmul_mono_r a b (mc : positive) (ec : Z) :
  nn a -> nn b -> bounded mc ec = true -> SFleb a b = true ->
  SFleb (SFmul prec emax (S754_finite false mc ec) a)
        (SFmul prec emax (S754_finite false mc ec) b) = true.
Proof.
  intros [Sa Va] [Sb Vb] Vc H.
  destruct a as [[|]|[|]| |[|] ma ea]; try (simpl in Sa; tauto).
  - apply SFleb_zero_l. apply SFmul_nns_finite_l; [split|]; assumption.
  - destruct b as [[|]|[|]| |[|] mb eb]; try (simpl in Sb; tauto); try discriminate;
      reflexivity.
  - destruct b as [[|]|[|]| |[|] mb eb]; try (simpl in Sb; tauto); try discriminate.
    + apply SFleb_inf_r. apply SFmul_nns_finite_l; [split|]; assumption.
    + destruct (SFmul_finite mc ma ec ea) as [-> L1].
      destruct (SFmul_finite mc mb ec eb) as [-> L2].
      eapply bra_mono; try eassumption; try lia;
        try (apply mul_precanonical; assumption).
      pose proof (val_pos mc ec). pose proof (SFleb_val _ _ _ _ Va Vb H).
      apply Rmult_le_compat_l; lra.
Qed.

(** *** On numbers *)

Lemma add_nns (a c : float) :
  nns (Prim2SF a) -> nns (Prim2SF c) -> nns (Prim2SF (a + c)).
Proof.
  intros Sa Sc. rewrite FloatAxioms.add_spec. apply SFadd_nns; apply nn_prim; assumption.
Qed.

Lemma add_leb_mono (a b c d : float) :
  nns (Prim2SF a) -> nns (Prim2SF b) -> nns (Prim2SF c) -> nns (Prim2SF d) ->
  (a <=? b)%float = true -> (c <=? d)%float = true ->
  (a + c <=? b + d)%float = true.
Proof.
  intros Sa Sb Sc Sd. rewrite !leb_spec, !FloatAxioms.add_spec.
  apply SFadd_mono; apply nn_prim; assumption.
Qed.

Lemma mul_nns_l (c a : float) (mc : positive) (ec : Z) :
  Prim2SF c = S754_finite false mc ec -> nns (Prim2SF a) -> nns (Prim2SF (c * a)).
Proof.
  intros Ec Sa. rewrite FloatAxioms.mul_spec, Ec.
  apply SFmul_nns_finite_l; [apply nn_prim; exact Sa|].
  exact (bounded_Prim2SF c _ _ _ Ec).
Qed.

Lemma mul_leb_mono_r (c a b : float) (mc : positive) (ec : Z) :
  Prim2SF c = S754_finite false mc ec ->
  nns (Prim2SF a) -> nns (Prim2SF b) -> (a <=? b)%float = true ->
  (c * a <=? c * b)%float = true.
Proof.
  intros Ec Sa Sb. rewrite !leb_spec, !FloatAxioms.mul_spec, Ec.
  apply SFmul_mono_r; try (apply nn_prim; assumption).
  exact (bounded_Prim2SF c _ _ _ Ec).
Qed.

End SumFacts.

(** ** More load never helps the beam *)

Section LoadMonotonicity.
Import Float64 Float64Facts Rounding RoundingFacts NumberFacts MathFacts MonotoneFacts.
Import SumFacts Kernel KernelFacts.
Local Open Scope js_scope.

Lemma nns_zero_or_positive (x : float) :
  (num 0 <? x) = true \/ x = num 0 -> nns (Prim2SF x).
Proof.
  intros [P| ->].
  - exact (proj1 (nns_positive x P)).
  - vm_compute. exact I.
Qed.

Lemma nns_leb_refl (x : float) : nns (Prim2SF x) -> (x <=? x)%float = true.
Proof.
  intros S. apply leb_refl, is_nan_false. apply nns_not_nan. exact S.
Qed.

(** The loads of the beam, as functions of the tributary width. *)
Lemma Suite_loads_monotone (p q : Suite.V.Locals float) :
  Suite.V.L q = Suite.V.L p -> Suite.V.wallH q = Suite.V.wallH p ->
  Suite.V.LL q = Suite.V.LL p -> Suite.V.b q = Suite.V.b p -> Suite.V.h q = Suite.V.h p ->
  (num 0 <? Suite.V.L p) = true -> (Suite.V.L p <? infinity) = true ->
  (num 0 <? Suite.V.LL p) = true -> (Suite.V.LL p <? infinity) = true ->
  ((num 0 <? Suite.V.wallH p) = true \/ Suite.V.wallH p = num 0) ->
  ((num 0 <? Suite.sw p) = true \/ Suite.sw p = num 0) ->
  ((num 0 <? Suite.V.trib p) = true \/ Suite.V.trib p = num 0) ->
  ((num 0 <? Suite.V.trib q) = true \/ Suite.V.trib q = num 0) ->
  (Suite.V.trib p <=? Suite.V.trib q) = true ->
  (Suite.M p <=? Suite.M q) = true /\ (Suite.reaction p <=? Suite.reaction q) = true /\
  nns (Prim2SF (Suite.M p)) /\ nns (Prim2SF (Suite.M q)) /\
  nns (Prim2SF (Suite.reaction p)) /\ nns (Prim2SF (Suite.reaction q)).
Proof.
  intros EL EW ELL Eb Eh L0 L1 LL0 LL1 W S T T2 T12.
  destruct (positive_finite _ L0 L1) as (mL & eL & CL).
  destruct (positive_finite _ LL0 LL1) as (mLL & eLL & CLL).
  apply nns_zero_or_positive in W, S, T, T2.
  assert (Esw : Suite.sw q = Suite.sw p) by (unfold Suite.sw; rewrite Eb, Eh; reflexivity).
  destruct (positive_constant (of_Q 4.0) ltac:(vm_compute; reflexivity)) as (m4 & e4 & C4).
  destruct (positive_constant (of_Q 2.6) ltac:(vm_compute; reflexivity)) as (m26 & e26 & C26).
  destruct (positive_constant (of_Q 1.4) ltac:(vm_compute; reflexivity)) as (m14 & e14 & C14).
  destruct (positive_constant (of_Q 1.6) ltac:(vm_compute; reflexivity)) as (m16 & e16 & C16).
  destruct (positive_constant (of_Q 8) ltac:(vm_compute; reflexivity)) as (m8 & e8 & C8).
  destruct (positive_constant (of_Q 2) ltac:(vm_compute; reflexivity)) as (m2 & e2 & C2).
  cbn [leb Float64_Num] in T12.
  (* slab *)
  pose proof (mul_nns_l _ _ _ _ C4 T) as A1. pose proof (mul_nns_l _ _ _ _ C4 T2) as A2.
  pose proof (mul_leb_mono_r _ _ _ _ _ C4 T T2 T12) as A.
  (* wall *)
  pose proof (mul_nns_l _ _ _ _ C26 W) as B1.
  (* dead load *)
  pose proof (add_nns _ _ (add_nns _ _ S A1) B1) as D1.
  pose proof (add_nns _ _ (add_nns _ _ S A2) B1) as D2.
  pose proof (add_leb_mono _ _ _ _ (add_nns _ _ S A1) (add_nns _ _ S A2) B1 B1
                (add_leb_mono _ _ _ _ S S A1 A2 (nns_leb_refl _ S) A) (nns_leb_refl _ B1)) as D.
  (* live load *)
  pose proof (mul_nns_l _ _ _ _ CLL T) as V1. pose proof (mul_nns_l _ _ _ _ CLL T2) as V2.
  pose proof (mul_leb_mono_r _ _ _ _ _ CLL T T2 T12) as V.
  (* factored load *)
  pose proof (add_nns _ _ (mul_nns_l _ _ _ _ C14 D1) (mul_nns_l _ _ _ _ C16 V1)) as U1.
  pose proof (add_nns _ _ (mul_nns_l _ _ _ _ C14 D2) (mul_nns_l _ _ _ _ C16 V2)) as U2.
  pose proof (add_leb_mono _ _ _ _
                (mul_nns_l _ _ _ _ C14 D1) (mul_nns_l _ _ _ _ C14 D2)
                (mul_nns_l _ _ _ _ C16 V1) (mul_nns_l _ _ _ _ C16 V2)
                (mul_leb_mono_r _ _ _ _ _ C14 D1 D2 D)
                (mul_leb_mono_r _ _ _ _ _ C16 V1 V2 V)) as U.
  (* times the span *)
  pose proof (mul_nns _ _ _ _ CL U1) as X1. pose proof (mul_nns _ _ _ _ CL U2) as X2.
  pose proof (mul_leb_mono _ _ _ _ _ CL U1 U2 U) as X.
  pose proof (mul_nns _ _ _ _ CL X1) as Y1. pose proof (mul_nns _ _ _ _ CL X2) as Y2.
  pose proof (mul_leb_mono _ _ _ _ _ CL X1 X2 X) as Y.
  unfold Suite.M, Suite.reaction, Suite.totalUDL, Suite.deadLoad, Suite.liveLoadTotal,
    GAMMA_G, GAMMA_Q, SLAB_DL_UNIT, WALL_DL_UNIT.
  rewrite Esw, EL, EW, ELL.
  cbn [add mul div leb num Float64_Num].
  split; [exact (div_leb_mono _ _ _ _ _ C8 Y1 Y2 Y)|].
  split; [exact (div_leb_mono _ _ _ _ _ C2 X1 X2 X)|].
  split; [exact (div_nns _ _ _ _ C8 Y1)|].
  split; [exact (div_nns _ _ _ _ C8 Y2)|].
  split; [exact (div_nns _ _ _ _ C2 X1)|exact (div_nns _ _ _ _ C2 X2)].
Qed.

(** X23.  In binary64, more tributary width never helps the primary beam.
    Take two states of the beam suite that differ in the tributary width
    only, the second one wider, with a positive finite span and live load,
    a wall height, a self weight and tributary widths that are positive or
    zero, and positive finite denominators [b * d^2 * fcu] and [b * d].
    Then the moment, the reaction and [K] of the second are at least those
    of the first, and a verdict SAFE for the second, in flexure or overall,
    is a verdict SAFE for the first: every sum, product and quotient on the
    way from the width to the verdict is monotone under rounding. *)
Theorem more_load_never_turns_the_beam_SAFE :
  forall p q : Suite.V.Locals float,
    Suite.V.L q = Suite.V.L p -> Suite.V.fcu q = Suite.V.fcu p ->
    Suite.V.wallH q = Suite.V.wallH p -> Suite.V.LL q = Suite.V.LL p ->
    Suite.V.b q = Suite.V.b p -> Suite.V.h q = Suite.V.h p ->
    (num 0 <? Suite.V.L p) = true -> (Suite.V.L p <? infinity) = true ->
    (num 0 <? Suite.V.LL p) = true -> (Suite.V.LL p <? infinity) = true ->
    ((num 0 <? Suite.V.wallH p) = true \/ Suite.V.wallH p = num 0) ->
    ((num 0 <? Suite.sw p) = true \/ Suite.sw p = num 0) ->
    ((num 0 <? Suite.V.trib p) = true \/ Suite.V.trib p = num 0) ->
    ((num 0 <? Suite.V.trib q) = true \/ Suite.V.trib q = num 0) ->
    (Suite.V.trib p <=? Suite.V.trib q) = true ->
    (num 0 <? Suite.V.b p * Math_pow2 (Suite.d p) * Suite.V.fcu p) = true ->
    (Suite.V.b p * Math_pow2 (Suite.d p) * Suite.V.fcu p <? infinity) = true ->
    (num 0 <? Suite.V.b p * Suite.d p) = true ->
    (Suite.V.b p * Suite.d p <? infinity) = true ->
    (Suite.M p <=? Suite.M q) = true /\
    (Suite.reaction p <=? Suite.reaction q) = true /\
    (Suite.K p <=? Suite.K q) = true /\
    (flexure (Suite.beam q) = SAFE -> flexure (Suite.beam p) = SAFE) /\
    (status (Suite.beam q) = SAFE -> status (Suite.beam p) = SAFE).
Proof.
  intros p q EL Ef EW ELL Eb Eh L0 L1 LL0 LL1 W S T T2 T12 D0 D1 B0 B1.
  destruct (Suite_loads_monotone p q EL EW ELL Eb Eh L0 L1 LL0 LL1 W S T T2 T12)
    as (MM & RR & M1 & M2 & R1 & R2).
  destruct (positive_finite _ D0 D1) as (md & ed & CD).
  destruct (positive_finite _ B0 B1) as (mb & eb & CB).
  destruct (positive_constant (of_Q 1e6) ltac:(vm_compute; reflexivity)) as (m6 & e6 & C6).
  destruct (positive_constant (of_Q 1000) ltac:(vm_compute; reflexivity)) as (m3 & e3 & C3).
  assert (Ed : Suite.d q = Suite.d p) by (unfold Suite.d; rewrite Eh; reflexivity).
  cbn [leb Float64_Num] in MM, RR.
  assert (KK : (Suite.K p <=? Suite.K q) = true).
  { unfold Suite.K. rewrite Eb, Ed, Ef. cbn [mul div leb num Float64_Num] in *.
    apply (div_leb_mono _ _ _ _ _ CD (mul_nns _ _ _ _ C6 M1) (mul_nns _ _ _ _ C6 M2)).
    apply (mul_leb_mono _ _ _ _ _ C6 M1 M2 MM). }
  assert (FF : flexureStatus (Suite.K q) = SAFE -> flexureStatus (Suite.K p) = SAFE).
  { intros F. apply flexureStatus_SAFE in F. apply flexureStatus_SAFE.
    cbn [leb Float64_Num] in *. exact (leb_trans _ _ _ KK F). }
  assert (VV : (shearStress (Suite.reaction p) (Suite.V.b p) (Suite.d p)
                <=? shearStress (Suite.reaction q) (Suite.V.b p) (Suite.d p)) = true).
  { unfold shearStress. cbn [mul div leb num Float64_Num] in *.
    apply (div_leb_mono _ _ _ _ _ CB (mul_nns _ _ _ _ C3 R1) (mul_nns _ _ _ _ C3 R2)).
    apply (mul_leb_mono _ _ _ _ _ C3 R1 R2 RR). }
  split; [exact MM|]. split; [exact RR|]. split; [exact KK|].
  unfold Suite.beam. rewrite !flexure_sectionDesign. split; [exact FF|].
  rewrite Eb, Ed, Eh, Ef.
  destruct (flexureStatus (Suite.K q)) eqn:Fq.
  - rewrite (sectionDesign_SAFE _ _ _ _ _ _ _ _ Fq).
    rewrite (sectionDesign_SAFE _ _ _ _ _ _ _ _ (FF eq_refl)).
    cbn [status].
    destruct (shearStress (Suite.reaction q) (Suite.V.b p) (Suite.d p)
              >? num 0.8 * Math_sqrt (Suite.V.fcu p)) eqn:Sq; [discriminate|].
    intros _.
    destruct (shearStress (Suite.reaction p) (Suite.V.b p) (Suite.d p)
              >? num 0.8 * Math_sqrt (Suite.V.fcu p)) eqn:Sp; [|reflexivity].
    cbn [ltb leb Float64_Num] in Sp, Sq, VV.
    rewrite (ltb_leb_trans _ _ _ Sp VV) in Sq. discriminate.
  - rewrite (sectionDesign_UNSAFE _ _ _ _ _ _ _ _ Fq). cbn [status]. discriminate.
Qed.

(** The initial form, 150 x 450 mm with a tributary width of 3.0 m, against
    the same with 5.0 m: [K] grows from about 0.120 to about 0.171, the
    wider one is UNSAFE and the initial one SAFE. *)
Lemma more_load_forms :
  (Suite.K (Suite.parse (Samples.suiteForm "4.0" "150" "450" "25" "3.0"))
   <=? Suite.K (Suite.parse (Samples.suiteForm "4.0" "150" "450" "25" "5.0")))%js = true /\
  status (Suite.beam (Suite.parse (Samples.suiteForm "4.0" "150" "450" "25" "3.0"))) = SAFE /\
  status (Suite.beam (Suite.parse (Samples.suiteForm "4.0" "150" "450" "25" "5.0"))) = UNSAFE.
Proof.
  split; [|split; vm_compute; reflexivity].
  refine (proj1 (proj2 (proj2
            (more_load_never_turns_the_beam_SAFE
               (Suite.parse (Samples.suiteForm "4.0" "150" "450" "25" "3.0"))
               (Suite.parse (Samples.suiteForm "4.0" "150" "450" "25" "5.0"))
               eq_refl eq_refl eq_refl eq_refl eq_refl eq_refl
               _ _ _ _ _ _ _ _ _ _ _ _ _))));
    try (left; vm_compute; reflexivity); vm_compute; reflexivity.
Defined.

End LoadMonotonicity.

(** ** Differences and products in binary64 *)

Module DifferenceFacts.
Import Float64 Float64Facts Rounding RoundingFacts NumberFacts MathFacts MonotoneFacts SumFacts.
Local Open Scope R_scope.
Local Abbreviation fexp := (SpecFloat.fexp prec emax).
Local Abbreviation bounded := (SpecFloat.bounded prec emax).

(** The difference of two non-negative numbers that are not infinite, the
    larger first, is their exact difference, rounded. *)
Lemma SFsub_shape (x y : spec_float) :
  nn x -> nn y -> x <> S754_infinity false -> y <> S754_infinity false ->
  val y <= val x ->
  exists M E,
    (0 <= M)%Z /\
    SFsub prec emax x y = binary_round_aux prec emax false M E loc_Exact /\
    loc_ok M E loc_Exact (val x - val y) /\
    (E <= fexp (Zdigits2 M + E))%Z.
Proof.
  intros [Sx Vx] [Sy Vy] Ix Iy H.
  destruct x as [[|]|[|]| |[|] mx ex]; try (simpl in Sx; tauto); try congruence;
    destruct y as [[|]|[|]| |[|] my ey]; try (simpl in Sy; tauto); try congruence.
  - exists 0%Z, (-1074)%Z. split; [lia|]. split; [reflexivity|].
    cbn [loc_ok val]. split; [lra|]. vm_compute. discriminate.
  - exfalso. cbn [val] in H. pose proof (val_pos my ey). lra.
  - exists (Zpos mx), ex. split; [lia|]. cbn [SFsub]. rewrite bra_id by exact Vx.
    split; [reflexivity|]. cbn [loc_ok val]. split; [lra|].
    pose proof (bounded_canonical mx ex Vx). lia.
  - cbn [val] in H. cbn [SFsub cond_Zopp].
    set (ez := Z.min ex ey).
    pose proof (shl_align_value mx ex ez ltac:(unfold ez; lia)) as Ax.
    pose proof (shl_align_value my ey ez ltac:(unfold ez; lia)) as Ay.
    set (a := fst (shl_align mx ex ez)) in *. set (b := fst (shl_align my ey ez)) in *.
    assert (Hab : (Zpos b <= Zpos a)%Z).
    { apply le_IZR. apply Rmult_le_reg_r with (bpow ez); [apply bpow_pos|].
      rewrite Ax, Ay. exact H. }
    assert (V : IZR (Zpos a - Zpos b) * bpow ez
                = IZR (Zpos mx) * bpow ex - IZR (Zpos my) * bpow ey).
    { rewrite minus_IZR, Rmult_minus_distr_r, Ax, Ay. reflexivity. }
    remember (Zpos a - Zpos b)%Z as D eqn:ED.
    destruct D as [|p|p]; [| |lia].
    + exists 0%Z, (-1074)%Z. split; [lia|]. split; [reflexivity|].
      cbn [loc_ok val]. split; [lra|]. vm_compute. discriminate.
    + destruct (binary_normalize_exact p ez) as (mz & ez' & E & L & C).
      exists (Zpos mz), ez'. split; [lia|]. split; [exact E|]. split; [|exact C].
      cbn [loc_ok val] in *. rewrite <- L. symmetry. exact V.
Qed.

Lemma SFsub_nns (x y : spec_float) :
  nn x -> nn y -> x <> S754_infinity false -> y <> S754_infinity false ->
  val y <= val x -> nns (SFsub prec emax x y).
Proof.
  intros Nx Ny Ix Iy H.
  destruct (SFsub_shape x y Nx Ny Ix Iy H) as (M & E & HM & -> & L & C).
  eapply bra_nns; eassumption.
Qed.

(** A difference grows with its first term and shrinks with its second, as
    long as it stays non-negative. *)
Lemma SFsub_mono (a b c d : spec_float) :
  nn a -> nn b -> nn c -> nn d ->
  b <> S754_infinity false ->
  SFleb c a = true -> SFleb a b = true -> SFleb d c = true ->
  SFleb (SFsub prec emax a c) (SFsub prec emax b d) = true.
Proof.
  intros Na Nb Nc Nd Ib Hca Hab Hdc.
  assert (Ia : a <> S754_infinity false).
  { intros ->. apply Ib. apply (SFleb_from_inf b); [apply Nb|exact Hab]. }
  assert (Ic : c <> S754_infinity false).
  { intros ->. apply Ia. apply (SFleb_from_inf a); [apply Na|exact Hca]. }
  assert (Id : d <> S754_infinity false).
  { intros ->. apply Ic. apply (SFleb_from_inf c); [apply Nc|exact Hdc]. }
  pose proof (SFleb_val_nn c a Nc Na Ic Ia Hca) as V1.
  pose proof (SFleb_val_nn a b Na Nb Ia Ib Hab) as V2.
  pose proof (SFleb_val_nn d c Nd Nc Id Ic Hdc) as V3.
  destruct (SFsub_shape a c Na Nc Ia Ic V1) as (M1 & E1 & P1 & -> & L1 & C1).
  destruct (SFsub_shape b d Nb Nd Ib Id ltac:(lra)) as (M2 & E2 & P2 & -> & L2 & C2).
  eapply bra_mono; try eassumption. lra.
Qed.

(** *** On numbers *)

Lemma finite_below_infinity (x : float) :
  (x <? infinity)%float = true -> Prim2SF x <> S754_infinity false.
Proof. rewrite ltb_spec. intros H E. rewrite E in H. discriminate. Qed.

Lemma sub_leb_mono (a b c d : float) :
  nns (Prim2SF a) -> nns (Prim2SF b) -> nns (Prim2SF c) -> nns (Prim2SF d) ->
  (b <? infinity)%float = true ->
  (c <=? a)%float = true -> (a <=? b)%float = true -> (d <=? c)%float = true ->
  (a - c <=? b - d)%float = true.
Proof.
  intros Sa Sb Sc Sd Fb. rewrite !leb_spec, !FloatAxioms.sub_spec.
  apply SFsub_mono; try (apply nn_prim; assumption).
  apply finite_below_infinity. exact Fb.
Qed.

Lemma sub_nns (a c : float) :
  nns (Prim2SF a) -> nns (Prim2SF c) -> (a <? infinity)%float = true ->
  (c <=? a)%float = true -> nns (Prim2SF (a - c)).
Proof.
  intros Sa Sc Fa H. pose proof (finite_below_infinity a Fa) as Ia.
  pose proof (nn_prim a Sa) as Na. pose proof (nn_prim c Sc) as Nc.
  assert (Ic : Prim2SF c <> S754_infinity false).
  { intros E. apply Ia. apply (SFleb_from_inf _ Sa). rewrite <- E, <- leb_spec. exact H. }
  rewrite FloatAxioms.sub_spec. apply SFsub_nns; try assumption.
  apply SFleb_val_nn; try assumption. rewrite <- leb_spec. exact H.
Qed.


End DifferenceFacts.

(** ** The lever arm and the steel of a section that passes in flexure *)

Section LeverArmProperties.
Import Float64 Float64Facts Rounding RoundingFacts NumberFacts MathFacts MonotoneFacts
  SumFacts DifferenceFacts.
Import Kernel KernelFacts.
Local Open Scope js_scope.

(** The smallest positive number, 2^-1074. *)
Local Abbreviation tiny := (SF2Prim (S754_finite false 1 (-1074))).



(** A number at or above a positive constant. *)
Lemma above_constant (c x : float) :
  match Prim2SF c with S754_finite false _ _ => true | _ => false end = true ->
  (c <=? x)%float = true -> nns (Prim2SF x) /\ Prim2SF x <> S754_zero false.
Proof.
  intros P H. destruct (positive_constant c P) as (m & e & C).
  exact (nns_above c x m e C H).
Qed.

Ltac constant := vm_compute; reflexivity.






End LeverArmProperties.

(** ** Where the sketch draws the ground beam *)

Section SketchPlacement.
Import Float64 Float64Facts Rounding RoundingFacts NumberFacts MathFacts MonotoneFacts
  SumFacts DifferenceFacts.
Local Open Scope js_scope.

Ltac constant := vm_compute; reflexivity.

(** [c - w / 2] for a width [w] between two positive constants. *)
Lemma centred_between (c lo hi w : float) :
  match Prim2SF c with S754_finite false _ _ => true | _ => false end = true ->
  match Prim2SF lo with S754_finite false _ _ => true | _ => false end = true ->
  match Prim2SF hi with S754_finite false _ _ => true | _ => false end = true ->
  (hi / of_Q 2 <=? c)%float = true ->
  (lo <=? w)%float = true -> (w <=? hi)%float = true ->
  (c - hi / of_Q 2 <=? c - w / of_Q 2)%float = true /\
  (c - w / of_Q 2 <=? c - lo / of_Q 2)%float = true.
Proof.
  intros Pc Pl Ph Hc L U.
  destruct (positive_constant c Pc) as (mc & ec & Cc).
  destruct (positive_constant lo Pl) as (ml & el & Cl).
  destruct (positive_constant hi Ph) as (mh & eh & Ch).
  destruct (positive_constant (of_Q 2) ltac:(constant)) as (m2 & e2 & C2).
  assert (Sc : nns (Prim2SF c)) by (rewrite Cc; exact I).
  assert (Sl : nns (Prim2SF lo)) by (rewrite Cl; exact I).
  assert (Sh : nns (Prim2SF hi)) by (rewrite Ch; exact I).
  destruct (nns_above lo w ml el Cl L) as [Sw _].
  pose proof (div_nns _ _ _ _ C2 Sl) as Sl2.
  pose proof (div_nns _ _ _ _ C2 Sw) as Sw2.
  pose proof (div_nns _ _ _ _ C2 Sh) as Sh2.
  pose proof (div_leb_mono _ _ _ _ _ C2 Sl Sw L) as L2.
  pose proof (div_leb_mono _ _ _ _ _ C2 Sw Sh U) as U2.
  assert (Fc : (c <? infinity)%float = true)
    by (rewrite ltb_spec, Cc; reflexivity).
  assert (Rc : (c <=? c)%float = true) by (apply nns_leb_refl; exact Sc).
  split; apply sub_leb_mono; try assumption.
  exact (leb_trans _ _ _ U2 Hc).
Qed.

(** The column of the sketch, for a positive column size: its width
    [Math.min(40, colSize / 200 * 40)] is between 0 and 40, so it starts
    between x = 100 and x = 120 and ends at or before x = 160. *)
Lemma column_placement (colSize : float) :
  (0 <? colSize)%float = true ->
  let cw := min (of_Q 40) (colSize / of_Q 200 * of_Q 40) in
  (of_Q 100 <=? of_Q 120 - cw / of_Q 2)%float = true /\
  (of_Q 120 - cw / of_Q 2 <=? of_Q 120)%float = true /\
  (of_Q 120 - cw / of_Q 2 + cw <=? of_Q 160)%float = true.
Proof.
  intros P cw.
  destruct (nns_positive colSize P) as [Sc _].
  destruct (positive_constant (of_Q 200) ltac:(constant)) as (m1 & e1 & C1).
  destruct (positive_constant (of_Q 40) ltac:(constant)) as (m4 & e4 & C4).
  destruct (positive_constant (of_Q 2) ltac:(constant)) as (m2 & e2 & C2).
  pose proof (mul_nns _ _ m4 e4 C4 (div_nns _ _ m1 e1 C1 Sc)) as Ss.
  assert (S40 : nns (Prim2SF (of_Q 40))) by (rewrite C4; exact I).
  assert (B : nns (Prim2SF cw) /\ (cw <=? of_Q 40)%float = true).
  { destruct (min_numbers (of_Q 40) (colSize / of_Q 200 * of_Q 40)%float
                ltac:(constant) ltac:(apply is_nan_false, nns_not_nan; exact Ss))
      as ([E|E] & U & _); fold cw in E, U; (split; [rewrite E; assumption|exact U]). }
  destruct B as [Sw U]. clearbody cw. clear Ss Sc P.
  pose proof (div_nns _ _ _ _ C2 Sw) as Sw2.
  pose proof (div_leb_mono _ _ _ _ _ C2 Sw S40 U) as U2.
  assert (Z : (0 <=? cw / of_Q 2)%float = true).
  { rewrite leb_spec. apply SFleb_zero_l. exact Sw2. }
  assert (X1 : (of_Q 120 - of_Q 40 / of_Q 2 <=? of_Q 120 - cw / of_Q 2)%float = true)
    by (apply sub_leb_mono; try assumption; try (vm_compute; exact I); constant).
  assert (X2 : (of_Q 120 - cw / of_Q 2 <=? of_Q 120 - 0)%float = true).
  { apply sub_leb_mono; try assumption; try (vm_compute; exact I); try constant.
    refine (leb_trans _ _ _ U2 _). constant. }
  replace (of_Q 120 - of_Q 40 / of_Q 2)%float with (of_Q 100) in X1 by constant.
  replace (of_Q 120 - 0)%float with (of_Q 120) in X2 by constant.
  destruct (above_constant (of_Q 100) _ ltac:(constant) X1) as [Sx _].
  assert (X3 : (of_Q 120 - cw / of_Q 2 + cw <=? of_Q 120 + of_Q 40)%float = true)
    by (apply add_leb_mono; try assumption; vm_compute; exact I).
  replace (of_Q 120 + of_Q 40)%float with (of_Q 160) in X3 by constant.
  exact (conj X1 (conj X2 X3)).
Qed.

(** X16.  Where [StructuralSVG] draws the residential result, in binary64
    and whatever the form holds.  The ground beam starts between x = 30 and
    x = 60 and between y = 155 and y = 165, and ends at or before x = 240
    and y = 205: inside the view box of 240 by 240 and above the soil line
    at y = 210.  The column, when its size is positive, starts between
    x = 100 and x = 120, ends at or before x = 160, and stands from y = 105
    on the soil line. *)
Theorem sketch_places_ground_beam_and_column :
  forall inputs : Residential.DesignInput.t,
    exists r : Residential.DesignResult.t,
      Residential.calculateDesign inputs = Some r /\
      let g := Sketch.Residential.groundBeamRect
                 (Residential.DesignResult.groundBeamWidth r)
                 (Residential.DesignResult.groundBeamDepth r) in
      (num 30 <=? Sketch.x g) = true /\ (Sketch.x g <=? num 60) = true /\
      (Sketch.x g + Sketch.width g <=? num 240) = true /\
      (num 155 <=? Sketch.y g) = true /\ (Sketch.y g <=? num 165) = true /\
      (Sketch.y g + Sketch.height g <=? num 205) = true /\
      ((num 0 <? Residential.DesignResult.colSize r) = true ->
       let c := Sketch.Residential.columnRect (Residential.DesignResult.colSize r) in
       (num 100 <=? Sketch.x c) = true /\ (Sketch.x c <=? num 120) = true /\
       (Sketch.x c + Sketch.width c <=? num 160) = true /\
       Sketch.y c = num 105 /\ Sketch.y c + Sketch.height c = num 210).
Proof.
  intros inputs. exists (Residential.result (Residential.parse inputs)).
  split; [apply Residential_calculateDesign_Some|].
  destruct (Residential_sizes inputs) as (_ & W & D1 & _ & _).
  set (p := Residential.parse inputs) in *.
  cbn [Residential.result Residential.DesignResult.groundBeamDepth
       Residential.DesignResult.groundBeamWidth Residential.DesignResult.colSize].
  cbv zeta.
  assert (C : (num 0 <? Math_max (Residential.V.colWidth p) (Residential.V.colLength p)) = true ->
              let c := Sketch.Residential.columnRect
                         (Math_max (Residential.V.colWidth p) (Residential.V.colLength p)) in
              (num 100 <=? Sketch.x c) = true /\ (Sketch.x c <=? num 120) = true /\
              (Sketch.x c + Sketch.width c <=? num 160) = true /\
              Sketch.y c = num 105 /\ Sketch.y c + Sketch.height c = num 210).
  { intros P c. destruct (column_placement _ P) as (C1 & C2 & C3).
    split; [exact C1|]. split; [exact C2|]. split; [exact C3|].
    split; [reflexivity|]. cbn [c Sketch.Residential.columnRect Sketch.y Sketch.height].
    constant. }
  revert C.
  generalize (Math_max (Residential.V.colWidth p) (Residential.V.colLength p)).
  intros colSize C.
  unfold Sketch.Residential.groundBeamRect, Sketch.Residential.footingH.
  cbn [Sketch.x Sketch.y Sketch.width Sketch.height].
  unfold Sketch.Residential.groundBeamH, Sketch.Residential.groundBeamW.
  cbn [Math_max Math_min add sub mul div leb num Float64_Num] in *.
  pose proof (scale_above (of_Q 300) (Residential.groundBeamDepth p) (of_Q 400) (of_Q 40)
                ltac:(constant) ltac:(constant) ltac:(constant) D1) as H1.
  replace (of_Q 300 / of_Q 400 * of_Q 40)%float with (of_Q 30) in H1 by constant.
  pose proof (scale_above (of_Q 200) (Residential.groundBeamWidth p) (of_Q 300) (of_Q 180)
                ltac:(constant) ltac:(constant) ltac:(constant) W) as H2.
  replace (of_Q 200 / of_Q 300 * of_Q 180)%float with (of_Q 120) in H2 by constant.
  destruct (min_between (of_Q 30) (of_Q 40) _ ltac:(constant) ltac:(constant) H1) as [A1 A2].
  destruct (min_between (of_Q 120) (of_Q 180) _ ltac:(constant) ltac:(constant) H2) as [B1 B2].
  set (gh := min (of_Q 40) (Residential.groundBeamDepth p / of_Q 400 * of_Q 40)) in *.
  set (gw := min (of_Q 180) (Residential.groundBeamWidth p / of_Q 300 * of_Q 180)) in *.
  clearbody gh gw. clear H1 H2 W D1. clearbody p.
  destruct (above_constant (of_Q 30) gh ltac:(constant) A1) as [Sh _].
  destruct (above_constant (of_Q 120) gw ltac:(constant) B1) as [Sw _].
  (* across *)
  destruct (centred_between (of_Q 120) (of_Q 120) (of_Q 180) gw ltac:(constant)
              ltac:(constant) ltac:(constant) ltac:(constant) B1 B2) as [X1 X2].
  replace (of_Q 120 - of_Q 180 / of_Q 2)%float with (of_Q 30) in X1 by constant.
  replace (of_Q 120 - of_Q 120 / of_Q 2)%float with (of_Q 60) in X2 by constant.
  destruct (above_constant (of_Q 30) _ ltac:(constant) X1) as [Sx _].
  assert (X3 : (of_Q 120 - gw / of_Q 2 + gw <=? of_Q 60 + of_Q 180)%float = true)
    by (apply add_leb_mono; try assumption; vm_compute; exact I).
  replace (of_Q 60 + of_Q 180)%float with (of_Q 240) in X3 by constant.
  (* down *)
  assert (Y1 : (of_Q 210 - of_Q 15 - of_Q 40 <=? of_Q 210 - of_Q 15 - gh)%float = true)
    by (apply sub_leb_mono; try assumption; try (vm_compute; exact I); constant).
  assert (Y2 : (of_Q 210 - of_Q 15 - gh <=? of_Q 210 - of_Q 15 - of_Q 30)%float = true).
  { apply sub_leb_mono; try assumption; try (vm_compute; exact I); try constant.
    refine (leb_trans _ _ _ A2 _). constant. }
  replace (of_Q 210 - of_Q 15 - of_Q 40)%float with (of_Q 155) in Y1 by constant.
  replace (of_Q 210 - of_Q 15 - of_Q 30)%float with (of_Q 165) in Y2 by constant.
  destruct (above_constant (of_Q 155) _ ltac:(constant) Y1) as [Sy _].
  assert (Y3 : (of_Q 210 - of_Q 15 - gh + gh <=? of_Q 165 + of_Q 40)%float = true)
    by (apply add_leb_mono; try assumption; vm_compute; exact I).
  replace (of_Q 165 + of_Q 40)%float with (of_Q 205) in Y3 by constant.
  exact (conj X1 (conj X2 (conj X3 (conj Y1 (conj Y2 (conj Y3 C)))))).
Qed.

(** The initial residential form: a 200 mm column, drawn 40 units wide
    from x = 100, and a ground beam of 200 x 334 mm, drawn 120 units wide
    from x = 60. *)
Lemma sketch_of_the_initial_form :
  exists r : Residential.DesignResult.t,
    Residential.calculateDesign Samples.residentialDefaults = Some r /\
    (num 30 <=? Sketch.x (Sketch.Residential.groundBeamRect
                            (Residential.DesignResult.groundBeamWidth r)
                            (Residential.DesignResult.groundBeamDepth r))) = true /\
    (num 100 <=? Sketch.x (Sketch.Residential.columnRect
                             (Residential.DesignResult.colSize r))) = true /\
    Sketch.x (Sketch.Residential.groundBeamRect
                (Residential.DesignResult.groundBeamWidth r)
                (Residential.DesignResult.groundBeamDepth r)) = num 60 /\
    Sketch.x (Sketch.Residential.columnRect (Residential.DesignResult.colSize r)) = num 100.
Proof.
  destruct (sketch_places_ground_beam_and_column Samples.residentialDefaults)
    as (r & E & G & _ & _ & _ & _ & _ & C).
  exists r. split; [exact E|]. split; [exact G|].
  rewrite Residential_calculateDesign_Some in E. injection E as <-.
  split; [exact (proj1 (C ltac:(vm_compute; reflexivity)))|].
  split; vm_compute; reflexivity.
Defined.

End SketchPlacement.

(** ** The section chosen for a longer span *)

Section AutoSizeMonotone.
Import Float64 Float64Facts Rounding RoundingFacts NumberFacts MathFacts MonotoneFacts
  SumFacts DifferenceFacts.
Local Open Scope js_scope.

Ltac constant := vm_compute; reflexivity.

(** [Math.max(c, x)] grows with [x]. *)
Lemma max_leb_mono (c x y : float) :
  is_nan c = false -> (x <=? y)%float = true ->
  (max c x <=? max c y)%float = true.
Proof.
  intros Nc H.
  destruct (max_numbers c x Nc (leb_is_nan_l _ _ H)) as ([E|E] & _ & _);
    destruct (max_numbers c y Nc (leb_is_nan_r _ _ H)) as (_ & U1 & U2); rewrite E.
  - exact U1.
  - exact (leb_trans _ _ _ H U2).
Qed.

(** [Math.ceil(x / c1 / 25) * 25], the rounding up to a step of 25, grows
    with [x]. *)
Lemma steps_leb_mono (c1 x y : float) :
  match Prim2SF c1 with S754_finite false _ _ => true | _ => false end = true ->
  nns (Prim2SF x) -> nns (Prim2SF y) -> (x <=? y)%float = true ->
  (ceil (x / c1 / of_Q 25) * of_Q 25 <=? ceil (y / c1 / of_Q 25) * of_Q 25)%float = true.
Proof.
  intros P1 Sx Sy H.
  destruct (positive_constant c1 P1) as (m1 & e1 & C1).
  destruct (positive_constant (of_Q 25) ltac:(constant)) as (m & e & C).
  pose proof (div_nns _ _ _ _ C (div_nns _ _ _ _ C1 Sx)) as Qx.
  pose proof (div_nns _ _ _ _ C (div_nns _ _ _ _ C1 Sy)) as Qy.
  apply (mul_leb_mono _ _ _ m e C);
    [apply ceil_nns, nn_prim; exact Qx|apply ceil_nns, nn_prim; exact Qy|].
  apply ceil_mono_nns; [exact Qx|exact Qy|].
  apply (div_leb_mono _ _ _ m e C);
    [apply (div_nns _ _ m1 e1 C1); exact Sx|apply (div_nns _ _ m1 e1 C1); exact Sy|].
  apply (div_leb_mono _ _ _ m1 e1 C1); assumption.
Qed.

(** X14.  The section the beam suite chooses when the form leaves it open,
    in binary64: a longer span never gets a shallower beam, and a deeper
    beam never gets a narrower one.  For spans [0 < L1 <= L2] the depth
    [Math.max(300, Math.ceil((L * 1000 / 14) / 25) * 25)] chosen for [L2] is
    at least the depth chosen for [L1], and likewise the width
    [Math.max(150, Math.ceil((h / 2.5) / 25) * 25)] for depths
    [0 < h1 <= h2]; so the width chosen for the longer span is at least the
    width chosen for the shorter one. *)
Theorem auto_section_grows_with_the_span :
  forall L1 L2 : float,
    (num 0 <? L1) = true -> (L1 <=? L2) = true ->
    (Suite.autoDepth L1 <=? Suite.autoDepth L2) = true /\
    (forall h1 h2 : float,
        (num 0 <? h1) = true -> (h1 <=? h2) = true ->
        (Suite.autoWidth h1 <=? Suite.autoWidth h2) = true) /\
    (Suite.autoWidth (Suite.autoDepth L1) <=? Suite.autoWidth (Suite.autoDepth L2)) = true.
Proof.
  intros L1 L2 P H.
  destruct (positive_constant (of_Q 1000) ltac:(constant)) as (mk & ek & Ck).
  assert (W : forall h1 h2 : float,
             nns (Prim2SF h1) -> nns (Prim2SF h2) -> (h1 <=? h2)%float = true ->
             (Suite.autoWidth h1 <=? Suite.autoWidth h2) = true).
  { intros h1 h2 S1 S2 Hh. unfold Suite.autoWidth.
    cbn [Math_max Math_ceil mul div leb num Float64_Num].
    apply max_leb_mono; [constant|].
    apply steps_leb_mono; try assumption. constant. }
  destruct (nns_positive L1 P) as [S1 _].
  destruct (nns_positive L2 (ltb_leb_trans _ _ _ P H)) as [S2 _].
  assert (D : (Suite.autoDepth L1 <=? Suite.autoDepth L2) = true).
  { unfold Suite.autoDepth. cbn [Math_max Math_ceil mul div leb num Float64_Num].
    apply max_leb_mono; [constant|].
    apply steps_leb_mono; try (apply (mul_nns _ _ mk ek Ck); assumption); [constant|].
    apply (mul_leb_mono _ _ _ mk ek Ck); assumption. }
  split; [exact D|]. split.
  - intros h1 h2 P1 Hh. destruct (nns_positive h1 P1) as [Sh1 _].
    destruct (nns_positive h2 (ltb_leb_trans _ _ _ P1 Hh)) as [Sh2 _].
    apply W; assumption.
  - pose proof (autoDepth_ge_300 L1 ltac:(apply is_nan_false, nns_not_nan; exact S1)) as A1.
    cbn [leb Float64_Num] in *.
    destruct (above_constant (of_Q 300) _ ltac:(constant) A1) as [Sa _].
    destruct (above_constant (of_Q 300) _ ltac:(constant) (leb_trans _ _ _ A1 D)) as [Sb _].
    apply W; assumption.
Qed.

(** From a span of 4 m to one of 8.05 m the depth chosen goes from 300 to
    600 mm ([8.05 * 1000 / 14 / 25] is 23.000000000000004 in binary64, which
    [Math.ceil] takes to 24) and the width from 150 to 250 mm. *)
Lemma auto_section_4m_and_8_05m :
  (Suite.autoDepth (parseFloat "4.0") <=? Suite.autoDepth (parseFloat "8.05")) = true /\
  (Suite.autoWidth (Suite.autoDepth (parseFloat "4.0"))
   <=? Suite.autoWidth (Suite.autoDepth (parseFloat "8.05"))) = true /\
  Suite.autoDepth (parseFloat "4.0") = num 300 /\
  Suite.autoDepth (parseFloat "8.05") = num 600 /\
  Suite.autoWidth (num 300) = num 150 /\
  Suite.autoWidth (num 600) = num 250.
Proof.
  destruct (auto_section_grows_with_the_span (parseFloat "4.0") (parseFloat "8.05")
              ltac:(vm_compute; reflexivity) ltac:(vm_compute; reflexivity))
    as (D & _ & W).
  split; [exact D|]. split; [exact W|].
  repeat split; vm_compute; reflexivity.
Defined.

End AutoSizeMonotone.
